(** * Zendesk backup and restore: a shallow embedding of [backup.py] and
    [restore.py], and the properties of the synchronisation engine.

    The two scripts mirror the resources of a ticketing API into a Postgres
    store and rebuild the structured tables from the raw payloads.  The
    development follows the source function by function:

    - decoded JSON values and the Python operations the scripts apply to
      them ([dict.get], [x or y], [bool], [int], [str], [for]);
    - the store: [sync_state], [raw_snapshots] and the structured tables,
      each a finite map from its primary key, with [INSERT .. ON CONFLICT
      DO UPDATE] as insertion, [DELETE .. WHERE] and [TRUNCATE] as filters;
    - a state-and-exception monad: the connection is in autocommit mode, so
      what was written before an exception stays written;
    - the HTTP session as a feed of responses consumed one per [GET].

    What the scripts take from outside (the ISO date parser, [int] and
    [hash] on strings, what the database server accepts, the attachment
    downloader) is gathered in the record [env]; every statement holds for
    every such environment. *)

From Stdlib Require Import Ascii.
From stdpp Require Import gmap strings list fin_maps sorting pretty.

Set Warnings "-register-all".

Open Scope Z_scope.

(** ** Decoded JSON *)

(** Numbers are integers: identifiers, epoch seconds, positions, sizes. *)
Inductive json : Type :=
| JNull
| JBool (b : bool)
| JNum (n : Z)
| JStr (s : string)
| JArr (xs : list json)
| JObj (kvs : list (string * json)).

(** A decoded object is a [dict]; it is kept as its list of bindings, and a
    key is looked up at its first binding. *)
Fixpoint assoc (k : string) (kvs : list (string * json)) : option json :=
  match kvs with
  | [] => None
  | (k', v) :: rest => if String.eqb k k' then Some v else assoc k rest
  end.

(** [d.get(k)]: [None] when the key is missing. *)
Definition get (kvs : list (string * json)) (k : string) : json :=
  default JNull (assoc k kvs).

(** [d.get(k, dflt)]. *)
Definition get_or (kvs : list (string * json)) (k : string) (dflt : json) : json :=
  default dflt (assoc k kvs).

(** Python truth value: [None], [False], [0], the empty string, list and
    dict are false. *)
Definition truthy (j : json) : bool :=
  match j with
  | JNull => false
  | JBool b => b
  | JNum n => negb (n =? 0)
  | JStr s => negb (String.eqb s "")
  | JArr xs => match xs with [] => false | _ => true end
  | JObj kvs => match kvs with [] => false | _ => true end
  end.

(** [a or b]. *)
Definition py_or (a b : json) : json := if truthy a then a else b.

(** [x is None]. *)
Definition is_none (j : json) : bool :=
  match j with JNull => true | _ => false end.

(** ** Exceptions and results *)

(** The detail a failed [GET] reports: the decoded body, or the first 300
    characters of the text under the key ["text"]. *)
Inductive exn : Type :=
| KeyError (k : string)
| TypeError
| ValueError
| AttributeError
| DatabaseError (table : string)
| RequestException
| JSONDecodeError
| GetFailed (url : string) (status : Z) (detail : json)
| GetExhausted (url : string)
| OrganizationsGetFailed (status : Z) (detail : json)
| TicketsGetFailed (status : Z) (detail : json)
| SystemExit (msg : string)
| OtherError (name : string)
(** Not Python exceptions, and caught by no handler: the feed has no
    further answer, so the run is cut at a [GET]; a loop is still running
    when its fuel is spent. *)
| Stalled
| OutOfFuel.

Inductive result (A : Type) : Type :=
| Ok (a : A)
| Raise (e : exn).
Arguments Ok {A} a.
Arguments Raise {A} e.

(** A computation over a state [S]: the state it leaves and what it returns
    or raises.  A raise keeps the state reached so far. *)
Definition M (S A : Type) : Type := S → S * result A.

Definition ret {S A} (a : A) : M S A := λ s, (s, Ok a).
Definition raise {S A} (e : exn) : M S A := λ s, (s, Raise e).
Definition bind {S A B} (m : M S A) (k : A → M S B) : M S B :=
  λ s, match m s with
       | (s', Ok a) => k a s'
       | (s', Raise e) => (s', Raise e)
       end.

(** [try: m except Exception: h]. *)
Definition try_except {S A} (m : M S A) (h : exn → M S A) : M S A :=
  λ s, match m s with
       | (s', Ok a) => (s', Ok a)
       | (s', Raise e) => h e s'
       end.

(** A pure step that may raise. *)
Definition lift {S A} (r : result A) : M S A := λ s, (s, r).

Notation "x <- m ;; k" := (bind m (λ x, k))
  (at level 100, m at next level, right associativity).
Notation "m ;;; k" := (bind m (λ _, k))
  (at level 100, right associativity).

(** [for x in xs: body x]; an exception leaves the loop. *)
Fixpoint for_each {S A} (body : A → M S unit) (xs : list A) : M S unit :=
  match xs with
  | [] => ret tt
  | x :: rest => body x ;;; for_each body rest
  end.

(** ** Statement parameters and rows *)

(** A parameter of a statement: a JSON value passed as it is, the result of
    [parse_dt], or a [json.dumps] text cast to [jsonb] (a document; the
    document [null] is [Doc JNull], not an SQL [NULL]). *)
Inductive sqlarg : Type :=
| Val (j : json)
| Stamp (t : option Z)
| Doc (j : json).

(** The column names of an [INSERT] zipped with its parameter tuple. *)
Definition row : Type := list (string * sqlarg).

Fixpoint col (c : string) (r : row) : option sqlarg :=
  match r with
  | [] => None
  | (c', v) :: rest => if String.eqb c c' then Some v else col c rest
  end.

(** ** The environment of the scripts *)

(** What the blob-download collaborator gives: the local path, or the name
    of the exception it lets through. *)
Inductive downloaded : Type :=
| LocalPath (path : option string)
| DownloadRaised (name : string).

Record env : Type := {
  (** [datetime.fromisoformat], to an instant; [None] when it raises. *)
  fromisoformat : string → option Z;
  (** [int(s)] on a string; [None] when it raises [ValueError]. *)
  int_of_str : string → option Z;
  (** [hash(s)] on a string, fixed for the life of the process. *)
  py_hash : string → Z;
  (** [str(x)] on a list or a dict. *)
  py_repr : json → string;
  (** [str.lower] and [str.strip]. *)
  str_lower : string → string;
  str_strip : string → string;
  (** [json.loads]; [None] when it raises. *)
  json_loads : string → option json;
  (** [float(s)] on a [Retry-After] header: [None] when it raises,
      otherwise whether [time.sleep] accepts the number as it is (it is
      not negative, not a NaN, not too large). *)
  float_of_header : string → option bool;
  (** The server reads a string parameter into a [BIGINT] column. *)
  pg_int8_in : string → option Z;
  (** The server accepts the parameters of an [INSERT] into a table: their
      types, ranges and [NOT NULL] columns. *)
  pg_accepts : string → row → bool;
  (** The attachment downloader: ticket, comment, attachment to a local
      path, [None] when skipped or failed; it raises on the few defects it
      does not catch itself. *)
  download_attachment : Z → Z → json → downloaded
}.

(** ** The store *)

(** A row of [raw_snapshots] without its key [(resource, entity_id)]. *)
Record raw_row : Type := {
  raw_updated_at : option Z;
  raw_payload : json
}.

(** A primary key: [BIGINT] for every structured table but
    [trigger_categories], whose [id] is [TEXT]. *)
Abbreviation pkey := (Z + string)%type.

(** [sync_state] maps a resource to its cursor token ([updated_at], the
    server's [NOW()], is left out).  A structured row is stored under its
    table and key and keeps the columns that [DO UPDATE SET] assigns. *)
Record db : Type := {
  sync_state : gmap string json;
  raw_snapshots : gmap (string * Z) raw_row;
  structured : gmap (string * pkey) row
}.

Definition empty_db : db :=
  {| sync_state := ∅; raw_snapshots := ∅; structured := ∅ |}.

Definition with_sync_state (f : gmap string json → gmap string json) (d : db) : db :=
  {| sync_state := f (sync_state d);
     raw_snapshots := raw_snapshots d;
     structured := structured d |}.

Definition with_raw (f : gmap (string * Z) raw_row → gmap (string * Z) raw_row) (d : db) : db :=
  {| sync_state := sync_state d;
     raw_snapshots := f (raw_snapshots d);
     structured := structured d |}.

Definition with_structured (f : gmap (string * pkey) row → gmap (string * pkey) row) (d : db) : db :=
  {| sync_state := sync_state d;
     raw_snapshots := raw_snapshots d;
     structured := f (structured d) |}.

(** The rows of one structured table. *)
Definition table (t : string) (d : db) : gmap (string * pkey) row :=
  filter (λ kr, kr.1.1 = t) (structured d).

(** [TRUNCATE TABLE t]: the schema declares no foreign key, so [CASCADE]
    reaches no other table. *)
Definition truncate_rows (t : string) (d : db) : db :=
  with_structured (filter (λ kr, kr.1.1 ≠ t)) d.

(** [DELETE FROM t WHERE c = n]. *)
Definition column_is (c : string) (n : Z) (r : row) : bool :=
  match col c r with
  | Some (Val (JNum m)) => bool_decide (m = n)
  | _ => false
  end.

Definition delete_where (t c : string) (n : Z) (d : db) : db :=
  with_structured (filter (λ kr, ¬ (kr.1.1 = t ∧ column_is c n kr.2 = true))) d.

(** [DELETE FROM t WHERE id = n]. *)
Definition delete_key (t : string) (n : Z) (d : db) : db :=
  with_structured (delete (t, inl n)) d.

(** ** Python operations that read the environment *)

Section Python.
Variable E : env.

(** [d[k]]. *)
Definition item (kvs : list (string * json)) (k : string) : result json :=
  match assoc k kvs with
  | Some v => Ok v
  | None => Raise (KeyError k)
  end.

(** [int(x)]. *)
Definition py_int (j : json) : result Z :=
  match j with
  | JNum n => Ok n
  | JBool b => Ok (if b then 1 else 0)
  | JStr s => match int_of_str E s with
              | Some n => Ok n
              | None => Raise ValueError
              end
  | _ => Raise TypeError
  end.

(** [str(x)]. *)
Definition py_str (j : json) : string :=
  match j with
  | JNull => "None"
  | JBool true => "True"
  | JBool false => "False"
  | JNum n => pretty n
  | JStr s => s
  | _ => py_repr E j
  end.

(** [s.replace("Z", "+00:00")]. *)
Fixpoint replace_Z (s : string) : string :=
  match s with
  | EmptyString => EmptyString
  | String c rest =>
      if Ascii.eqb c "Z"%char then String.append "+00:00" (replace_Z rest)
      else String c (replace_Z rest)
  end.

(** [for x in v]: the elements of a list, the characters of a string, the
    keys of a dict. *)
Definition py_iter (v : json) : result (list json) :=
  match v with
  | JArr xs => Ok xs
  | JStr s => Ok ((λ c, JStr (String c EmptyString)) <$> String.list_ascii_of_string s)
  | JObj kvs => Ok ((λ kv, JStr kv.1) <$> kvs)
  | _ => Raise TypeError
  end.

(** [x.get(k)] on a value that may not be a dict. *)
Definition attr_get (v : json) (k : string) : result json :=
  match v with
  | JObj kvs => Ok (get kvs k)
  | _ => Raise AttributeError
  end.

Definition attr_get_or (v : json) (k : string) (dflt : json) : result json :=
  match v with
  | JObj kvs => Ok (get_or kvs k dflt)
  | _ => Raise AttributeError
  end.

(** [BIGINT] and [TEXT] keys as the server reads them from a parameter. *)
Definition bigint_key (v : sqlarg) : option pkey :=
  match v with
  | Val (JNum n) => Some (inl n)
  | Val (JStr s) => inl <$> pg_int8_in E s
  | _ => None
  end.

Definition text_key (v : sqlarg) : option pkey :=
  match v with
  | Val (JStr s) => Some (inr s)
  | _ => None
  end.

(** [INSERT INTO t (id, c1, ..) VALUES (..) ON CONFLICT (id) DO UPDATE SET
    c1 = EXCLUDED.c1, ..]: every upsert of the scripts assigns all the
    columns but the key, so the row under the key is replaced.  A statement
    the server refuses raises and changes nothing. *)
Definition insert_row (t : string) (key : sqlarg → option pkey) (params : row) : M db unit :=
  λ d, match params with
       | (_, id) :: columns =>
           match key id with
           | Some k =>
               if pg_accepts E t params
               then (with_structured (insert (t, k) columns) d, Ok tt)
               else (d, Raise (DatabaseError t))
           | None => (d, Raise (DatabaseError t))
           end
       | [] => (d, Raise (DatabaseError t))
       end.

End Python.

(** * backup.py *)

Module Backup.
Section Writer.
Variable E : env.

(** [parse_dt]: a false value gives [None]; [replace] on a value that is
    not a string raises inside the [try] and gives [None] as well. *)
Definition parse_dt (s : json) : option Z :=
  if truthy s then
    match s with
    | JStr t => fromisoformat E (replace_Z t)
    | _ => None
    end
  else None.

(** *** Cursor state *)

Definition get_cursor_val (resource : string) : M db (option json) :=
  λ d, (d, Ok (sync_state d !! resource)).

Definition set_cursor_val (resource : string) (token : json) : M db unit :=
  λ d, if pg_accepts E "sync_state"
            [("resource", Val (JStr resource)); ("cursor_token", Val token)]
       then (with_sync_state (insert resource token) d, Ok tt)
       else (d, Raise (DatabaseError "sync_state")).

(** *** Raw payload upsert *)

Definition upsert_raw (resource : string) (entity_id : Z) (updated_at : json)
    (payload : json) : M db unit :=
  λ d, let t := parse_dt updated_at in
       if pg_accepts E "raw_snapshots"
            [("resource", Val (JStr resource)); ("entity_id", Val (JNum entity_id));
             ("updated_at", Stamp t); ("payload_json", Doc payload)]
       then (with_raw (insert (resource, entity_id)
                         {| raw_updated_at := t; raw_payload := payload |}) d, Ok tt)
       else (d, Raise (DatabaseError "raw_snapshots")).

(** *** Structured upserts: the parameter tuple of each statement *)

Section Params.
Variable o : list (string * json).

(** [o.get(k)], [bool(o.get(k))], [parse_dt(o.get(k))] and
    [json.dumps(o.get(k) or dflt)] as parameters. *)
Definition plain (k : string) : sqlarg := Val (get o k).
Definition flag (k : string) : sqlarg := Val (JBool (truthy (get o k))).
Definition stamp (k : string) : sqlarg := Stamp (parse_dt (get o k)).
Definition dumps_or (k : string) (dflt : json) : sqlarg := Doc (py_or (get o k) dflt).
Definition dumps (k : string) : sqlarg := Doc (get o k).

Definition user_params : row :=
  [("id", plain "id"); ("name", plain "name"); ("email", plain "email");
   ("role", plain "role"); ("role_type", plain "role_type");
   ("active", flag "active"); ("suspended", flag "suspended");
   ("organization_id", plain "organization_id");
   ("phone", plain "phone"); ("locale", plain "locale"); ("time_zone", plain "time_zone");
   ("created_at", stamp "created_at"); ("updated_at", stamp "updated_at");
   ("last_login_at", stamp "last_login_at");
   ("tags_json", dumps_or "tags" (JArr []));
   ("user_fields_json", dumps_or "user_fields" (JObj []));
   ("photo_json", dumps_or "photo" (JObj []))].

Definition org_params : row :=
  [("id", plain "id"); ("name", plain "name"); ("external_id", plain "external_id");
   ("group_id", plain "group_id"); ("details", plain "details"); ("notes", plain "notes");
   ("shared_tickets", flag "shared_tickets"); ("shared_comments", flag "shared_comments");
   ("domain_names_json", dumps_or "domain_names" (JArr []));
   ("tags_json", dumps_or "tags" (JArr []));
   ("organization_fields_json", dumps_or "organization_fields" (JObj []));
   ("created_at", stamp "created_at"); ("updated_at", stamp "updated_at")].

Definition ticket_params : row :=
  [("id", plain "id"); ("subject", plain "subject"); ("description", plain "description");
   ("status", plain "status"); ("priority", plain "priority"); ("type", plain "type");
   ("requester_id", plain "requester_id"); ("assignee_id", plain "assignee_id");
   ("organization_id", plain "organization_id");
   ("created_at", stamp "created_at"); ("updated_at", stamp "updated_at");
   ("due_at", stamp "due_at")].

Definition comment_params (ticket_id : Z) : row :=
  [("id", plain "id"); ("ticket_id", Val (JNum ticket_id));
   ("author_id", plain "author_id"); ("public", flag "public"); ("body", plain "body");
   ("created_at", stamp "created_at");
   ("updated_at", Stamp (parse_dt (py_or (get o "updated_at") (get o "created_at"))))].

Definition attachment_params (ticket_id : Z) (comment_id : option Z)
    (local_path : option string) : row :=
  [("id", plain "id"); ("ticket_id", Val (JNum ticket_id));
   ("comment_id", Val (from_option JNum JNull comment_id));
   ("file_name", plain "file_name"); ("content_url", plain "content_url");
   ("local_path", Val (from_option JStr JNull local_path));
   ("content_type", plain "content_type"); ("size", plain "size");
   ("thumbnails_json", dumps_or "thumbnails" (JArr []));
   ("created_at", stamp "created_at")].

Definition view_params : row :=
  [("id", plain "id"); ("title", plain "title"); ("description", plain "description");
   ("active", flag "active"); ("position", plain "position");
   ("default_view", flag "default");
   ("restriction_json", dumps "restriction");
   ("execution_json", dumps "execution");
   ("conditions_json", dumps "conditions");
   ("created_at", stamp "created_at"); ("updated_at", stamp "updated_at")].

Definition trigger_params : row :=
  [("id", plain "id"); ("title", plain "title"); ("description", plain "description");
   ("active", flag "active"); ("position", plain "position");
   ("category_id", plain "category_id"); ("raw_title", plain "raw_title");
   ("default_trigger", flag "default");
   ("conditions_json", dumps_or "conditions" (JObj []));
   ("actions_json", dumps_or "actions" (JArr []));
   ("created_at", stamp "created_at"); ("updated_at", stamp "updated_at")].

Definition trigger_category_params : row :=
  [("id", Val (JStr (py_str E (get o "id")))); ("name", plain "name");
   ("position", plain "position");
   ("created_at", stamp "created_at"); ("updated_at", stamp "updated_at")].

Definition macro_params : row :=
  [("id", plain "id"); ("title", plain "title"); ("description", plain "description");
   ("active", flag "active"); ("position", plain "position");
   ("default_macro", flag "default");
   ("restriction_json", dumps "restriction");
   ("actions_json", dumps_or "actions" (JArr []));
   ("created_at", stamp "created_at"); ("updated_at", stamp "updated_at")].

(** [int(o["id"])]. *)
Definition int_id : result Z :=
  match item o "id" with
  | Ok v => py_int E v
  | Raise e => Raise e
  end.

(** The raw key of a trigger category: [int(c["id"])], and when that
    raises, [abs(hash(str(c["id"]))) % 10**15]; the second [c["id"]] raises
    again when the key is missing. *)
Definition category_entity_id : result Z :=
  match int_id with
  | Ok n => Ok n
  | Raise _ =>
      match item o "id" with
      | Ok v => Ok (Z.abs (py_hash E (py_str E v)) `mod` 10 ^ 15)
      | Raise e => Raise e
      end
  end.

End Params.

(** *** Structured upserts *)

(** Each takes one decoded entity; [x.get] on a value that is not a dict
    raises before anything is written. *)
Definition upsert_user (u : json) : M db unit :=
  match u with
  | JObj o =>
      insert_row E "users" (bigint_key E) (user_params o) ;;;
      id <- lift (int_id o) ;;
      upsert_raw "users" id (get o "updated_at") u
  | _ => raise AttributeError
  end.

Definition upsert_org (v : json) : M db unit :=
  match v with
  | JObj o =>
      insert_row E "organizations" (bigint_key E) (org_params o) ;;;
      id <- lift (int_id o) ;;
      upsert_raw "organizations" id (get o "updated_at") v
  | _ => raise AttributeError
  end.

Definition upsert_ticket (t : json) : M db unit :=
  match t with
  | JObj o =>
      insert_row E "tickets" (bigint_key E) (ticket_params o) ;;;
      id <- lift (int_id o) ;;
      upsert_raw "tickets" id (get o "updated_at") t
  | _ => raise AttributeError
  end.

Definition delete_ticket (ticket_id : Z) : M db unit :=
  λ d, (delete_key "tickets" ticket_id
          (delete_where "ticket_comments" "ticket_id" ticket_id
             (delete_where "attachments" "ticket_id" ticket_id d)), Ok tt).

Definition upsert_comment (ticket_id : Z) (c : json) : M db unit :=
  match c with
  | JObj o =>
      insert_row E "ticket_comments" (bigint_key E) (comment_params o ticket_id) ;;;
      id <- lift (int_id o) ;;
      upsert_raw "comments" id (py_or (get o "updated_at") (get o "created_at")) c
  | _ => raise AttributeError
  end.

Definition upsert_attachment (ticket_id : Z) (comment_id : option Z) (a : json)
    (local_path : option string) : M db unit :=
  match a with
  | JObj o =>
      insert_row E "attachments" (bigint_key E)
        (attachment_params o ticket_id comment_id local_path) ;;;
      id <- lift (int_id o) ;;
      upsert_raw "attachments" id (get o "created_at") a
  | _ => raise AttributeError
  end.

Definition upsert_view (v : json) : M db unit :=
  match v with
  | JObj o =>
      insert_row E "views" (bigint_key E) (view_params o) ;;;
      id <- lift (int_id o) ;;
      upsert_raw "views" id (get o "updated_at") v
  | _ => raise AttributeError
  end.

Definition upsert_trigger (t : json) : M db unit :=
  match t with
  | JObj o =>
      insert_row E "triggers" (bigint_key E) (trigger_params o) ;;;
      id <- lift (int_id o) ;;
      upsert_raw "triggers" id (get o "updated_at") t
  | _ => raise AttributeError
  end.

Definition upsert_trigger_category (c : json) : M db unit :=
  match c with
  | JObj o =>
      insert_row E "trigger_categories" text_key (trigger_category_params o) ;;;
      entity_id <- lift (category_entity_id o) ;;
      upsert_raw "trigger_categories" entity_id (get o "updated_at") c
  | _ => raise AttributeError
  end.

Definition upsert_macro (m : json) : M db unit :=
  match m with
  | JObj o =>
      insert_row E "macros" (bigint_key E) (macro_params o) ;;;
      id <- lift (int_id o) ;;
      upsert_raw "macros" id (get o "updated_at") m
  | _ => raise AttributeError
  end.

End Writer.

(** *** The Writer, by resource kind *)

(** One decoded entity of a page, with what the caller passes beside it: the
    parent ticket of a comment; the ticket, the comment and the downloaded
    path of an attachment. *)
Inductive entity : Type :=
| User (u : json)
| Organization (o : json)
| Ticket (t : json)
| Comment (ticket_id : Z) (c : json)
| Attachment (ticket_id : Z) (comment_id : option Z) (a : json) (local_path : option string)
| View (v : json)
| Trigger (t : json)
| TriggerCategory (c : json)
| Macro (m : json).

Definition write_entity (E : env) (e : entity) : M db unit :=
  match e with
  | User u => upsert_user E u
  | Organization o => upsert_org E o
  | Ticket t => upsert_ticket E t
  | Comment ticket_id c => upsert_comment E ticket_id c
  | Attachment ticket_id comment_id a local_path =>
      upsert_attachment E ticket_id comment_id a local_path
  | View v => upsert_view E v
  | Trigger t => upsert_trigger E t
  | TriggerCategory c => upsert_trigger_category E c
  | Macro m => upsert_macro E m
  end.

(** *** Configuration read from the process environment *)

(** The delays and caps of the sleeps are read from the environment too;
    they are taken to be numbers [time.sleep] accepts, and left out with
    the sleeps. *)
Record config : Type := {
  Z_BASE : string;
  ZENDESK_PER_PAGE : option Z;
  INCLUDE : string;
  EXCLUDE_DELETED : bool;
  BOOTSTRAP_HOURS : Z;
  CLOSED_TICKETS_ONLY : bool;
  USE_TICKET_EVENTS_FOR_COMMENTS : bool;
  PRUNE_REOPENED_FROM_DB : bool;
  ORG_PER_PAGE : Z;
  FORCE_ORG_SNAPSHOT : bool
}.

(** *** The HTTP session *)

Record response : Type := {
  status_code : Z;
  (** The [Retry-After] header. *)
  retry_after : option string;
  (** [resp.json()], [None] when it raises. *)
  body : option json;
  text : string
}.

(** What one call of [SESSION.get] gives: a response, or a
    [requests.RequestException]. *)
Inductive event : Type :=
| Response (r : response)
| NetworkError.

Record request : Type := {
  req_url : json;
  req_params : list (string * json)
}.

(** The store, the answers the session has yet to give, the requests made
    so far, and a history variable: the pages whose processing was
    completed, with their resource. *)
Record world : Type := {
  store : db;
  feed : list event;
  sent : list request;
  journal : list (string * json)
}.

Definition on_store {A} (m : M db A) : M world A :=
  λ w, let '(d, r) := m (store w) in
       ({| store := d; feed := feed w; sent := sent w; journal := journal w |}, r).

Definition record_page (resource : string) (page : json) : M world unit :=
  λ w, ({| store := store w; feed := feed w; sent := sent w;
           journal := journal w ++ [(resource, page)] |}, Ok tt).

(** [SESSION.get(url, params=params)]: each call takes the next answer. *)
Definition session_get (url : json) (params : list (string * json)) : M world response :=
  λ w, match feed w with
       | [] => (w, Raise Stalled)
       | ev :: rest =>
           ({| store := store w; feed := rest;
               sent := sent w ++ [{| req_url := url; req_params := params |}];
               journal := journal w |},
            match ev with
            | Response r => Ok r
            | NetworkError => Raise RequestException
            end)
       end.

Definition RETRY_STATUS : list Z := [429; 500; 502; 503; 504].

Definition resp_json {S} (r : response) : M S json :=
  match body r with
  | Some j => ret j
  | None => raise JSONDecodeError
  end.

(** [try: detail = resp.json() except Exception: detail = {"text":
    resp.text[:300]}]. *)
Definition failure_detail (r : response) : json :=
  match body r with
  | Some j => j
  | None => JObj [("text", JStr (String.substring 0 300 (text r)))]
  end.

Section Fetch.
Variable E : env.
Variable cfg : config.

(** [time.sleep(float(ra) if ra else backoff)] in [get_with_retry]: a
    sleep acts neither on the store nor on the feed and is left out, with
    the back-off it would wait for; what is kept is that [float] raises on
    a header that is not a number, and [time.sleep] on a negative one. *)
Definition sleep_hint {S} (ra : option string) : M S unit :=
  match ra with
  | Some s => if String.eqb s "" then ret tt
              else match float_of_header E s with
                   | Some true => ret tt
                   | _ => raise ValueError
                   end
  | None => ret tt
  end.

(** [time.sleep(min(max(0.5, float(ra) if ra else ..), retry_cap))] in the
    loops of organizations and tickets: only [float] can raise. *)
Definition capped_hint {S} (ra : option string) : M S unit :=
  match ra with
  | Some s => if String.eqb s "" then ret tt
              else match float_of_header E s with
                   | Some _ => ret tt
                   | None => raise ValueError
                   end
  | None => ret tt
  end.

(** [get_with_retry], with [stream=False]: [for _ in range(8)]. *)
Fixpoint retry_loop (attempts : nat) (url : json) (params : list (string * json))
    : M world json :=
  match attempts with
  | O => raise (GetExhausted (py_str E url))
  | S n =>
      resp <- session_get url params ;;
      if status_code resp =? 200 then resp_json resp
      else if bool_decide (status_code resp ∈ RETRY_STATUS) then
        sleep_hint (retry_after resp) ;;;
        retry_loop n url params
      else raise (GetFailed (py_str E url) (status_code resp) (failure_detail resp))
  end.

Definition get_with_retry (url : json) (params : list (string * json)) : M world json :=
  retry_loop 8 url params.

(** [page.get(k) or page.get("links", {}).get("next")]. *)
Definition next_link {S} (page : list (string * json)) (k : string) : M S json :=
  if truthy (get page k) then ret (get page k)
  else lift (attr_get (get_or page "links" (JObj [])) "next").

(** [for page in iter_list_pages(url, params): body(page)].  The generator
    fetches the next page after the body has run on the current one. *)
Fixpoint list_pages_from (fuel : nat) (body : json → M world unit) (page : json)
    : M world unit :=
  match fuel with
  | O => raise OutOfFuel
  | S f =>
      body page ;;;
      next_url <- (match page with
                   | JObj p => next_link p "next_page"
                   | _ => raise AttributeError
                   end) ;;
      if truthy next_url then
        page' <- get_with_retry next_url [] ;;
        list_pages_from f body page'
      else ret tt
  end.

(** Every turn of a paging loop takes at least one answer from the feed, so
    one more than the answers left is fuel enough. *)
Definition fuel_of (w : world) : nat := S (length (feed w)).

Definition for_list_pages (url : json) (params : list (string * json))
    (body : json → M world unit) : M world unit :=
  page <- get_with_retry url params ;;
  λ w, list_pages_from (fuel_of w) body page w.

Definition initial_start_time_epoch (now : Z) : Z :=
  now - Z.max (BOOTSTRAP_HOURS cfg * 3600) 120.

Definition PER_PAGE : Z := default 500 (ZENDESK_PER_PAGE cfg).

(** [url_of "/api/v2/.."] is [f"{Z_BASE}/api/v2/.."]. *)
Definition url_of (path : string) : json := JStr (String.append (Z_BASE cfg) path).

(** *** Users *)

(** The body of [for page in iter_cursor_page(first)] in [sync_users]; the
    result tells whether the loop goes on ([break] on [end_of_stream]). *)
Definition users_page (page : json) : M world bool :=
  match page with
  | JObj p =>
      users <- lift (py_iter (get_or p "users" (JArr []))) ;;
      on_store (for_each (upsert_user E) users) ;;;
      (if truthy (get p "after_cursor")
       then on_store (set_cursor_val E "users" (get p "after_cursor"))
       else ret tt) ;;;
      record_page "users" page ;;;
      ret (negb (truthy (get p "end_of_stream")))
  | _ => raise AttributeError
  end.

Fixpoint users_pages (fuel : nat) (page : json) : M world unit :=
  match fuel with
  | O => raise OutOfFuel
  | S f =>
      continue <- users_page page ;;
      if continue then
        after_url <- (match page with
                      | JObj p => next_link p "after_url"
                      | _ => raise AttributeError
                      end) ;;
        if truthy after_url then
          page' <- get_with_retry after_url [] ;;
          users_pages f page'
        else ret tt
      else ret tt
  end.

Definition sync_users (now : Z) : M world unit :=
  last <- on_store (get_cursor_val "users") ;;
  let params :=
    [("per_page", JNum PER_PAGE)] ++
    (if truthy (default JNull last) then [("cursor", default JNull last)]
     else [("start_time", JNum (initial_start_time_epoch now))]) in
  first <- get_with_retry (url_of "/api/v2/incremental/users/cursor.json") params ;;
  λ w, users_pages (fuel_of w) first w.

(** *** Organizations *)

(** [snapshot_once]: the full listing, every organization upserted, then
    [set_now_cursor]: the cursor becomes [str(int(time.time()) - 60)]. *)
Definition set_now_cursor (now : Z) : M world unit :=
  on_store (set_cursor_val E "organizations" (JStr (py_str E (JNum (now - 60))))).

Definition org_per_page : Z := Z.min (Z.max (ORG_PER_PAGE cfg) 25) 100.

Fixpoint snapshot_pages (fuel : nat) (page : json) : M world unit :=
  match fuel with
  | O => raise OutOfFuel
  | S f =>
      match page with
      | JObj p =>
          orgs <- lift (py_iter (get_or p "organizations" (JArr []))) ;;
          on_store (for_each (upsert_org E) orgs) ;;;
          nxt <- next_link p "next_page" ;;
          if truthy nxt then
            page' <- get_with_retry nxt [] ;;
            snapshot_pages f page'
          else ret tt
      | _ => raise AttributeError
      end
  end.

Definition snapshot_once (now : Z) : M world unit :=
  page <- get_with_retry (url_of "/api/v2/organizations.json")
            [("per_page", JNum org_per_page)] ;;
  (λ w, snapshot_pages (fuel_of w) page w) ;;;
  set_now_cursor now.

(** The [for o in orgs] of the incremental loop: the id is recorded in
    [seen_ids] when [int] reads it, and the organization is upserted. *)
Definition note_id (seen_ids : gset Z) (o : list (string * json)) : gset Z :=
  if is_none (get o "id") then seen_ids
  else match py_int E (get o "id") with
       | Ok n => {[n]} ∪ seen_ids
       | Raise _ => seen_ids
       end.

Fixpoint org_entities (seen_ids : gset Z) (orgs : list json) : M world (gset Z) :=
  match orgs with
  | [] => ret seen_ids
  | o :: rest =>
      match o with
      | JObj kvs =>
          on_store (upsert_org E o) ;;;
          org_entities (note_id seen_ids kvs) rest
      | _ => raise AttributeError
      end
  end.

(** What a turn of [while True] ends with. *)
Inductive org_control : Type :=
| OrgContinue (url : json) (params : list (string * json)) (seen_ids : gset Z)
    (dup_only_streak : Z)
| OrgSnapshot
| OrgBreak.

(** The branch [resp.status_code == 200]. *)
Definition org_page (seen_ids : gset Z) (dup_only_streak : Z) (resp : response)
    : M world org_control :=
  page <- resp_json resp ;;
  match page with
  | JObj p =>
      orgs <- lift (py_iter (get_or p "organizations" (JArr []))) ;;
      seen_ids' <- org_entities seen_ids orgs ;;
      let added_unique := Z.of_nat (size seen_ids') - Z.of_nat (size seen_ids) in
      (if truthy (get p "end_time")
       then on_store (set_cursor_val E "organizations"
                        (JStr (py_str E (get p "end_time"))))
       else ret tt) ;;;
      record_page "organizations" page ;;;
      let streak :=
        if bool_decide (0 < length orgs)%nat && (added_unique =? 0)
        then dup_only_streak + 1 else 0 in
      if 3 <=? streak then ret OrgSnapshot
      else if truthy (get p "next_page")
           then ret (OrgContinue (get p "next_page") [] seen_ids' streak)
           else ret OrgBreak
  | _ => raise AttributeError
  end.

(** One turn of the incremental loop. *)
Definition org_turn (url : json) (params : list (string * json)) (seen_ids : gset Z)
    (dup_only_streak : Z) : M world org_control :=
  λ w, match session_get url params w with
       | (w', Raise RequestException) =>
           (w', Ok (OrgContinue url params seen_ids dup_only_streak))
       | (w', Raise e) => (w', Raise e)
       | (w', Ok resp) =>
           if status_code resp =? 200 then org_page seen_ids dup_only_streak resp w'
           else if status_code resp =? 429 then
             (capped_hint (retry_after resp) ;;;
              ret (OrgContinue url params seen_ids dup_only_streak)) w'
           else if bool_decide (status_code resp ∈ RETRY_STATUS) then
             (w', Ok (OrgContinue url params seen_ids dup_only_streak))
           else (w', Raise (OrganizationsGetFailed (status_code resp) (failure_detail resp)))
       end.

Fixpoint org_incremental (fuel : nat) (now : Z) (url : json)
    (params : list (string * json)) (seen_ids : gset Z) (dup_only_streak : Z)
    : M world unit :=
  match fuel with
  | O => raise OutOfFuel
  | S f =>
      c <- org_turn url params seen_ids dup_only_streak ;;
      match c with
      | OrgContinue url' params' seen_ids' streak' =>
          org_incremental f now url' params' seen_ids' streak'
      | OrgSnapshot => snapshot_once now
      | OrgBreak => ret tt
      end
  end.

Definition sync_organizations (now : Z) : M world unit :=
  last_epoch <- on_store (get_cursor_val "organizations") ;;
  if FORCE_ORG_SNAPSHOT cfg || negb (truthy (default JNull last_epoch))
  then snapshot_once now
  else
    start_time <- lift (py_int E (default JNull last_epoch)) ;;
    λ w, org_incremental (fuel_of w) now
           (url_of "/api/v2/incremental/organizations.json")
           [("per_page", JNum org_per_page); ("start_time", JNum start_time)]
           ∅ 0 w.

(** *** Tickets, comments, attachments *)

(** [p[k] = v]. *)
Fixpoint dict_set (k : string) (v : json) (p : list (string * json)) : list (string * json) :=
  match p with
  | [] => [(k, v)]
  | (k', v') :: rest =>
      if String.eqb k k' then (k, v) :: rest else (k', v') :: dict_set k v rest
  end.

Definition ticket_initial_params (now : Z) (last_cursor : option json)
    : list (string * json) :=
  [("per_page", JNum PER_PAGE)] ++
  (if String.eqb (INCLUDE cfg) "" then [] else [("include", JStr (INCLUDE cfg))]) ++
  (if EXCLUDE_DELETED cfg then [("exclude_deleted", JStr "true")] else []) ++
  (if truthy (default JNull last_cursor) then [("cursor", default JNull last_cursor)]
   else [("start_time", JNum (initial_start_time_epoch now))]).

(** [int(c.get("id") or 0)]. *)
Definition comment_id_of (c : list (string * json)) : result Z :=
  py_int E (py_or (get c "id") (JNum 0)).

(** The attachments of one comment: downloaded, then upserted with the
    local path, absent when the download failed. *)
Definition comment_attachments (ticket_id : Z) (comment_id : result Z)
    (attachments : list json) : M world unit :=
  for_each (λ a,
      cid <- lift comment_id ;;
      local_path <- (match download_attachment E ticket_id cid a with
                     | LocalPath path => ret path
                     | DownloadRaised name => raise (OtherError name)
                     end) ;;
      on_store (upsert_attachment E ticket_id (Some cid) a local_path))
    attachments.

(** The body of [for c in cpage.get("comments", [])]. *)
Definition ticket_comment (t : list (string * json)) (c : json) : M world unit :=
  ticket_id <- lift (int_id E t) ;;
  on_store (upsert_comment E ticket_id c) ;;;
  match c with
  | JObj kvs =>
      attachments <- lift (py_iter (py_or (get kvs "attachments") (JArr []))) ;;
      comment_attachments ticket_id (comment_id_of kvs) attachments
  | _ => raise AttributeError
  end.

(** [(t.get("status") or "").lower()]. *)
Definition ticket_status (t : list (string * json)) : result string :=
  match py_or (get t "status") (JStr "") with
  | JStr s => Ok (str_lower E s)
  | _ => Raise AttributeError
  end.

(** The body of [for t in tickets]. *)
Definition ticket_step (t : json) : M world unit :=
  match t with
  | JObj kvs =>
      status <- lift (ticket_status kvs) ;;
      let is_closed := String.eqb status "closed" in
      if CLOSED_TICKETS_ONLY cfg && negb is_closed then
        if PRUNE_REOPENED_FROM_DB cfg then
          ticket_id <- lift (int_id E kvs) ;;
          on_store (delete_ticket ticket_id)
        else ret tt
      else
        on_store (upsert_ticket E t) ;;;
        if USE_TICKET_EVENTS_FOR_COMMENTS cfg then ret tt
        else
          id <- lift (item kvs "id") ;;
          for_list_pages
            (JStr (String.append (Z_BASE cfg)
                     (String.append "/api/v2/tickets/"
                        (String.append (py_str E id) "/comments.json"))))
            [("per_page", JNum 100)]
            (λ cpage,
               match cpage with
               | JObj cp =>
                   comments <- lift (py_iter (get_or cp "comments" (JArr []))) ;;
                   for_each (ticket_comment kvs) comments
               | _ => raise AttributeError
               end)
  | _ => raise AttributeError
  end.

Inductive tickets_control : Type :=
| TicketsContinue (url : json) (params : list (string * json))
| TicketsBreak.

(** The branch [resp.status_code == 200]. *)
Definition tickets_page (url : json) (resp : response) : M world tickets_control :=
  page <- resp_json resp ;;
  match page with
  | JObj p =>
      tickets <- lift (py_iter (get_or p "tickets" (JArr []))) ;;
      for_each ticket_step tickets ;;;
      (if truthy (get p "after_cursor")
       then on_store (set_cursor_val E "tickets" (get p "after_cursor"))
       else ret tt) ;;;
      record_page "tickets" page ;;;
      if truthy (get p "end_of_stream") then ret TicketsBreak
      else
        after <- next_link p "after_url" ;;
        ret (TicketsContinue (py_or after url) [])
  | _ => raise AttributeError
  end.

Definition tickets_turn (url : json) (params : list (string * json))
    : M world tickets_control :=
  λ w, match session_get url params w with
       | (w', Raise RequestException) => (w', Ok (TicketsContinue url params))
       | (w', Raise e) => (w', Raise e)
       | (w', Ok resp) =>
           if status_code resp =? 200 then tickets_page url resp w'
           else if status_code resp =? 429 then
             (capped_hint (retry_after resp) ;;; ret (TicketsContinue url params)) w'
           else if bool_decide (status_code resp ∈ RETRY_STATUS) then
             (w', Ok (TicketsContinue url params))
           else (w', Raise (TicketsGetFailed (status_code resp) (failure_detail resp)))
       end.

Fixpoint tickets_loop (fuel : nat) (url : json) (params : list (string * json))
    : M world unit :=
  match fuel with
  | O => raise OutOfFuel
  | S f =>
      c <- tickets_turn url params ;;
      match c with
      | TicketsContinue url' params' => tickets_loop f url' params'
      | TicketsBreak => ret tt
      end
  end.

(** The loop reads [ZENDESK_PER_PAGE] again, with another default. *)
Definition sync_tickets_comments_attachments (now : Z) : M world unit :=
  last <- on_store (get_cursor_val "tickets") ;;
  let per_page := default 100 (ZENDESK_PER_PAGE cfg) in
  let params := dict_set "per_page" (JNum per_page) (ticket_initial_params now last) in
  λ w, tickets_loop (fuel_of w) (url_of "/api/v2/incremental/tickets/cursor.json")
         params w.

(** *** Ticket events *)

(** The comment built from a child event: its [updated_at] is the event's
    [created_at]. *)
Definition comment_of_child_event (ce : list (string * json)) : result json :=
  match item ce "id" with
  | Ok id =>
      Ok (JObj [("id", id);
                ("author_id", get ce "author_id");
                ("public", get_or ce "public" (JBool false));
                ("body", get ce "body");
                ("created_at", get ce "created_at");
                ("updated_at", get ce "created_at");
                ("attachments", py_or (get ce "attachments") (JArr []))])
  | Raise e => Raise e
  end.

(** [(ce.get("event_type") or ce.get("type")) == "Comment"]. *)
Definition is_comment_event (ce : list (string * json)) : bool :=
  match py_or (get ce "event_type") (get ce "type") with
  | JStr s => String.eqb s "Comment"
  | _ => false
  end.

(** The body of [for ce in (ev.get("child_events") or [])]. *)
Definition child_event_step (tid : Z) (ce : json) : M world unit :=
  match ce with
  | JObj kvs =>
      if is_comment_event kvs then
        c <- lift (comment_of_child_event kvs) ;;
        on_store (upsert_comment E tid c) ;;;
        attachments <- lift (py_iter (py_or (get kvs "attachments") (JArr []))) ;;
        comment_attachments tid (int_id E kvs) attachments
      else ret tt
  | _ => raise AttributeError
  end.

(** The body of [for ev in page.get("ticket_events", [])]. *)
Definition ticket_event_step (ev : json) : M world unit :=
  match ev with
  | JObj kvs =>
      tid <- lift (py_int E (get kvs "ticket_id")) ;;
      closed <- (if CLOSED_TICKETS_ONLY cfg then
                   reply <- get_with_retry
                     (JStr (String.append (Z_BASE cfg)
                              (String.append "/api/v2/tickets/"
                                 (String.append (py_str E (JNum tid)) ".json")))) [] ;;
                   t <- lift (attr_get_or reply "ticket" (JObj [])) ;;
                   match t with
                   | JObj tk =>
                       status <- lift (ticket_status tk) ;;
                       ret (String.eqb status "closed")
                   | _ => raise AttributeError
                   end
                 else ret true) ;;
      if closed then
        child_events <- lift (py_iter (py_or (get kvs "child_events") (JArr []))) ;;
        for_each (child_event_step tid) child_events
      else ret tt
  | _ => raise AttributeError
  end.

Fixpoint ticket_events_loop (fuel : nat) (url : json) (params : list (string * json))
    : M world unit :=
  match fuel with
  | O => raise OutOfFuel
  | S f =>
      page <- get_with_retry url params ;;
      match page with
      | JObj p =>
          events <- lift (py_iter (get_or p "ticket_events" (JArr []))) ;;
          for_each ticket_event_step events ;;;
          if truthy (get p "next_page") then ticket_events_loop f (get p "next_page") []
          else
            if truthy (get p "end_time")
            then on_store (set_cursor_val E "ticket_events"
                             (JStr (py_str E (get p "end_time"))))
            else ret tt
      | _ => raise AttributeError
      end
  end.

Definition sync_ticket_events_for_comments (now : Z) : M world unit :=
  last_epoch <- on_store (get_cursor_val "ticket_events") ;;
  start_time <- (if truthy (default JNull last_epoch)
                 then lift (py_int E (default JNull last_epoch))
                 else ret (initial_start_time_epoch now)) ;;
  λ w, ticket_events_loop (fuel_of w)
         (url_of "/api/v2/incremental/ticket_events.json")
         [("start_time", JNum start_time); ("per_page", JNum PER_PAGE);
          ("include", JStr "comment_events")] w.

End Fetch.

(** *** File names of downloaded attachments *)




Section Listing.
Variable E : env.
Variable cfg : config.

(** *** Views, triggers, trigger categories, macros *)

(** The [while True] of the four listings: the entities of the page under
    [key] are upserted, and the next page is fetched as long as the page
    names one. *)
Fixpoint listing_pages (fuel : nat) (key : string) (upsert : json → M db unit)
    (page : json) : M world unit :=
  match fuel with
  | O => raise OutOfFuel
  | S f =>
      match page with
      | JObj p =>
          entities <- lift (py_iter (get_or p key (JArr []))) ;;
          on_store (for_each upsert entities) ;;;
          next_page <- next_link p "next_page" ;;
          if truthy next_page then
            page' <- get_with_retry E next_page [] ;;
            listing_pages f key upsert page'
          else ret tt
      | _ => raise AttributeError
      end
  end.

(** [{"per_page": min(PER_PAGE, 100)}], and [params["include"] = INCLUDE]
    when [with_include] and [INCLUDE] is not empty. *)
Definition listing_params (with_include : bool) : list (string * json) :=
  [("per_page", JNum (Z.min (PER_PAGE cfg) 100))] ++
  (if with_include && negb (String.eqb (INCLUDE cfg) "")
   then [("include", JStr (INCLUDE cfg))] else []).

Definition sync_views : M world unit :=
  page <- get_with_retry E (url_of cfg "/api/v2/views.json") (listing_params true) ;;
  λ w, listing_pages (fuel_of w) "views" (upsert_view E) page w.

Definition sync_triggers : M world unit :=
  page <- get_with_retry E (url_of cfg "/api/v2/triggers.json") (listing_params false) ;;
  λ w, listing_pages (fuel_of w) "triggers" (upsert_trigger E) page w.

Definition sync_trigger_categories : M world unit :=
  page <- get_with_retry E (url_of cfg "/api/v2/trigger_categories.json")
            (listing_params false) ;;
  λ w, listing_pages (fuel_of w) "trigger_categories" (upsert_trigger_category E) page w.

Definition sync_macros : M world unit :=
  page <- get_with_retry E (url_of cfg "/api/v2/macros.json") (listing_params true) ;;
  λ w, listing_pages (fuel_of w) "macros" (upsert_macro E) page w.

(** *** The smoke test and the main sequence *)

(** [smoke_assert_agent]: one request to [users/me.json]; a body that is
    not JSON, a status other than 200, a user without id and a role that is
    neither admin nor agent end the process.  The [print] reads
    [user.get("email")] and [user.get("role")], which raise on a user that
    is not a dict. *)
Definition smoke_assert_agent : M world unit :=
  r <- session_get (url_of cfg "/api/v2/users/me.json") [] ;;
  data <- (match body r with
           | Some j => ret j
           | None =>
               raise (SystemExit
                        (String.append "Auth smoke failed ["
                           (String.append (pretty (status_code r))
                              (String.append "]: " (String.substring 0 300 (text r))))))
           end) ;;
  found <- lift (attr_get (py_or data (JObj [])) "user") ;;
  let user := py_or found (JObj []) in
  email <- lift (attr_get user "email") ;;
  role <- lift (attr_get user "role") ;;
  id <- lift (attr_get user "id") ;;
  if negb (status_code r =? 200) || negb (truthy id) then
    raise (SystemExit "Zendesk auth failed: check ZENDESK_EMAIL/token/subdomain.")
  else
    match role with
    | JStr s =>
        if String.eqb s "admin" || String.eqb s "agent" then ret tt
        else raise (SystemExit
                      "Authenticated but not an agent/admin. Use an AGENT/ADMIN email + API token.")
    | _ => raise (SystemExit
                    "Authenticated but not an agent/admin. Use an AGENT/ADMIN email + API token.")
    end.

(** [main].  [now] is [time.time()] as the sync of each resource reads it;
    [setup] is what creating the attachments folder, the schema ([CREATE
    TABLE IF NOT EXISTS]: the rows of a table that exists stay) and the
    connection comes to: it returns or raises. *)
Definition main (now : string → Z) (setup : result unit) : M world unit :=
  smoke_assert_agent ;;;
  lift setup ;;;
  sync_users E cfg (now "users") ;;;
  sync_organizations E cfg (now "organizations") ;;;
  sync_tickets_comments_attachments E cfg (now "tickets") ;;;
  (if USE_TICKET_EVENTS_FOR_COMMENTS cfg
   then sync_ticket_events_for_comments E cfg (now "ticket_events")
   else ret tt) ;;;
  sync_views ;;;
  sync_triggers ;;;
  sync_trigger_categories ;;;
  sync_macros.

End Listing.

End Backup.

(** * restore.py *)

Module Restore.
Section Restorers.
Variable E : env.

(** [parse_dt]: a false value gives [None]; [replace] on a value that is
    not a string raises inside the [try] and gives [None] as well. *)
Definition parse_dt (s : json) : option Z :=
  if truthy s then
    match s with
    | JStr t => fromisoformat E (replace_Z t)
    | _ => None
    end
  else None.

(** *** Raw payload upsert *)

Definition upsert_raw (resource : string) (entity_id : Z) (updated_at : json)
    (payload : json) : M db unit :=
  λ d, let t := parse_dt updated_at in
       if pg_accepts E "raw_snapshots"
            [("resource", Val (JStr resource)); ("entity_id", Val (JNum entity_id));
             ("updated_at", Stamp t); ("payload_json", Doc payload)]
       then (with_raw (insert (resource, entity_id)
                         {| raw_updated_at := t; raw_payload := payload |}) d, Ok tt)
       else (d, Raise (DatabaseError "raw_snapshots")).

(** *** Structured upserts (same shapes as backup.py): parameter tuples *)

Section Params.
Variable o : list (string * json).

(** [o.get(k)], [bool(o.get(k))], [parse_dt(o.get(k))] and
    [json.dumps(o.get(k) or dflt)] as parameters. *)
Definition plain (k : string) : sqlarg := Val (get o k).
Definition flag (k : string) : sqlarg := Val (JBool (truthy (get o k))).
Definition stamp (k : string) : sqlarg := Stamp (parse_dt (get o k)).
Definition dumps_or (k : string) (dflt : json) : sqlarg := Doc (py_or (get o k) dflt).
Definition dumps (k : string) : sqlarg := Doc (get o k).

Definition user_params : row :=
  [("id", plain "id"); ("name", plain "name"); ("email", plain "email");
   ("role", plain "role"); ("role_type", plain "role_type");
   ("active", flag "active"); ("suspended", flag "suspended");
   ("organization_id", plain "organization_id");
   ("phone", plain "phone"); ("locale", plain "locale"); ("time_zone", plain "time_zone");
   ("created_at", stamp "created_at"); ("updated_at", stamp "updated_at");
   ("last_login_at", stamp "last_login_at");
   ("tags_json", dumps_or "tags" (JArr []));
   ("user_fields_json", dumps_or "user_fields" (JObj []));
   ("photo_json", dumps_or "photo" (JObj []))].

Definition org_params : row :=
  [("id", plain "id"); ("name", plain "name"); ("external_id", plain "external_id");
   ("group_id", plain "group_id"); ("details", plain "details"); ("notes", plain "notes");
   ("shared_tickets", flag "shared_tickets"); ("shared_comments", flag "shared_comments");
   ("domain_names_json", dumps_or "domain_names" (JArr []));
   ("tags_json", dumps_or "tags" (JArr []));
   ("organization_fields_json", dumps_or "organization_fields" (JObj []));
   ("created_at", stamp "created_at"); ("updated_at", stamp "updated_at")].

Definition ticket_params : row :=
  [("id", plain "id"); ("subject", plain "subject"); ("description", plain "description");
   ("status", plain "status"); ("priority", plain "priority"); ("type", plain "type");
   ("requester_id", plain "requester_id"); ("assignee_id", plain "assignee_id");
   ("organization_id", plain "organization_id");
   ("created_at", stamp "created_at"); ("updated_at", stamp "updated_at");
   ("due_at", stamp "due_at")].

Definition view_params : row :=
  [("id", plain "id"); ("title", plain "title"); ("description", plain "description");
   ("active", flag "active"); ("position", plain "position");
   ("default_view", flag "default");
   ("restriction_json", dumps "restriction");
   ("execution_json", dumps "execution");
   ("conditions_json", dumps "conditions");
   ("created_at", stamp "created_at"); ("updated_at", stamp "updated_at")].

Definition trigger_params : row :=
  [("id", plain "id"); ("title", plain "title"); ("description", plain "description");
   ("active", flag "active"); ("position", plain "position");
   ("category_id", plain "category_id"); ("raw_title", plain "raw_title");
   ("default_trigger", flag "default");
   ("conditions_json", dumps_or "conditions" (JObj []));
   ("actions_json", dumps_or "actions" (JArr []));
   ("created_at", stamp "created_at"); ("updated_at", stamp "updated_at")].

Definition trigger_category_params : row :=
  [("id", Val (JStr (py_str E (get o "id")))); ("name", plain "name");
   ("position", plain "position");
   ("created_at", stamp "created_at"); ("updated_at", stamp "updated_at")].

Definition macro_params : row :=
  [("id", plain "id"); ("title", plain "title"); ("description", plain "description");
   ("active", flag "active"); ("position", plain "position");
   ("default_macro", flag "default");
   ("restriction_json", dumps "restriction");
   ("actions_json", dumps_or "actions" (JArr []));
   ("created_at", stamp "created_at"); ("updated_at", stamp "updated_at")].

(** [int(o["id"])]. *)
Definition int_id : result Z :=
  match item o "id" with
  | Ok v => py_int E v
  | Raise e => Raise e
  end.

(** The raw key of a trigger category: [int(c["id"])], and when that
    raises, [abs(hash(str(c["id"]))) % 10**15]; the second [c["id"]] raises
    again when the key is missing. *)
Definition category_entity_id : result Z :=
  match int_id with
  | Ok n => Ok n
  | Raise _ =>
      match item o "id" with
      | Ok v => Ok (Z.abs (py_hash E (py_str E v)) `mod` 10 ^ 15)
      | Raise e => Raise e
      end
  end.

End Params.

(** *** Structured upserts *)

(** Each takes one decoded entity; [x.get] on a value that is not a dict
    raises before anything is written. *)
Definition upsert_user (u : json) : M db unit :=
  match u with
  | JObj o =>
      insert_row E "users" (bigint_key E) (user_params o) ;;;
      id <- lift (int_id o) ;;
      upsert_raw "users" id (get o "updated_at") u
  | _ => raise AttributeError
  end.

Definition upsert_org (v : json) : M db unit :=
  match v with
  | JObj o =>
      insert_row E "organizations" (bigint_key E) (org_params o) ;;;
      id <- lift (int_id o) ;;
      upsert_raw "organizations" id (get o "updated_at") v
  | _ => raise AttributeError
  end.

Definition upsert_ticket (t : json) : M db unit :=
  match t with
  | JObj o =>
      insert_row E "tickets" (bigint_key E) (ticket_params o) ;;;
      id <- lift (int_id o) ;;
      upsert_raw "tickets" id (get o "updated_at") t
  | _ => raise AttributeError
  end.

Definition upsert_view (v : json) : M db unit :=
  match v with
  | JObj o =>
      insert_row E "views" (bigint_key E) (view_params o) ;;;
      id <- lift (int_id o) ;;
      upsert_raw "views" id (get o "updated_at") v
  | _ => raise AttributeError
  end.

Definition upsert_trigger (t : json) : M db unit :=
  match t with
  | JObj o =>
      insert_row E "triggers" (bigint_key E) (trigger_params o) ;;;
      id <- lift (int_id o) ;;
      upsert_raw "triggers" id (get o "updated_at") t
  | _ => raise AttributeError
  end.

Definition upsert_trigger_category (c : json) : M db unit :=
  match c with
  | JObj o =>
      insert_row E "trigger_categories" text_key (trigger_category_params o) ;;;
      entity_id <- lift (category_entity_id o) ;;
      upsert_raw "trigger_categories" entity_id (get o "updated_at") c
  | _ => raise AttributeError
  end.

Definition upsert_macro (m : json) : M db unit :=
  match m with
  | JObj o =>
      insert_row E "macros" (bigint_key E) (macro_params o) ;;;
      id <- lift (int_id o) ;;
      upsert_raw "macros" id (get o "updated_at") m
  | _ => raise AttributeError
  end.


(** *** Restore driver *)

Definition RESTORERS : list (string * (json → M db unit)) :=
  [("users", upsert_user);
   ("organizations", upsert_org);
   ("tickets", upsert_ticket);
   ("views", upsert_view);
   ("triggers", upsert_trigger);
   ("trigger_categories", upsert_trigger_category);
   ("macros", upsert_macro)].

Definition RESTORE_ORDER : list string :=
  ["users"; "organizations"; "tickets"; "views"; "triggers"; "trigger_categories";
   "macros"].

(** [RESTORERS[resource]] and [p in RESTORERS]. *)
Fixpoint restorer_in (table : list (string * (json → M db unit))) (resource : string)
    : option (json → M db unit) :=
  match table with
  | [] => None
  | (name, fn) :: rest =>
      if String.eqb resource name then Some fn else restorer_in rest resource
  end.

Definition restorer (resource : string) : option (json → M db unit) :=
  restorer_in RESTORERS resource.

(** [ORDER BY updated_at DESC NULLS LAST, entity_id DESC]: [a] is not after
    [b]. *)
Definition raw_order (a b : Z * raw_row) : Prop :=
  match raw_updated_at a.2, raw_updated_at b.2 with
  | Some x, Some y => y < x ∨ (x = y ∧ b.1 ≤ a.1)
  | Some _, None => True
  | None, Some _ => False
  | None, None => b.1 ≤ a.1
  end.

#[local] Instance raw_order_dec a b : Decision (raw_order a b).
Proof.
  unfold raw_order.
  destruct (raw_updated_at a.2), (raw_updated_at b.2); apply _.
Defined.

(** [SELECT entity_id, .. FROM raw_snapshots WHERE resource = %s]. *)
Definition resource_rows (resource : string) (d : db) : list (Z * raw_row) :=
  (λ kr : (string * Z) * raw_row, (kr.1.2, kr.2)) <$>
  filter (λ kr : (string * Z) * raw_row, kr.1.1 = resource)
         (map_to_list (raw_snapshots d)).

Definition ordered_rows (resource : string) (d : db) : list (Z * raw_row) :=
  merge_sort raw_order (resource_rows resource d).

(** [load_raw_rows]: [LIMIT %s OFFSET %s] is added only when a limit is
    given; the server refuses a negative limit or offset. *)
Definition load_raw_rows (resource : string) (limit : option Z) (offset : Z)
    : M db (list (Z * json)) :=
  λ d, let rows := (λ r : Z * raw_row, (r.1, raw_payload r.2)) <$> ordered_rows resource d in
       match limit with
       | None => (d, Ok rows)
       | Some l =>
           if (l <? 0) || (offset <? 0) then (d, Raise (DatabaseError "raw_snapshots"))
           else (d, Ok (take (Z.to_nat l) (drop (Z.to_nat offset) rows)))
       end.

Definition truncate_table (t : string) : M db unit :=
  λ d, (truncate_rows t d, Ok tt).

Definition table_map : list (string * string) :=
  [("users", "users"); ("organizations", "organizations"); ("tickets", "tickets");
   ("views", "views"); ("triggers", "triggers");
   ("trigger_categories", "trigger_categories"); ("macros", "macros")].

Fixpoint table_of (m : list (string * string)) (s : string) : option string :=
  match m with
  | [] => None
  | (k, t) :: rest => if String.eqb s k then Some t else table_of rest s
  end.

Definition maybe_truncate (scope_list : list string) (truncate_first : bool) : M db unit :=
  if truncate_first then
    for_each (λ s, match table_of table_map s with
                   | Some t => if String.eqb t "" then ret tt else truncate_table t
                   | None => ret tt
                   end) scope_list
  else ret tt.

(** [scope.split(",")]. *)
Fixpoint split_comma (s : string) : list string :=
  match s with
  | EmptyString => [EmptyString]
  | String c rest =>
      if Ascii.eqb c ","%char then EmptyString :: split_comma rest
      else match split_comma rest with
           | [] => [String c EmptyString]
           | part :: parts => String c part :: parts
           end
  end.

(** The [for part in scope.split(",")] that builds [scope_list]. *)
Fixpoint scope_parts (parts : list string) (scope_list : list string)
    : result (list string) :=
  match parts with
  | [] => Ok scope_list
  | part :: rest =>
      let p := str_lower E (str_strip E part) in
      if String.eqb p "" then scope_parts rest scope_list
      else match restorer p with
           | Some _ => scope_parts rest (scope_list ++ [p])
           | None => Raise (SystemExit p)
           end
  end.

Definition scope_list_of (scope : string) : result (list string) :=
  if String.eqb scope "all" then Ok RESTORE_ORDER
  else scope_parts (split_comma scope) [].

(** A payload that came back as a string is parsed; [None] when
    [json.loads] raises. *)
Definition decode_payload (payload : json) : option json :=
  match payload with
  | JStr s => json_loads E s
  | _ => Some payload
  end.

(** The [for row in rows] of [restore], with its [seen_ids] and [restored]
    counters.  A payload that does not parse and a restorer that raises are
    logged, and the loop goes on. *)
Fixpoint restore_rows (fn : json → M db unit) (dry_run : bool) (rows : list (Z * json))
    (seen_ids : gset Z) (restored : Z) : M db Z :=
  match rows with
  | [] => ret restored
  | (entity_id, payload) :: rest =>
      if decide (entity_id ∈ seen_ids) then restore_rows fn dry_run rest seen_ids restored
      else
        match decode_payload payload with
        | None => restore_rows fn dry_run rest seen_ids restored
        | Some payload' =>
            if dry_run then
              restore_rows fn dry_run rest ({[entity_id]} ∪ seen_ids) (restored + 1)
            else
              counters <-
                try_except
                  (fn payload' ;;; ret ({[entity_id]} ∪ seen_ids, restored + 1))
                  (λ _, ret (seen_ids, restored)) ;;
              restore_rows fn dry_run rest counters.1 counters.2
        end
  end.

Section Run.
Variables (limit : option Z) (offset : Z) (dry_run : bool).

(** The [for resource in scope_list] of [restore]; it gives the counts its
    log lines report. *)
Fixpoint restore_resources (scope_list : list string) : M db (list (string * Z)) :=
  match scope_list with
  | [] => ret []
  | resource :: rest =>
      fn <- lift (match restorer resource with
                  | Some fn => Ok fn
                  | None => Raise (KeyError resource)
                  end) ;;
      rows <- load_raw_rows resource limit offset ;;
      restored <- restore_rows fn dry_run rows ∅ 0 ;;
      counts <- restore_resources rest ;;
      ret ((resource, restored) :: counts)
  end.

End Run.

Definition restore (scope : string) (limit : option Z) (offset : Z)
    (truncate_first dry_run : bool) : M db (list (string * Z)) :=
  scope_list <- lift (scope_list_of scope) ;;
  maybe_truncate scope_list truncate_first ;;;
  restore_resources limit offset dry_run scope_list.

End Restorers.
End Restore.

(** * An environment to run the model on examples *)

(** Decimal digits read as a number. *)
Fixpoint digits (s : string) (acc : Z) : option Z :=
  match s with
  | EmptyString => Some acc
  | String c rest =>
      let n := Z.of_nat (nat_of_ascii c) - 48 in
      if (0 <=? n) && (n <=? 9) then digits rest (10 * acc + n) else None
  end.

Definition decimal (s : string) : option Z :=
  match s with
  | EmptyString => None
  | String c rest =>
      if Ascii.eqb c "-"%char
      then match rest with
           | EmptyString => None
           | _ => Z.opp <$> digits rest 0
           end
      else digits s 0
  end.

(** The digits of a date, read as one number: dates written alike compare
    as their instants do. *)
Fixpoint only_digits (s : string) : string :=
  match s with
  | EmptyString => EmptyString
  | String c rest =>
      let n := Z.of_nat (nat_of_ascii c) - 48 in
      if (0 <=? n) && (n <=? 9) then String c (only_digits rest) else only_digits rest
  end.

Fixpoint ascii_lower (s : string) : string :=
  match s with
  | EmptyString => EmptyString
  | String c rest =>
      let n := nat_of_ascii c in
      String (if (65 <=? n)%nat && (n <=? 90)%nat then ascii_of_nat (n + 32) else c)
             (ascii_lower rest)
  end.

Fixpoint strip_left (s : string) : string :=
  match s with
  | String c rest => if Ascii.eqb c " "%char then strip_left rest else s
  | EmptyString => EmptyString
  end.

Definition ascii_strip (s : string) : string :=
  String.rev (strip_left (String.rev (strip_left s))).

(** The server accepts every statement; a string is a number when it is
    written in decimal digits. *)
Definition test_env : env :=
  {| fromisoformat := λ s, decimal (only_digits s);
     int_of_str := decimal;
     py_hash := λ s, Z.of_nat (String.length s);
     py_repr := λ _, "[..]";
     str_lower := ascii_lower;
     str_strip := ascii_strip;
     json_loads := λ s, JNum <$> decimal s;
     float_of_header := λ s, (λ n, 0 <=? n) <$> decimal s;
     pg_int8_in := decimal;
     pg_accepts := λ _ _, true;
     download_attachment := λ _ _ _, LocalPath None |}.

Definition test_cfg : Backup.config :=
  {| Backup.Z_BASE := "https://example.zendesk.com";
     Backup.ZENDESK_PER_PAGE := None;
     Backup.INCLUDE := "";
     Backup.EXCLUDE_DELETED := false;
     Backup.BOOTSTRAP_HOURS := 24;
     Backup.CLOSED_TICKETS_ONLY := true;
     Backup.USE_TICKET_EVENTS_FOR_COMMENTS := false;
     Backup.PRUNE_REOPENED_FROM_DB := true;
     Backup.ORG_PER_PAGE := 100;
     Backup.FORCE_ORG_SNAPSHOT := false |}.

(** * Entities, their tables and their payloads *)

(** The structured table and the raw resource name an entity is written
    under, as the statements of the Writer name them. *)
Definition entity_table (e : Backup.entity) : string :=
  match e with
  | Backup.User _ => "users"
  | Backup.Organization _ => "organizations"
  | Backup.Ticket _ => "tickets"
  | Backup.Comment _ _ => "ticket_comments"
  | Backup.Attachment _ _ _ _ => "attachments"
  | Backup.View _ => "views"
  | Backup.Trigger _ => "triggers"
  | Backup.TriggerCategory _ => "trigger_categories"
  | Backup.Macro _ => "macros"
  end.

Definition entity_resource (e : Backup.entity) : string :=
  match e with
  | Backup.Comment _ _ => "comments"
  | _ => entity_table e
  end.


Definition payload_of (e : Backup.entity) : json :=
  match e with
  | Backup.User j | Backup.Organization j | Backup.Ticket j | Backup.Comment _ j
  | Backup.Attachment _ _ j _ | Backup.View j | Backup.Trigger j
  | Backup.TriggerCategory j | Backup.Macro j => j
  end.


(** * Properties *)

(** ** Upserts are lists of insertions *)

(** Insertions applied in order, the later one winning. *)
Definition insert_all `{Countable K} {V} (kvs : list (K * V)) (m : gmap K V) : gmap K V :=
  foldl (λ acc kv, <[kv.1 := kv.2]> acc) m kvs.

Lemma insert_all_union `{Countable K} {V} (kvs : list (K * V)) (m : gmap K V) :
  insert_all kvs m = insert_all kvs ∅ ∪ m.
Proof.
  unfold insert_all. revert m.
  induction kvs as [|[k v] kvs IH] using rev_ind; intros m; simpl.
  - by rewrite (left_id_L ∅ (∪)).
  - rewrite !foldl_app. simpl. rewrite IH. by rewrite insert_union_l.
Qed.

Lemma insert_all_idempotent `{Countable K} {V} (kvs : list (K * V)) (m : gmap K V) :
  insert_all kvs (insert_all kvs m) = insert_all kvs m.
Proof.
  rewrite (insert_all_union kvs (insert_all kvs m)), (insert_all_union kvs m).
  by rewrite (assoc_L (∪)), (idemp_L (∪)).
Qed.

(** What an upsert writes: rows of structured tables and raw snapshots. *)
Record writes : Type := {
  row_writes : list ((string * pkey) * row);
  raw_writes : list ((string * Z) * raw_row)
}.

Definition apply_writes (w : writes) (d : db) : db :=
  {| sync_state := sync_state d;
     raw_snapshots := insert_all (raw_writes w) (raw_snapshots d);
     structured := insert_all (row_writes w) (structured d) |}.

Definition no_writes : writes := {| row_writes := []; raw_writes := [] |}.

Definition writes_then (w1 w2 : writes) : writes :=
  {| row_writes := row_writes w1 ++ row_writes w2;
     raw_writes := raw_writes w1 ++ raw_writes w2 |}.

Lemma apply_no_writes d : apply_writes no_writes d = d.
Proof. by destruct d. Qed.

Lemma apply_writes_then w1 w2 d :
  apply_writes (writes_then w1 w2) d = apply_writes w2 (apply_writes w1 d).
Proof.
  unfold apply_writes, writes_then, insert_all; simpl. by rewrite !foldl_app.
Qed.

Lemma apply_writes_idempotent w d :
  apply_writes w (apply_writes w d) = apply_writes w d.
Proof.
  unfold apply_writes; simpl. by rewrite !insert_all_idempotent.
Qed.

(** A computation that, whatever the store, performs the same writes and
    ends the same way. *)
Definition writes_only {A} (m : M db A) : Prop :=
  ∃ w r, ∀ d, m d = (apply_writes w d, r).

Lemma writes_only_idempotent {A} (m : M db A) d :
  writes_only m → m (m d).1 = m d.
Proof.
  intros (w & r & Hm). rewrite !Hm. simpl. by rewrite apply_writes_idempotent.
Qed.

Lemma writes_only_ret {A} (a : A) : writes_only (ret a).
Proof. exists no_writes, (Ok a). intros d. by rewrite apply_no_writes. Qed.

Lemma writes_only_raise {A} e : writes_only (raise (A := A) e).
Proof. exists no_writes, (Raise e). intros d. by rewrite apply_no_writes. Qed.

Lemma writes_only_lift {A} (r : result A) : writes_only (lift r).
Proof. exists no_writes, r. intros d. by rewrite apply_no_writes. Qed.

Lemma writes_only_bind {A B} (m : M db A) (k : A → M db B) :
  writes_only m → (∀ a, writes_only (k a)) → writes_only (bind m k).
Proof.
  intros (w & r & Hm) Hk. destruct r as [a|e].
  - destruct (Hk a) as (w' & r' & Hk').
    exists (writes_then w w'), r'. intros d.
    unfold bind. by rewrite Hm, Hk', apply_writes_then.
  - exists w, (Raise e). intros d. unfold bind. by rewrite Hm.
Qed.

Lemma writes_only_for_each {A} (body : A → M db unit) xs :
  (∀ x, writes_only (body x)) → writes_only (for_each body xs).
Proof.
  intros Hbody. induction xs as [|x xs IH]; simpl.
  - apply writes_only_ret.
  - apply writes_only_bind; auto.
Qed.

Section WriterIsWritesOnly.
Variable E : env.

Lemma writes_only_insert_row t key params : writes_only (insert_row E t key params).
Proof.
  unfold insert_row.
  destruct params as [|[c id] columns];
    [|destruct (key id) as [k|]; [destruct (pg_accepts E t ((c, id) :: columns)) eqn:Hok|]].
  - exists no_writes, (Raise (DatabaseError t)). intros d. by rewrite apply_no_writes.
  - exists {| row_writes := [((t, k), columns)]; raw_writes := [] |}, (Ok tt).
    intros d. reflexivity.
  - exists no_writes, (Raise (DatabaseError t)). intros d.
    by rewrite apply_no_writes.
  - exists no_writes, (Raise (DatabaseError t)). intros d. by rewrite apply_no_writes.
Qed.

Lemma writes_only_upsert_raw resource entity_id updated_at payload :
  writes_only (Backup.upsert_raw E resource entity_id updated_at payload).
Proof.
  unfold Backup.upsert_raw.
  match goal with |- context [pg_accepts E ?t ?p] => destruct (pg_accepts E t p) eqn:Hok end.
  - eexists {| row_writes := []; raw_writes := [(_, _)] |}, (Ok tt).
    intros d. reflexivity.
  - exists no_writes, (Raise (DatabaseError "raw_snapshots")). intros d.
    by rewrite apply_no_writes.
Qed.

Lemma writes_only_write_entity e : writes_only (Backup.write_entity E e).
Proof.
  destruct e as [j|j|j|? j|? ? j ?|j|j|j|j]; simpl;
    destruct j; try apply writes_only_raise;
    (apply writes_only_bind; [apply writes_only_insert_row|intros _]);
    (apply writes_only_bind; [apply writes_only_lift|intros ?]);
    apply writes_only_upsert_raw.
Qed.

(** C1. Upserts are idempotent: writing the same entity, or the same page
    of entities of any resource kinds, a second time leaves the structured
    tables, the raw snapshots and the cursor state exactly as the first
    time left them, and ends the same way (normally, or raising at the same
    entity).  Rows are held under their primary key, so none is doubled. *)
Theorem upsert_idempotent :
  (∀ (e : Backup.entity) (d : db),
     Backup.write_entity E e (Backup.write_entity E e d).1 = Backup.write_entity E e d) ∧
  (∀ (page : list Backup.entity) (d : db),
     for_each (Backup.write_entity E) page (for_each (Backup.write_entity E) page d).1
     = for_each (Backup.write_entity E) page d).
Proof.
  split.
  - intros e d. apply writes_only_idempotent, writes_only_write_entity.
  - intros page d. apply writes_only_idempotent, writes_only_for_each.
    apply writes_only_write_entity.
Qed.

End WriterIsWritesOnly.

(** ** What a computation leaves as it was *)

(** Membership in a list of names that is written out. *)
Ltac listed := apply (bool_decide_unpack _); vm_compute; exact I.

(** [m] does not change what [view] shows of the state, whatever it
    returns or raises. *)
Definition preserves {S A X} (view : S → X) (m : M S A) : Prop :=
  ∀ s, view (m s).1 = view s.

Section Preserves.
Context {S X : Type} (view : S → X).

Lemma preserves_ret {A} (a : A) : preserves view (ret a).
Proof. by intros s. Qed.

Lemma preserves_raise {A} e : preserves view (raise (A := A) e).
Proof. by intros s. Qed.

Lemma preserves_lift {A} (r : result A) : preserves view (lift r).
Proof. by intros s. Qed.

Lemma preserves_bind {A B} (m : M S A) (f : A → M S B) :
  preserves view m → (∀ a, preserves view (f a)) → preserves view (bind m f).
Proof.
  intros Hm Hf s. unfold bind. specialize (Hm s).
  destruct (m s) as [s1 [a|e]]; simpl in *; [|done].
  by rewrite Hf.
Qed.

Lemma preserves_bind_lift {A B} (r : result A) (f : A → M S B) :
  (∀ a, r = Ok a → preserves view (f a)) → preserves view (bind (lift r) f).
Proof.
  intros Hf s. unfold bind, lift. destruct r as [a|e]; [|done].
  by apply Hf.
Qed.

Lemma preserves_try_except {A} (m : M S A) (h : exn → M S A) :
  preserves view m → (∀ e, preserves view (h e)) → preserves view (try_except m h).
Proof.
  intros Hm Hh s. unfold try_except. specialize (Hm s).
  destruct (m s) as [s1 [a|e]]; simpl in *; [done|].
  by rewrite Hh.
Qed.

Lemma preserves_for_each {A} (body : A → M S unit) xs :
  (∀ x, preserves view (body x)) → preserves view (for_each body xs).
Proof.
  intros Hbody. induction xs as [|x xs IH]; simpl.
  - apply preserves_ret.
  - apply preserves_bind; auto.
Qed.

Lemma preserves_if {A} (b : bool) (m1 m2 : M S A) :
  preserves view m1 → preserves view m2 → preserves view (if b then m1 else m2).
Proof. by destruct b. Qed.

End Preserves.

(** The views of the store: one structured row, one raw snapshot, the
    cursors. *)
Definition row_at (t : string) (k : pkey) (d : db) : option row := structured d !! (t, k).
Definition raw_at (resource : string) (id : Z) (d : db) : option raw_row :=
  raw_snapshots d !! (resource, id).

Lemma table_unchanged t d d' :
  (∀ k, row_at t k d' = row_at t k d) → table t d' = table t d.
Proof.
  unfold row_at. intros Hk. unfold table. apply map_eq. intros [t' k].
  destruct (decide (t' = t)) as [->|Hne].
  - destruct (structured d !! (t, k)) as [r|] eqn:Hr.
    + transitivity (Some r); [|symmetry];
        apply map_lookup_filter_Some; split; by rewrite ?Hk.
    + transitivity (@None row); [|symmetry];
        apply map_lookup_filter_None; left; by rewrite ?Hk.
  - transitivity (@None row); [|symmetry];
      apply map_lookup_filter_None; right; intros r _; simpl; congruence.
Qed.

Section StorePrimitives.
Variable E : env.

Lemma insert_row_other_table t k t' key params :
  t ≠ t' → preserves (row_at t k) (insert_row E t' key params).
Proof.
  intros Hne d. unfold insert_row, row_at.
  destruct params as [|[c id] columns]; [done|].
  destruct (key id) as [k'|]; [|done].
  destruct (pg_accepts E t' _); [|done].
  simpl. apply lookup_insert_ne. congruence.
Qed.

Lemma insert_row_raw t key params : preserves raw_snapshots (insert_row E t key params).
Proof.
  intros d. unfold insert_row.
  destruct params as [|[c id] columns]; [done|].
  destruct (key id) as [k'|]; [|done]. by destruct (pg_accepts E t _).
Qed.

Lemma insert_row_sync_state t key params : preserves sync_state (insert_row E t key params).
Proof.
  intros d. unfold insert_row.
  destruct params as [|[c id] columns]; [done|].
  destruct (key id) as [k'|]; [|done]. by destruct (pg_accepts E t _).
Qed.

Lemma upsert_raw_structured resource entity_id updated_at payload :
  preserves structured (Backup.upsert_raw E resource entity_id updated_at payload).
Proof. intros d. unfold Backup.upsert_raw. by destruct (pg_accepts E _ _). Qed.

Lemma upsert_raw_sync_state resource entity_id updated_at payload :
  preserves sync_state (Backup.upsert_raw E resource entity_id updated_at payload).
Proof. intros d. unfold Backup.upsert_raw. by destruct (pg_accepts E _ _). Qed.

Lemma upsert_raw_other_resource r i resource entity_id updated_at payload :
  r ≠ resource →
  preserves (raw_at r i) (Backup.upsert_raw E resource entity_id updated_at payload).
Proof.
  intros Hne d. unfold Backup.upsert_raw, raw_at.
  destruct (pg_accepts E _ _); [|done].
  simpl. apply lookup_insert_ne. congruence.
Qed.

Lemma set_cursor_val_structured resource token :
  preserves structured (Backup.set_cursor_val E resource token).
Proof. intros d. unfold Backup.set_cursor_val. by destruct (pg_accepts E _ _). Qed.

Lemma set_cursor_val_raw resource token :
  preserves raw_snapshots (Backup.set_cursor_val E resource token).
Proof. intros d. unfold Backup.set_cursor_val. by destruct (pg_accepts E _ _). Qed.

Lemma truncate_other_table t k t' :
  t ≠ t' → preserves (row_at t k) (Restore.truncate_table t').
Proof.
  intros Hne d. unfold Restore.truncate_table, truncate_rows, row_at. simpl.
  destruct (structured d !! (t, k)) as [r|] eqn:Hr.
  - apply map_lookup_filter_Some. split; [done|]. simpl. done.
  - apply map_lookup_filter_None. left. done.
Qed.

(** [preserves] through the structure of a computation. *)
Ltac frame :=
  repeat first
    [ apply preserves_ret | apply preserves_raise | apply preserves_lift
    | apply preserves_bind; [|intros ?]
    | apply preserves_for_each; intros ?
    | apply preserves_try_except; [|intros ?]
    | apply insert_row_raw | apply insert_row_sync_state
    | apply upsert_raw_structured | apply upsert_raw_sync_state
    | apply set_cursor_val_structured | apply set_cursor_val_raw ].

(** Every upsert of the Writer leaves the cursors alone, and leaves alone
    the rows of the tables and the raw snapshots of the resources other
    than its own. *)
Lemma write_entity_sync_state e : preserves sync_state (Backup.write_entity E e).
Proof. destruct e as [j|j|j|? j|? ? j ?|j|j|j|j]; simpl; destruct j; frame. Qed.

Lemma write_entity_other_table t k e :
  t ≠ entity_table e → preserves (row_at t k) (Backup.write_entity E e).
Proof.
  intros Hne.
  destruct e as [j|j|j|? j|? ? j ?|j|j|j|j]; simpl in *; destruct j;
    try apply preserves_raise;
    (apply preserves_bind; [by apply insert_row_other_table|intros _]);
    (apply preserves_bind; [apply preserves_lift|intros ?]);
    intros d; unfold row_at; by rewrite upsert_raw_structured.
Qed.

Lemma write_entity_other_resource r i e :
  r ≠ entity_resource e → preserves (raw_at r i) (Backup.write_entity E e).
Proof.
  intros Hne.
  destruct e as [j|j|j|? j|? ? j ?|j|j|j|j]; simpl in *; destruct j;
    try apply preserves_raise;
    (apply preserves_bind;
     [intros d; unfold raw_at; by rewrite insert_row_raw|intros _]);
    (apply preserves_bind; [apply preserves_lift|intros ?]);
    by apply upsert_raw_other_resource.
Qed.

End StorePrimitives.


(** ** What the Writer stores in the document and time columns *)


Lemma py_or_absent (dflt : json) : py_or JNull dflt = dflt.
Proof. done. Qed.



Section WriterColumns.
Variable E : env.

(** A successful upsert has written the columns of its statement under the
    key of the entity, and the raw snapshot under its id. *)
Lemma insert_row_written t key params d d' :
  insert_row E t key params d = (d', Ok tt) →
  ∃ c id k, params = (c, id) :: tail params ∧ key id = Some k ∧
            d' = with_structured (insert (t, k) (tail params)) d.
Proof.
  unfold insert_row. destruct params as [|[c id] columns]; [done|].
  destruct (key id) as [k|] eqn:Hk; [|done].
  destruct (pg_accepts E t _); [|done].
  intros [= <-]. by exists c, id, k.
Qed.

Lemma upsert_raw_written resource entity_id updated_at payload d d' :
  Backup.upsert_raw E resource entity_id updated_at payload d = (d', Ok tt) →
  d' = with_raw (insert (resource, entity_id)
                   {| raw_updated_at := Backup.parse_dt E updated_at;
                      raw_payload := payload |}) d.
Proof.
  unfold Backup.upsert_raw. destruct (pg_accepts E _ _); [|done]. by intros [= <-].
Qed.

(** The shape every upsert of the Writer has. *)
Lemma upsert_written t key params (id : result Z) resource updated_at payload d d' :
  (insert_row E t key params ;;;
   n <- lift id ;;
   Backup.upsert_raw E resource n updated_at payload) d = (d', Ok tt) →
  ∃ k n, id = Ok n ∧
         structured d' = <[(t, k) := tail params]> (structured d) ∧
         raw_snapshots d' =
           <[(resource, n) := {| raw_updated_at := Backup.parse_dt E updated_at;
                                 raw_payload := payload |}]> (raw_snapshots d) ∧
         sync_state d' = sync_state d.
Proof.
  unfold bind, lift.
  destruct (insert_row E t key params d) as [d1 [[]|e]] eqn:Hrow; [|done].
  apply insert_row_written in Hrow as (c & idv & k & _ & _ & ->).
  destruct id as [n|e]; [|done].
  intros ->%upsert_raw_written. by exists k, n.
Qed.

End WriterColumns.

Ltac in_written_list :=
  first [apply list_elem_of_here | apply list_elem_of_further; in_written_list].


Section DocumentColumns.
Variable E : env.

Lemma written_entity e d d' :
  Backup.write_entity E e d = (d', Ok tt) →
  ∃ o, payload_of e = JObj o.
Proof. destruct e as [j|j|j|? j|? ? j ?|j|j|j|j]; simpl; destruct j; try done; eauto. Qed.


End DocumentColumns.



(** ** The update time of a comment *)

Lemma preserves_on_store {A X} (view : db → X) (m : M db A) :
  preserves view m → preserves (λ w, view (Backup.store w)) (Backup.on_store m).
Proof.
  intros Hm w. unfold Backup.on_store. specialize (Hm (Backup.store w)).
  by destruct (m (Backup.store w)).
Qed.

Section CommentTimes.
Variable E : env.

Lemma upsert_comment_written ticket_id o d d' :
  Backup.upsert_comment E ticket_id (JObj o) d = (d', Ok tt) →
  ∃ k n,
    Backup.int_id E o = Ok n ∧
    row_at "ticket_comments" k d' = Some (tail (Backup.comment_params E o ticket_id)) ∧
    raw_at "comments" n d' =
      Some {| raw_updated_at :=
                Backup.parse_dt E (py_or (get o "updated_at") (get o "created_at"));
              raw_payload := JObj o |}.
Proof.
  intros (k & n & Hn & Hs & Hr & _)%upsert_written. exists k, n.
  unfold row_at, raw_at. rewrite Hs, Hr, !lookup_insert_eq. done.
Qed.

Lemma comment_attachments_keep_comment {X} (view : db → X) ticket_id comment_id attachments :
  (∀ cid a local_path,
     preserves view (Backup.write_entity E
                       (Backup.Attachment ticket_id (Some cid) a local_path))) →
  preserves (λ w, view (Backup.store w))
    (Backup.comment_attachments E ticket_id comment_id attachments).
Proof.
  intros Hatt. unfold Backup.comment_attachments.
  apply preserves_for_each. intros a.
  apply preserves_bind; [apply preserves_lift|intros cid].
  apply preserves_bind;
    [destruct (download_attachment E ticket_id cid a);
       [apply preserves_ret|apply preserves_raise]|intros local_path].
  apply preserves_on_store, Hatt.
Qed.

(** C10. (1) [upsert_comment] records as update time of a comment its
    [updated_at] or else its [created_at], read by [parse_dt], in the
    structured row and in the raw snapshot alike; a comment that carries no
    [updated_at] gets the time of its creation in both.  (2) A comment
    built from a child event of the ticket-event stream is given the
    [created_at] of the event as its [updated_at]: after the event is
    processed, the stored row has that time in [updated_at] and in
    [created_at], and the raw snapshot has it as its update time. *)
Theorem comment_update_time_falls_back_to_creation :
  (∀ ticket_id o d d',
     Backup.upsert_comment E ticket_id (JObj o) d = (d', Ok tt) →
     ∃ k n,
       row_at "ticket_comments" k d' ≫= col "updated_at"
         = Some (Stamp (Backup.parse_dt E
                          (py_or (get o "updated_at") (get o "created_at")))) ∧
       raw_updated_at <$> raw_at "comments" n d'
         = Some (Backup.parse_dt E (py_or (get o "updated_at") (get o "created_at"))) ∧
       row_at "ticket_comments" k d' ≫= col "created_at"
         = Some (Stamp (Backup.parse_dt E (get o "created_at"))) ∧
       (truthy (get o "updated_at") = false →
        row_at "ticket_comments" k d' ≫= col "updated_at"
          = Some (Stamp (Backup.parse_dt E (get o "created_at"))) ∧
        raw_updated_at <$> raw_at "comments" n d'
          = Some (Backup.parse_dt E (get o "created_at")))) ∧
  (∀ tid ce w w',
     Backup.child_event_step E tid (JObj ce) w = (w', Ok tt) →
     Backup.is_comment_event ce = true →
     ∃ c k n,
       Backup.comment_of_child_event ce = Ok (JObj c) ∧
       get c "updated_at" = get ce "created_at" ∧
       row_at "ticket_comments" k (Backup.store w') ≫= col "updated_at"
         = Some (Stamp (Backup.parse_dt E (get ce "created_at"))) ∧
       row_at "ticket_comments" k (Backup.store w') ≫= col "created_at"
         = Some (Stamp (Backup.parse_dt E (get ce "created_at"))) ∧
       raw_updated_at <$> raw_at "comments" n (Backup.store w')
         = Some (Backup.parse_dt E (get ce "created_at"))).
Proof.
  split.
  - intros ticket_id o d d' (k & n & _ & Hrow & Hraw)%upsert_comment_written.
    exists k, n. rewrite Hrow, Hraw. simpl.
    do 3 (split; [done|]). intros Hno. unfold py_or. by rewrite Hno.
  - intros tid ce w w' Hstep Hcomment.
    unfold Backup.child_event_step in Hstep. rewrite Hcomment in Hstep.
    unfold Backup.comment_of_child_event in *.
    destruct (item ce "id") as [id|e] eqn:Hid; [|done].
    revert Hstep. unfold bind at 1. unfold lift at 1. unfold bind at 1.
    destruct (Backup.on_store _ w) as [w1 [[]|e]] eqn:Hup; [|done].
    intros Hrest.
    unfold Backup.on_store in Hup.
    destruct (Backup.upsert_comment E tid _ (Backup.store w)) as [d1 r1] eqn:Hc.
    injection Hup as <- ->.
    apply upsert_comment_written in Hc as (k & n & _ & Hrow & Hraw).
    eexists _, k, n. split; [reflexivity|]. split; [reflexivity|].
    assert (Hkeep_row : row_at "ticket_comments" k (Backup.store w')
                        = row_at "ticket_comments" k d1).
    { pose proof (preserves_bind (λ w, row_at "ticket_comments" k (Backup.store w))
                    (lift (py_iter (py_or (get ce "attachments") (JArr []))))
                    (λ attachments,
                       Backup.comment_attachments E tid (Backup.int_id E ce) attachments))
        as Hp.
      match type of Hrest with ?m ?w0 = _ =>
        specialize (Hp (preserves_lift _ _)
                       (λ atts, comment_attachments_keep_comment _ tid _ atts
                          (λ cid a lp, write_entity_other_table E "ticket_comments" k
                             (Backup.Attachment tid (Some cid) a lp)
                             ltac:(simpl; discriminate))) w0)
      end.
      by rewrite Hrest in Hp. }
    assert (Hkeep_raw : raw_at "comments" n (Backup.store w')
                        = raw_at "comments" n d1).
    { pose proof (preserves_bind (λ w, raw_at "comments" n (Backup.store w))
                    (lift (py_iter (py_or (get ce "attachments") (JArr []))))
                    (λ attachments,
                       Backup.comment_attachments E tid (Backup.int_id E ce) attachments))
        as Hp.
      match type of Hrest with ?m ?w0 = _ =>
        specialize (Hp (preserves_lift _ _)
                       (λ atts, comment_attachments_keep_comment _ tid _ atts
                          (λ cid a lp, write_entity_other_resource E "comments" n
                             (Backup.Attachment tid (Some cid) a lp)
                             ltac:(simpl; discriminate))) w0)
      end.
      by rewrite Hrest in Hp. }
    rewrite Hkeep_row, Hkeep_raw, Hrow, Hraw. simpl.
    repeat match goal with
           | |- context [get (?kv :: ?l) ?key] =>
               change (get (kv :: l) key) with (get ce "created_at")
           end.
    unfold py_or. by destruct (truthy (get ce "created_at")).
Qed.

End CommentTimes.

(** A comment without [updated_at], and a child event of a ticket event. *)
Definition bare_comment : list (string * json) :=
  [("id", JNum 11); ("body", JStr "hello"); ("created_at", JStr "2024-03-01T10:00:00Z")].

Definition comment_event : list (string * json) :=
  [("id", JNum 12); ("event_type", JStr "Comment"); ("body", JStr "hi");
   ("created_at", JStr "2024-03-02T09:30:00Z")].

Lemma comment_update_time_witness :
  (∃ k n,
     row_at "ticket_comments" k
       (Backup.upsert_comment test_env 5 (JObj bare_comment) empty_db).1
       ≫= col "updated_at" = Some (Stamp (Some 202403011000000000)) ∧
     raw_updated_at <$>
       raw_at "comments" n (Backup.upsert_comment test_env 5 (JObj bare_comment) empty_db).1
       = Some (Some 202403011000000000)) ∧
  (∃ c k n,
     Backup.comment_of_child_event comment_event = Ok (JObj c) ∧
     get c "updated_at" = JStr "2024-03-02T09:30:00Z" ∧
     row_at "ticket_comments" k
       (Backup.store
          (Backup.child_event_step test_env 5 (JObj comment_event)
             {| Backup.store := empty_db; Backup.feed := []; Backup.sent := [];
                Backup.journal := [] |}).1)
       ≫= col "updated_at" = Some (Stamp (Some 202403020930000000)) ∧
     raw_updated_at <$>
       raw_at "comments" n
         (Backup.store
            (Backup.child_event_step test_env 5 (JObj comment_event)
               {| Backup.store := empty_db; Backup.feed := []; Backup.sent := [];
                  Backup.journal := [] |}).1)
       = Some (Some 202403020930000000)).
Proof.
  split.
  - destruct (proj1 (comment_update_time_falls_back_to_creation test_env)
                5 bare_comment empty_db _ eq_refl) as (k & n & _ & _ & _ & Hno).
    destruct (Hno eq_refl) as [Hrow Hraw]. exists k, n. split; [exact Hrow|exact Hraw].
  - destruct (proj2 (comment_update_time_falls_back_to_creation test_env)
                5 comment_event
                {| Backup.store := empty_db; Backup.feed := []; Backup.sent := [];
                   Backup.journal := [] |} _ eq_refl eq_refl)
      as (c & k & n & Hc & Hu & Hrow & _ & Hraw).
    exists c, k, n. split; [exact Hc|]. split; [exact Hu|]. split; [exact Hrow|exact Hraw].
Defined.

(** ** Restore leaves the tables it has no restorer for *)

Section RestoreFrame.
Variable E : env.

(** A restorer is registered under the name of the table it writes. *)
Lemma restorer_tables resource fn :
  Restore.restorer E resource = Some fn → resource ∈ Restore.RESTORE_ORDER.
Proof.
  unfold Restore.restorer, Restore.RESTORERS, Restore.RESTORE_ORDER. simpl.
  repeat match goal with
         | |- context [String.eqb resource ?s] =>
             destruct (String.eqb_spec resource s) as [->|?]; [intros _; listed|]
         end.
  done.
Qed.

Lemma restorer_other_table t k resource fn payload :
  t ∉ Restore.RESTORE_ORDER →
  Restore.restorer E resource = Some fn → preserves (row_at t k) (fn payload).
Proof.
  intros Ht. unfold Restore.restorer, Restore.RESTORERS. simpl.
  repeat match goal with
         | |- context [String.eqb resource ?s] =>
             destruct (String.eqb_spec resource s) as [->|?];
             [intros [= <-];
              first [ apply (write_entity_other_table E t k (Backup.User payload))
                    | apply (write_entity_other_table E t k (Backup.Organization payload))
                    | apply (write_entity_other_table E t k (Backup.Ticket payload))
                    | apply (write_entity_other_table E t k (Backup.View payload))
                    | apply (write_entity_other_table E t k (Backup.Trigger payload))
                    | apply (write_entity_other_table E t k (Backup.TriggerCategory payload))
                    | apply (write_entity_other_table E t k (Backup.Macro payload)) ];
              intros ->; apply Ht; listed|]
         end.
  done.
Qed.

Lemma load_raw_rows_pure resource limit offset d :
  (Restore.load_raw_rows resource limit offset d).1 = d.
Proof.
  unfold Restore.load_raw_rows. destruct limit as [l|]; [|done]. by destruct (_ || _).
Qed.

Lemma restore_rows_other_table {X} (view : db → X) fn dry_run rows seen_ids restored :
  (∀ payload, preserves view (fn payload)) →
  preserves view (Restore.restore_rows E fn dry_run rows seen_ids restored).
Proof.
  intros Hfn. revert seen_ids restored.
  induction rows as [|[entity_id payload] rows IH]; intros seen_ids restored; simpl.
  - apply preserves_ret.
  - destruct (decide (entity_id ∈ seen_ids)); [apply IH|].
    destruct (Restore.decode_payload E payload) as [payload'|]; [|apply IH].
    destruct dry_run; [apply IH|].
    apply preserves_bind; [|intros ?; apply IH].
    apply preserves_try_except; [|intros ?; apply preserves_ret].
    apply preserves_bind; [apply Hfn|intros ?; apply preserves_ret].
Qed.

Lemma restore_resources_other_table t k limit offset dry_run scope_list :
  t ∉ Restore.RESTORE_ORDER →
  preserves (row_at t k) (Restore.restore_resources E limit offset dry_run scope_list).
Proof.
  intros Ht. induction scope_list as [|resource rest IH]; simpl.
  - apply preserves_ret.
  - apply preserves_bind_lift. intros fn Hfn.
    destruct (Restore.restorer E resource) as [fn'|] eqn:Hr; [|done].
    injection Hfn as ->.
    apply preserves_bind;
      [intros d; by rewrite load_raw_rows_pure|intros rows].
    apply preserves_bind.
    + apply restore_rows_other_table. intros payload.
      by apply (restorer_other_table t k resource).
    + intros restored. apply preserves_bind; [apply IH|].
      intros counts. apply preserves_ret.
Qed.

Lemma maybe_truncate_other_table t k scope_list truncate_first :
  t ∉ Restore.RESTORE_ORDER →
  preserves (row_at t k) (Restore.maybe_truncate scope_list truncate_first).
Proof.
  intros Ht. unfold Restore.maybe_truncate.
  destruct truncate_first; [|apply preserves_ret].
  apply preserves_for_each. intros s.
  unfold Restore.table_map. simpl.
  repeat match goal with
         | |- context [String.eqb s ?n] =>
             destruct (String.eqb_spec s n) as [->|?];
             [simpl; apply truncate_other_table; intros ->; apply Ht; listed|]
         end.
  apply preserves_ret.
Qed.

Lemma restore_other_table t k scope limit offset truncate_first dry_run :
  t ∉ Restore.RESTORE_ORDER →
  preserves (row_at t k) (Restore.restore E scope limit offset truncate_first dry_run).
Proof.
  intros Ht. unfold Restore.restore.
  apply preserves_bind; [apply preserves_lift|intros scope_list].
  apply preserves_bind; [by apply maybe_truncate_other_table|intros _].
  by apply restore_resources_other_table.
Qed.

(** Every scope the driver accepts names restorable resources only. *)
Lemma scope_parts_restorable parts acc scope_list :
  Restore.scope_parts E parts acc = Ok scope_list →
  Forall (λ r, r ∈ Restore.RESTORE_ORDER) acc →
  Forall (λ r, r ∈ Restore.RESTORE_ORDER) scope_list.
Proof.
  revert acc. induction parts as [|part parts IH]; intros acc; simpl.
  - by intros [= <-].
  - destruct (String.eqb _ ""); [apply IH|].
    destruct (Restore.restorer E _) as [fn|] eqn:Hfn; [|done].
    intros Hparts Hacc. apply (IH _ Hparts).
    apply Forall_app. split; [done|].
    apply Forall_singleton. by apply (restorer_tables _ fn).
Qed.

Lemma scope_list_restorable scope scope_list :
  Restore.scope_list_of E scope = Ok scope_list →
  Forall (λ r, r ∈ Restore.RESTORE_ORDER) scope_list.
Proof.
  unfold Restore.scope_list_of. destruct (String.eqb scope "all").
  - intros [= <-]. by apply Forall_forall.
  - intros H. by apply (scope_parts_restorable _ _ _ H).
Qed.

(** C9. Restore never writes to [ticket_comments] nor to [attachments]:
    neither name is a restorable resource, every scope the driver accepts
    (["all"] included) lists restorable resources only, and whatever the
    scope, the limit, the offset, the truncation and dry-run flags and the
    outcome, the rows of the two tables after [restore] are the rows before
    it; wiped before the restore, they are empty after it. *)
Theorem restore_skips_comments_and_attachments :
  ∀ scope limit offset truncate_first dry_run d,
    Restore.restorer E "comments" = None ∧
    Restore.restorer E "ticket_comments" = None ∧
    Restore.restorer E "attachments" = None ∧
    (∀ scope_list, Restore.scope_list_of E scope = Ok scope_list →
       ("comments" ∉ scope_list) ∧ ("ticket_comments" ∉ scope_list) ∧
       ("attachments" ∉ scope_list)) ∧
    table "ticket_comments"
      (Restore.restore E scope limit offset truncate_first dry_run d).1
    = table "ticket_comments" d ∧
    table "attachments"
      (Restore.restore E scope limit offset truncate_first dry_run d).1
    = table "attachments" d.
Proof.
  intros scope limit offset truncate_first dry_run d.
  assert (Hno : ∀ t, t ∉ Restore.RESTORE_ORDER →
                ∀ scope_list, Restore.scope_list_of E scope = Ok scope_list →
                t ∉ scope_list).
  { intros t Ht scope_list Hs Hin.
    apply scope_list_restorable in Hs.
    rewrite Forall_forall in Hs. by apply Ht, Hs. }
  assert (Hc : "comments" ∉ Restore.RESTORE_ORDER) by listed.
  assert (Htc : "ticket_comments" ∉ Restore.RESTORE_ORDER) by listed.
  assert (Ha : "attachments" ∉ Restore.RESTORE_ORDER) by listed.
  repeat split; try reflexivity.
  - by apply (Hno "comments").
  - by apply (Hno "ticket_comments").
  - by apply (Hno "attachments").
  - apply table_unchanged. intros k. by apply restore_other_table.
  - apply table_unchanged. intros k. by apply restore_other_table.
Qed.

End RestoreFrame.

(** ** Restore: the order of the rows and their replay *)

#[local] Instance raw_order_total : Total Restore.raw_order.
Proof.
  intros [ida [ta pa]] [idb [tb pb]]. unfold Restore.raw_order; simpl.
  destruct ta, tb; lia.
Qed.

#[local] Instance raw_order_transitive : Transitive Restore.raw_order.
Proof.
  intros [ida [ta pa]] [idb [tb pb]] [idc [tc pc]]. unfold Restore.raw_order; simpl.
  destruct ta, tb, tc; lia.
Qed.

Lemma resource_rows_lookup resource d id r :
  (id, r) ∈ Restore.resource_rows resource d ↔ raw_snapshots d !! (resource, id) = Some r.
Proof.
  unfold Restore.resource_rows. rewrite list_elem_of_fmap. split.
  - intros ([[res id'] r'] & [= -> ->] & Hin).
    apply list_elem_of_filter in Hin as [Hres Hin]. simpl in Hres. subst res.
    by apply elem_of_map_to_list in Hin.
  - intros Hl. exists ((resource, id), r). split; [done|].
    apply list_elem_of_filter. split; [done|]. by apply elem_of_map_to_list.
Qed.

Lemma resource_rows_distinct resource d : NoDup (Restore.resource_rows resource d).*1.
Proof.
  unfold Restore.resource_rows. rewrite <- list_fmap_compose.
  apply NoDup_fmap_2_strong.
  - intros [[r1 i1] x1] [[r2 i2] x2] H1 H2. simpl. intros ->.
    apply list_elem_of_filter in H1 as [E1 H1], H2 as [E2 H2]. simpl in E1, E2. subst.
    f_equal. by apply (map_to_list_unique (raw_snapshots d) (resource, i2)).
  - apply NoDup_filter, NoDup_map_to_list.
Qed.

Lemma ordered_rows_distinct resource d : NoDup (Restore.ordered_rows resource d).*1.
Proof.
  unfold Restore.ordered_rows.
  rewrite (merge_sort_Permutation Restore.raw_order). apply resource_rows_distinct.
Qed.




(** The spec's words: every surviving row goes through the projection of
    its resource; a payload that does not parse is skipped, a projection
    that raises is logged, and the batch goes on. *)
Fixpoint replay (E : env) (fn : json → M db unit) (rows : list (Z * json))
    (restored : Z) : M db Z :=
  match rows with
  | [] => ret restored
  | (_, payload) :: rest =>
      match Restore.decode_payload E payload with
      | None => replay E fn rest restored
      | Some payload' =>
          λ d, match fn payload' d with
               | (d', Ok _) => replay E fn rest (restored + 1) d'
               | (d', Raise _) => replay E fn rest restored d'
               end
      end
  end.


Lemma restore_rows_distinct E fn rows seen_ids restored d :
  NoDup rows.*1 → (∀ id, id ∈ rows.*1 → id ∉ seen_ids) →
  Restore.restore_rows E fn false rows seen_ids restored d = replay E fn rows restored d.
Proof.
  revert seen_ids restored d.
  induction rows as [|[id payload] rows IH]; intros seen_ids restored d; simpl; [done|].
  intros [Hid Hnd]%NoDup_cons Hseen.
  destruct (decide (id ∈ seen_ids)) as [Hin|_].
  { exfalso. apply (Hseen id); [apply list_elem_of_here|done]. }
  assert (Hrest : ∀ id', id' ∈ rows.*1 → id' ∉ seen_ids).
  { intros id' Hin'. apply Hseen. by apply list_elem_of_further. }
  destruct (Restore.decode_payload E payload) as [payload'|]; [|by apply IH].
  unfold bind, try_except, ret.
  destruct (fn payload' d) as [d' [[]|e]]; simpl.
  - apply IH; [done|].
    intros id' Hin' [->%elem_of_singleton|Hs]%elem_of_union; [done|].
    by apply (Hrest id').
  - by apply IH.
Qed.

Section RestoreReplay.
Variable E : env.


End RestoreReplay.

(** ** Restore: the dry run *)

Section DryRun.
Variable E : env.

Lemma restore_rows_dry_run fn rows seen_ids restored d :
  (Restore.restore_rows E fn true rows seen_ids restored d).1 = d.
Proof.
  revert seen_ids restored.
  induction rows as [|[id payload] rows IH]; intros seen_ids restored; simpl; [done|].
  destruct (decide (id ∈ seen_ids)); [apply IH|].
  destruct (Restore.decode_payload E payload); apply IH.
Qed.

Lemma restore_resources_dry_run limit offset scope_list d :
  (Restore.restore_resources E limit offset true scope_list d).1 = d.
Proof.
  revert d. induction scope_list as [|resource rest IH]; intros d; simpl; [done|].
  unfold bind, lift.
  destruct (Restore.restorer E resource) as [fn|]; [|done].
  assert (Hload : (Restore.load_raw_rows resource limit offset d).1 = d).
  { unfold Restore.load_raw_rows. destruct limit; [|done]. by destruct (_ || _). }
  destruct (Restore.load_raw_rows resource limit offset d) as [d1 [rows|e]];
    simpl in Hload; subst d1; [|done].
  pose proof (restore_rows_dry_run fn rows ∅ 0 d) as Hrows.
  destruct (Restore.restore_rows E fn true rows ∅ 0 d) as [d2 [n|e]];
    simpl in Hrows; subst d2; [|done].
  specialize (IH d).
  by destruct (Restore.restore_resources E limit offset true rest d) as [d3 [counts|e]].
Qed.

(** Without the truncation flag a dry run writes nothing: the store after
    it is the store before it, for every scope, limit and offset. *)
Lemma dry_run_without_truncate_writes_nothing scope limit offset d :
  (Restore.restore E scope limit offset false true d).1 = d.
Proof.
  unfold Restore.restore, bind, lift.
  destruct (Restore.scope_list_of E scope) as [scope_list|e]; [|done].
  simpl. apply restore_resources_dry_run.
Qed.

End DryRun.

(** A store that holds one user, written by the Writer. *)
Definition stored_user : json :=
  JObj [("id", JNum 7); ("name", JStr "ann"); ("updated_at", JStr "2024-01-02T00:00:00Z")].

Definition one_user_db : db := (Backup.upsert_user test_env stored_user empty_db).1.

(** C2, at the input where the code departs from it.  [restore] calls
    [maybe_truncate] before it looks at [dry_run]: with [--truncate-first]
    and [--dry-run] together, on a store that holds one user, it reports one
    row as restorable and leaves the [users] table empty. *)
Theorem dry_run_with_truncate_wipes_table :
  structured one_user_db !! ("users", inl 7) =
    Some (tail (Backup.user_params test_env
                  [("id", JNum 7); ("name", JStr "ann");
                   ("updated_at", JStr "2024-01-02T00:00:00Z")])) ∧
  (Restore.restore test_env "users" None 0 true true one_user_db).2
    = Ok [("users", 1)] ∧
  table "users" (Restore.restore test_env "users" None 0 true true one_user_db).1 = ∅ ∧
  structured (Restore.restore test_env "users" None 0 true true one_user_db).1 = ∅.
Proof.
  repeat split; vm_compute; reflexivity.
Qed.

(** ** The retrying fetcher *)

(** A response the fetcher retries: a status of [RETRY_STATUS], and a
    [Retry-After] header, when there is one, that [float] reads as a time
    to sleep. *)
Definition retryable (E : env) (r : Backup.response) : Prop :=
  Backup.status_code r ∈ Backup.RETRY_STATUS ∧
  match Backup.retry_after r with
  | Some s => s = "" ∨ float_of_header E s = Some true
  | None => True
  end.

Definition requested (url : json) (params : list (string * json)) (n : nat)
    (w : Backup.world) (rest : list Backup.event) : Backup.world :=
  {| Backup.store := Backup.store w;
     Backup.feed := rest;
     Backup.sent := Backup.sent w ++
                    replicate n {| Backup.req_url := url; Backup.req_params := params |};
     Backup.journal := Backup.journal w |}.

Section Retry.
Variable E : env.

Lemma retryable_not_ok r : retryable E r → (Backup.status_code r =? 200) = false.
Proof.
  intros [Hs _]. apply Z.eqb_neq. intros H200. rewrite H200 in Hs.
  revert Hs. apply (bool_decide_unpack _). vm_compute. exact I.
Qed.

Lemma retryable_sleep {S} r (s : S) :
  retryable E r → Backup.sleep_hint E (Backup.retry_after r) s = (s, Ok tt).
Proof.
  intros [_ Hh]. unfold Backup.sleep_hint.
  destruct (Backup.retry_after r) as [h|]; [|done].
  destruct (String.eqb_spec h "") as [->|Hne]; [done|].
  destruct Hh as [->|Hf]; [done|]. by rewrite Hf.
Qed.

Lemma retry_loop_exhausted n url params w rs rest :
  Backup.feed w = (Backup.Response <$> rs) ++ rest →
  length rs = n →
  Forall (retryable E) rs →
  Backup.retry_loop E n url params w
  = (requested url params n w rest, Raise (GetExhausted (py_str E url))).
Proof.
  revert w rs. induction n as [|n IH]; intros w rs Hfeed Hlen Hall.
  - destruct rs; [|done]. simpl in *. unfold requested. simpl.
    rewrite app_nil_r. rewrite <- Hfeed. by destruct w.
  - destruct rs as [|r rs]; [done|]. simpl in Hfeed, Hlen.
    apply Forall_cons in Hall as [Hr Hall].
    simpl. unfold bind at 1. unfold Backup.session_get. rewrite Hfeed.
    rewrite (retryable_not_ok r Hr).
    destruct Hr as [Hs Hh]. rewrite (bool_decide_eq_true_2 _ Hs).
    unfold bind at 1. rewrite (retryable_sleep r _ (conj Hs Hh)).
    rewrite (IH _ rs); [|done|lia|done].
    unfold requested. simpl. rewrite <- (assoc_L (++)). done.
Qed.

(** Every turn of the loop makes one request: no run makes more than
    [attempts] of them. *)
Lemma retry_loop_bounded n url params w :
  (length (Backup.sent (Backup.retry_loop E n url params w).1)
   ≤ length (Backup.sent w) + n)%nat.
Proof.
  revert w. induction n as [|n IH]; intros w; simpl; [lia|].
  unfold bind at 1. unfold Backup.session_get.
  destruct (Backup.feed w) as [|ev rest]; simpl; [lia|].
  destruct ev as [r|]; simpl; [|rewrite length_app; simpl; lia].
  destruct (Backup.status_code r =? 200).
  { unfold Backup.resp_json. destruct (Backup.body r);
      simpl; rewrite length_app; simpl; lia. }
  destruct (bool_decide _); [|simpl; rewrite length_app; simpl; lia].
  unfold bind at 1.
  match goal with |- context [Backup.sleep_hint E ?h ?s] =>
    assert (Hsl : (Backup.sleep_hint E h s).1 = s)
      by (unfold Backup.sleep_hint; destruct h as [x|]; [|done];
          destruct (String.eqb x ""); [done|]; by destruct (float_of_header E x) as [[]|]);
    destruct (Backup.sleep_hint E h s) as [s' [[]|e]]; simpl in Hsl; subst s'
  end.
  - etransitivity; [apply IH|]. simpl. rewrite length_app. simpl. lia.
  - simpl. rewrite length_app. simpl. lia.
Qed.

(** C3, as the code has it.  [get_with_retry] makes at most eight attempts.
    When each of the eight met a retryable status, it has consumed exactly
    those eight answers and raises the terminal error [GET url exhausted
    retries], which names the URL and nothing of the last response. *)
Theorem retries_bounded_and_exhaustion_names_url :
  ∀ url params w rs rest,
    Backup.feed w = (Backup.Response <$> rs) ++ rest →
    length rs = 8%nat →
    Forall (retryable E) rs →
    Backup.get_with_retry E url params w
    = (requested url params 8 w rest, Raise (GetExhausted (py_str E url))) ∧
    ∀ url' params' w',
      (length (Backup.sent (Backup.get_with_retry E url' params' w').1)
       ≤ length (Backup.sent w') + 8)%nat.
Proof.
  intros url params w rs rest Hfeed Hlen Hall. split.
  - by apply (retry_loop_exhausted 8 url params w rs).
  - intros url' params' w'. apply retry_loop_bounded.
Qed.

End Retry.

Definition answer (status : Z) (text : string) : Backup.event :=
  Backup.Response {| Backup.status_code := status; Backup.retry_after := None;
                     Backup.body := None; Backup.text := text |}.

Definition fresh_world (d : db) (feed : list Backup.event) : Backup.world :=
  {| Backup.store := d; Backup.feed := feed; Backup.sent := []; Backup.journal := [] |}.

(** C3, where the code departs from it: eight answers [500 "overloaded"]
    and eight answers [503 "maintenance"] exhaust the attempts with the
    very same error; it carries neither the last status nor a snippet of
    the last body.  An answer that is not retried does carry both. *)
Lemma exhausted_error_forgets_last_response :
  (Backup.get_with_retry test_env (JStr "u") []
     (fresh_world empty_db (replicate 8 (answer 500 "overloaded")))).2
    = Raise (GetExhausted "u") ∧
  (Backup.get_with_retry test_env (JStr "u") []
     (fresh_world empty_db (replicate 8 (answer 503 "maintenance")))).2
    = Raise (GetExhausted "u") ∧
  (Backup.get_with_retry test_env (JStr "u") []
     (fresh_world empty_db [answer 500 "overloaded"; answer 404 "gone"])).2
    = Raise (GetFailed "u" 404 (JObj [("text", JStr "gone")])).
Proof. repeat split; vm_compute; reflexivity. Qed.

Lemma retries_exhausted_witness :
  Backup.feed (fresh_world empty_db (replicate 9 (answer 500 "overloaded")))
    = (Backup.Response <$>
         replicate 8 {| Backup.status_code := 500; Backup.retry_after := None;
                        Backup.body := None; Backup.text := "overloaded" |})
      ++ [answer 500 "overloaded"] ∧
  Backup.get_with_retry test_env (JStr "u") []
    (fresh_world empty_db (replicate 9 (answer 500 "overloaded")))
  = (requested (JStr "u") [] 8
       (fresh_world empty_db (replicate 9 (answer 500 "overloaded")))
       [answer 500 "overloaded"],
     Raise (GetExhausted "u")).
Proof.
  split; [reflexivity|].
  apply (retries_bounded_and_exhaustion_names_url test_env (JStr "u") []
           (fresh_world empty_db (replicate 9 (answer 500 "overloaded")))
           (replicate 8 {| Backup.status_code := 500; Backup.retry_after := None;
                           Backup.body := None; Backup.text := "overloaded" |})
           [answer 500 "overloaded"]).
  - reflexivity.
  - reflexivity.
  - repeat constructor; simpl; apply (bool_decide_unpack _); vm_compute; exact I.
Defined.

(** ** Retention pruning *)

Lemma delete_ticket_rows n d t k :
  row_at t k (Backup.delete_ticket n d).1 =
    match row_at t k d with
    | Some r =>
        if bool_decide ((t = "tickets" ∧ k = inl n) ∨
                        ((t = "ticket_comments" ∨ t = "attachments") ∧
                         column_is "ticket_id" n r = true))
        then None else Some r
    | None => None
    end.
Proof.
  unfold Backup.delete_ticket, delete_key, delete_where, row_at. simpl.
  destruct (decide ((t, k) = ("tickets", inl n))) as [Heq|Hkey].
  - injection Heq as -> ->. rewrite lookup_delete_eq. destruct (structured d !! _); [|done].
    rewrite bool_decide_eq_true_2; [done|]. by left.
  - rewrite lookup_delete_ne by done.
    destruct (structured d !! (t, k)) as [r|] eqn:Hr.
    + case_bool_decide as Hdel.
      * destruct Hdel as [Hk|Hd]; [destruct Hk as [Ht' Hk']; by subst|].
        destruct Hd as [Ht Hc].
        apply map_lookup_filter_None. right. intros r' Hr' Hkeep. simpl in *.
        destruct Ht as [-> | ->].
        -- apply Hkeep. split; [done|].
           apply map_lookup_filter_Some in Hr' as [Hr' _]. by simplify_eq.
        -- apply map_lookup_filter_Some in Hr' as [Hr' Hkeep']. simpl in *.
           apply Hkeep'. split; [done|]. by simplify_eq.
      * apply map_lookup_filter_Some. simpl. split.
        -- apply map_lookup_filter_Some. simpl. split; [done|].
           intros [-> Hc]. apply Hdel. right. split; [by right|done].
        -- intros [-> Hc]. apply Hdel. right. split; [by left|done].
    + apply map_lookup_filter_None. left. apply map_lookup_filter_None. by left.
Qed.

Section Prune.
Variables (E : env) (cfg : Backup.config).

(** C8. With closed-only filtering and pruning both enabled, a ticket of a
    sync page whose status, in lower case, is not ["closed"] is deleted
    with its comments and its attachments: after the step no ticket row has
    its id and no comment or attachment row has it as [ticket_id].  It is
    not upserted: every structured row present after the step was there
    before it, the rows of the other tickets stay, and the raw snapshots,
    the cursors and the feed (no comment is fetched) are untouched. *)
Theorem reopened_ticket_is_pruned :
  ∀ o status n w,
    Backup.CLOSED_TICKETS_ONLY cfg = true →
    Backup.PRUNE_REOPENED_FROM_DB cfg = true →
    Backup.ticket_status E o = Ok status →
    status ≠ "closed" →
    Backup.int_id E o = Ok n →
    ∃ w',
      Backup.ticket_step E cfg (JObj o) w = (w', Ok tt) ∧
      row_at "tickets" (inl n) (Backup.store w') = None ∧
      (∀ k r, row_at "ticket_comments" k (Backup.store w') = Some r →
              column_is "ticket_id" n r = false) ∧
      (∀ k r, row_at "attachments" k (Backup.store w') = Some r →
              column_is "ticket_id" n r = false) ∧
      (∀ t k r, row_at t k (Backup.store w') = Some r →
                row_at t k (Backup.store w) = Some r) ∧
      (∀ t k r, row_at t k (Backup.store w) = Some r →
                (t, k) ≠ ("tickets", inl n) →
                column_is "ticket_id" n r = false →
                row_at t k (Backup.store w') = Some r) ∧
      raw_snapshots (Backup.store w') = raw_snapshots (Backup.store w) ∧
      sync_state (Backup.store w') = sync_state (Backup.store w) ∧
      Backup.feed w' = Backup.feed w ∧
      Backup.sent w' = Backup.sent w.
Proof.
  intros o status n w Hclosed Hprune Hstatus Hopen Hid.
  exists {| Backup.store := (Backup.delete_ticket n (Backup.store w)).1;
            Backup.feed := Backup.feed w; Backup.sent := Backup.sent w;
            Backup.journal := Backup.journal w |}.
  split.
  { unfold Backup.ticket_step, bind, lift. rewrite Hstatus, Hclosed, Hprune.
    destruct (String.eqb_spec status "closed") as [->|_]; [done|].
    cbn [andb negb]. by rewrite Hid. }
  cbn [Backup.store Backup.feed Backup.sent].
  split; [|split; [|split; [|split; [|split; [|by repeat split]]]]].
  - rewrite delete_ticket_rows. destruct (row_at _ _ _); [|done].
    rewrite bool_decide_eq_true_2; [done|]. by left.
  - intros k r. rewrite delete_ticket_rows.
    destruct (row_at _ _ _) as [r'|]; [|done].
    case_bool_decide as Hdel; [done|]. intros [= ->].
    destruct (column_is "ticket_id" n r) eqn:Hc; [|done].
    exfalso. apply Hdel. right. split; [by left|done].
  - intros k r. rewrite delete_ticket_rows.
    destruct (row_at _ _ _) as [r'|]; [|done].
    case_bool_decide as Hdel; [done|]. intros [= ->].
    destruct (column_is "ticket_id" n r) eqn:Hc; [|done].
    exfalso. apply Hdel. right. split; [by right|done].
  - intros t k r. rewrite delete_ticket_rows.
    destruct (row_at _ _ _) as [r'|]; [|done]. by case_bool_decide.
  - intros t k r Hr Hkey Hc. rewrite delete_ticket_rows, Hr.
    rewrite bool_decide_eq_false_2; [done|].
    intros Hd. destruct Hd as [Hk|Hd]; [destruct Hk as [Ht' Hk']; by subst|].
    destruct Hd as [_ Hc']. congruence.
Qed.

End Prune.

(** A store with two tickets, each with a comment that has an attachment. *)
Definition two_tickets_db : db :=
  (for_each (Backup.write_entity test_env)
     [Backup.Ticket (JObj [("id", JNum 5); ("status", JStr "closed")]);
      Backup.Comment 5 (JObj [("id", JNum 50); ("body", JStr "first")]);
      Backup.Attachment 5 (Some 50) (JObj [("id", JNum 500)]) None;
      Backup.Ticket (JObj [("id", JNum 6); ("status", JStr "closed")]);
      Backup.Comment 6 (JObj [("id", JNum 60); ("body", JStr "other")]);
      Backup.Attachment 6 (Some 60) (JObj [("id", JNum 600)]) None]
     empty_db).1.

Definition reopened_ticket : list (string * json) :=
  [("id", JNum 5); ("status", JStr "Open")].

Lemma reopened_ticket_witness :
  (Backup.CLOSED_TICKETS_ONLY test_cfg = true ∧
   Backup.PRUNE_REOPENED_FROM_DB test_cfg = true ∧
   Backup.ticket_status test_env reopened_ticket = Ok "open" ∧
   "open" ≠ "closed" ∧
   Backup.int_id test_env reopened_ticket = Ok 5 ∧
   is_Some (row_at "tickets" (inl 5) two_tickets_db) ∧
   is_Some (row_at "ticket_comments" (inl 50) two_tickets_db) ∧
   is_Some (row_at "attachments" (inl 500) two_tickets_db)) ∧
  ∃ w',
    Backup.ticket_step test_env test_cfg (JObj reopened_ticket)
      {| Backup.store := two_tickets_db; Backup.feed := []; Backup.sent := [];
         Backup.journal := [] |} = (w', Ok tt) ∧
    map_to_list (structured (Backup.store w')) =
      map_to_list
        (structured
           (for_each (Backup.write_entity test_env)
              [Backup.Ticket (JObj [("id", JNum 6); ("status", JStr "closed")]);
               Backup.Comment 6 (JObj [("id", JNum 60); ("body", JStr "other")]);
               Backup.Attachment 6 (Some 60) (JObj [("id", JNum 600)]) None]
              empty_db).1) ∧
    raw_snapshots (Backup.store w') = raw_snapshots two_tickets_db.
Proof.
  split.
  { repeat split; try (vm_compute; eauto; fail). discriminate. }
  destruct (reopened_ticket_is_pruned test_env test_cfg reopened_ticket "open" 5
              {| Backup.store := two_tickets_db; Backup.feed := []; Backup.sent := [];
                 Backup.journal := [] |}
              eq_refl eq_refl eq_refl ltac:(discriminate) eq_refl)
    as (w' & Hstep & _ & _ & _ & _ & _ & Hraw & _).
  exists w'. split; [exact Hstep|]. split; [|exact Hraw].
  revert Hstep. vm_compute. intros [= <-]. reflexivity.
Defined.

(** ** Checkpoint per page *)



Definition cursor_of (resource : string) (w : Backup.world) : option json :=
  sync_state (Backup.store w) !! resource.









Section Cursor.
Variables (E : env) (cfg : Backup.config).


Lemma sleep_hint_view {S X} (view : S → X) ra : preserves view (Backup.sleep_hint E ra).
Proof.
  unfold Backup.sleep_hint. destruct ra as [s|]; [|apply preserves_ret].
  destruct (String.eqb s ""); [apply preserves_ret|].
  destruct (float_of_header E s) as [[]|];
    [apply preserves_ret|apply preserves_raise|apply preserves_raise].
Qed.

Lemma capped_hint_view {S X} (view : S → X) ra : preserves view (Backup.capped_hint E ra).
Proof.
  unfold Backup.capped_hint. destruct ra as [s|]; [|apply preserves_ret].
  destruct (String.eqb s ""); [apply preserves_ret|].
  destruct (float_of_header E s); [apply preserves_ret|apply preserves_raise].
Qed.

Lemma resp_json_view {S X} (view : S → X) r : preserves view (Backup.resp_json r).
Proof.
  unfold Backup.resp_json. destruct (Backup.body r);
    [apply preserves_ret|apply preserves_raise].
Qed.



Lemma next_link_view {S X} (view : S → X) p k : preserves view (Backup.next_link p k).
Proof.
  unfold Backup.next_link. destruct (truthy _); [apply preserves_ret|apply preserves_lift].
Qed.















End Cursor.

Section CursorTheorem.
Variables (E : env) (cfg : Backup.config).





End CursorTheorem.

(** Two pages of users, the first answered after one retry. *)
Definition users_page_1 : json :=
  JObj [("users", JArr [JObj [("id", JNum 7); ("name", JStr "ann")]]);
        ("after_cursor", JStr "c1"); ("after_url", JStr "https://next")].

Definition users_page_2 : json :=
  JObj [("users", JArr [JObj [("id", JNum 9); ("name", JStr "bob")]]);
        ("after_cursor", JStr "c2"); ("end_of_stream", JBool true)].

Definition page_answer (page : json) : Backup.event :=
  Backup.Response {| Backup.status_code := 200; Backup.retry_after := None;
                     Backup.body := Some page; Backup.text := "" |}.

Definition users_feed : list Backup.event :=
  [answer 503 "busy"; page_answer users_page_1; page_answer users_page_2].


(** ** Organizations: the fall-back to a snapshot *)







Section SnapshotFallback.
Variables (E : env) (cfg : Backup.config).

Lemma on_store_run {A} (m : M db A) w :
  Backup.on_store m w
  = ({| Backup.store := (m (Backup.store w)).1; Backup.feed := Backup.feed w;
        Backup.sent := Backup.sent w; Backup.journal := Backup.journal w |},
     (m (Backup.store w)).2).
Proof. unfold Backup.on_store. by destruct (m (Backup.store w)). Qed.










End SnapshotFallback.













(** ** Restore: the scope, the truncation and the counts *)

Lemma table_empty t d : (∀ k, row_at t k d = None) → table t d = ∅.
Proof.
  intros Hk. unfold table. apply map_eq. intros [t' k].
  rewrite lookup_empty. apply map_lookup_filter_None.
  destruct (decide (t' = t)) as [->|Hne].
  - left. apply Hk.
  - right. intros r _. simpl. congruence.
Qed.

Section RestoreDriver.
Variable E : env.

(** A part of the scope as [restore] reads it: stripped, in lower case. *)
Definition scope_name (part : string) : string := str_lower E (str_strip E part).

Lemma restorer_known resource :
  resource ∈ Restore.RESTORE_ORDER → is_Some (Restore.restorer E resource).
Proof.
  unfold Restore.RESTORE_ORDER. intros Hin.
  repeat (apply elem_of_cons in Hin as [->|Hin]; [by eexists|]).
  by apply elem_of_nil in Hin.
Qed.

Lemma restorer_unknown resource :
  resource ∉ Restore.RESTORE_ORDER → Restore.restorer E resource = None.
Proof.
  intros Hno. destruct (Restore.restorer E resource) as [fn|] eqn:Hfn; [|done].
  by apply restorer_tables in Hfn.
Qed.

Lemma scope_parts_unknown before part after acc :
  Forall (λ q, scope_name q = "" ∨ scope_name q ∈ Restore.RESTORE_ORDER) before →
  scope_name part ≠ "" →
  scope_name part ∉ Restore.RESTORE_ORDER →
  Restore.scope_parts E (before ++ part :: after) acc = Raise (SystemExit (scope_name part)).
Proof.
  intros Hbefore Hne Hno. revert acc.
  induction Hbefore as [|q before Hq _ IH]; intros acc; simpl.
  - fold (scope_name part). apply String.eqb_neq in Hne. rewrite Hne.
    by rewrite (restorer_unknown _ Hno).
  - fold (scope_name q). destruct Hq as [->|Hq]; [apply IH|].
    destruct (String.eqb _ ""); [apply IH|].
    destruct (restorer_known _ Hq) as [fn ->]. apply IH.
Qed.

(** X17. The scope is read before anything is done: a part that names no
    restorable resource ends [restore] with the store as it was, also when
    the tables were to be truncated first.  The error names the first such
    part, stripped and in lower case; empty parts are passed over. *)
Theorem unknown_scope_stops_restore_before_any_write :
  ∀ scope before part after limit offset truncate_first dry_run d,
    scope ≠ "all" →
    Restore.split_comma scope = before ++ part :: after →
    Forall (λ q, scope_name q = "" ∨ scope_name q ∈ Restore.RESTORE_ORDER) before →
    scope_name part ≠ "" →
    scope_name part ∉ Restore.RESTORE_ORDER →
    Restore.restore E scope limit offset truncate_first dry_run d
    = (d, Raise (SystemExit (scope_name part))).
Proof.
  intros scope before part after limit offset truncate_first dry_run d
    Hall Hsplit Hbefore Hne Hno.
  unfold Restore.restore, Restore.scope_list_of.
  apply String.eqb_neq in Hall. rewrite Hall, Hsplit.
  by rewrite (scope_parts_unknown _ _ _ _ Hbefore Hne Hno).
Qed.

(** *** Truncation *)

Lemma table_of_table_map s :
  Restore.table_of Restore.table_map s
  = if bool_decide (s ∈ Restore.RESTORE_ORDER) then Some s else None.
Proof.
  unfold Restore.table_map, Restore.RESTORE_ORDER. simpl.
  repeat match goal with
         | |- context [String.eqb s ?n] =>
             destruct (String.eqb_spec s n) as [->|?]; [reflexivity|]
         end.
  rewrite bool_decide_eq_false_2; [done|].
  intros Hin. repeat (apply elem_of_cons in Hin as [->|Hin]; [done|]).
  by apply elem_of_nil in Hin.
Qed.

Lemma truncate_rows_row t t' k d :
  row_at t k (truncate_rows t' d) = if decide (t = t') then None else row_at t k d.
Proof.
  unfold truncate_rows, row_at. simpl. destruct (decide (t = t')) as [->|Hne].
  - apply map_lookup_filter_None. right. intros r _. simpl. by intros Hk.
  - destruct (structured d !! (t, k)) as [r|] eqn:Hr.
    + apply map_lookup_filter_Some. by split.
    + apply map_lookup_filter_None. by left.
Qed.

Lemma restorable_not_empty s : s ∈ Restore.RESTORE_ORDER → String.eqb s "" = false.
Proof.
  unfold Restore.RESTORE_ORDER. intros Hin.
  repeat (apply elem_of_cons in Hin as [->|Hin]; [done|]).
  by apply elem_of_nil in Hin.
Qed.

Lemma maybe_truncate_cons s rest d :
  Restore.maybe_truncate (s :: rest) true d
  = Restore.maybe_truncate rest true
      (if bool_decide (s ∈ Restore.RESTORE_ORDER) then truncate_rows s d else d).
Proof.
  unfold Restore.maybe_truncate. cbn [for_each]. unfold bind.
  rewrite table_of_table_map. case_bool_decide as Hs; [|done].
  by rewrite (restorable_not_empty _ Hs).
Qed.

(** The rows left by the truncation of the tables of a scope. *)
Lemma maybe_truncate_rows scope_list d :
  (Restore.maybe_truncate scope_list true d).2 = Ok tt ∧
  raw_snapshots (Restore.maybe_truncate scope_list true d).1 = raw_snapshots d ∧
  sync_state (Restore.maybe_truncate scope_list true d).1 = sync_state d ∧
  ∀ t k, row_at t k (Restore.maybe_truncate scope_list true d).1
         = if bool_decide (t ∈ scope_list ∧ t ∈ Restore.RESTORE_ORDER) then None
           else row_at t k d.
Proof.
  revert d. induction scope_list as [|s rest IH]; intros d.
  { simpl. by repeat split. }
  rewrite maybe_truncate_cons.
  destruct (IH (if bool_decide (s ∈ Restore.RESTORE_ORDER) then truncate_rows s d else d))
    as (Hok & Hraw & Hss & Hrows).
  split; [exact Hok|]. split; [rewrite Hraw; by case_bool_decide|].
  split; [rewrite Hss; by case_bool_decide|].
  intros t k. rewrite Hrows. case_bool_decide as Hs.
  - rewrite truncate_rows_row. destruct (decide (t = s)) as [->|Hne].
    + rewrite (bool_decide_eq_true_2 (s ∈ s :: rest ∧ _)); [by case_bool_decide|].
      split; [apply list_elem_of_here|done].
    + rewrite (bool_decide_ext _ (t ∈ s :: rest ∧ t ∈ Restore.RESTORE_ORDER)); [done|].
      rewrite elem_of_cons. split; [intros [Hin Ht]; split; [by right|done]|].
      intros [[->|Hin] Ht]; [done|by split].
  - rewrite (bool_decide_ext _ (t ∈ s :: rest ∧ t ∈ Restore.RESTORE_ORDER)); [done|].
    rewrite elem_of_cons. split; [intros [Hin Ht]; split; [by right|done]|].
    intros [[->|Hin] Ht]; [done|by split].
Qed.

(** X18. With [--truncate-first] the tables of the restorable resources of the
    scope are emptied and no other: the rows of every other table, the raw
    snapshots (which the restore reads next) and the cursors stay.  Without
    the flag nothing is done. *)
Theorem truncate_first_empties_the_scope_tables :
  ∀ scope_list d,
    (Restore.maybe_truncate scope_list true d).2 = Ok tt ∧
    (∀ t, t ∈ scope_list → t ∈ Restore.RESTORE_ORDER →
          table t (Restore.maybe_truncate scope_list true d).1 = ∅) ∧
    (∀ t, t ∉ scope_list →
          table t (Restore.maybe_truncate scope_list true d).1 = table t d) ∧
    raw_snapshots (Restore.maybe_truncate scope_list true d).1 = raw_snapshots d ∧
    sync_state (Restore.maybe_truncate scope_list true d).1 = sync_state d ∧
    Restore.maybe_truncate scope_list false d = (d, Ok tt).
Proof.
  intros scope_list d.
  destruct (maybe_truncate_rows scope_list d) as (Hok & Hraw & Hss & Hrows).
  split; [exact Hok|]. split; [|split; [|by repeat split]].
  - intros t Hin Ht. apply table_empty. intros k. rewrite Hrows.
    by rewrite bool_decide_eq_true_2.
  - intros t Hin. apply table_unchanged. intros k. rewrite Hrows.
    rewrite bool_decide_eq_false_2; [done|]. by intros [? _].
Qed.

(** *** The counts *)

(** The loop over the rows of a resource always comes to its end, with a
    count between the one it started from and that count plus the number
    of rows. *)
Lemma restore_rows_returns fn dry_run rows seen_ids restored d :
  ∃ n, (Restore.restore_rows E fn dry_run rows seen_ids restored d).2 = Ok n ∧
       restored ≤ n ≤ restored + Z.of_nat (length rows).
Proof.
  revert seen_ids restored d.
  induction rows as [|[entity_id payload] rows IH]; intros seen_ids restored d.
  { exists restored. simpl. split; [done|lia]. }
  cbn [Restore.restore_rows length].
  destruct (decide (entity_id ∈ seen_ids)) as [Hseen|Hnew].
  { destruct (IH seen_ids restored d) as (n & Hn & Hb). exists n. split; [done|lia]. }
  destruct (Restore.decode_payload E payload) as [payload'|].
  2: { destruct (IH seen_ids restored d) as (n & Hn & Hb). exists n. split; [done|lia]. }
  destruct dry_run.
  { destruct (IH ({[entity_id]} ∪ seen_ids) (restored + 1) d) as (n & Hn & Hb).
    exists n. split; [done|lia]. }
  unfold bind at 1. unfold try_except, bind, ret.
  destruct (fn payload' d) as [d1 [[]|e]]; cbn [fst snd].
  - destruct (IH ({[entity_id]} ∪ seen_ids) (restored + 1) d1) as (n & Hn & Hb).
    exists n. split; [done|lia].
  - destruct (IH seen_ids restored d1) as (n & Hn & Hb). exists n. split; [done|lia].
Qed.




Lemma restore_resources_offset offset dry_run scope_list d :
  Restore.restore_resources E None offset dry_run scope_list d
  = Restore.restore_resources E None 0 dry_run scope_list d.
Proof.
  revert d. induction scope_list as [|resource rest IH]; intros d; [done|].
  cbn [Restore.restore_resources]. unfold bind, lift.
  destruct (Restore.restorer E resource) as [fn|]; [|done].
  unfold Restore.load_raw_rows.
  destruct (Restore.restore_rows E fn dry_run _ ∅ 0 d) as [d1 [n|e]]; [|done].
  by rewrite IH.
Qed.

(** X20. [LIMIT] and [OFFSET] are added to the query together, and only when a
    limit is given: without [--limit] the offset has no effect on what
    [restore] does. *)
Theorem offset_without_limit_is_ignored :
  ∀ scope offset truncate_first dry_run d,
    Restore.restore E scope None offset truncate_first dry_run d
    = Restore.restore E scope None 0 truncate_first dry_run d.
Proof.
  intros scope offset truncate_first dry_run d. unfold Restore.restore, bind, lift.
  destruct (Restore.scope_list_of E scope) as [scope_list|e]; [|done].
  destruct (Restore.maybe_truncate scope_list truncate_first d) as [d1 [[]|e]]; [|done].
  apply restore_resources_offset.
Qed.

End RestoreDriver.

Lemma unknown_scope_witness :
  ("users, Bogus,tickets" ≠ "all" ∧
   Restore.split_comma "users, Bogus,tickets" = ["users"] ++ " Bogus" :: ["tickets"] ∧
   scope_name test_env " Bogus" = "bogus") ∧
  Restore.restore test_env "users, Bogus,tickets" None 0 true false one_user_db
  = (one_user_db, Raise (SystemExit "bogus")).
Proof.
  split; [by repeat split|].
  apply (unknown_scope_stops_restore_before_any_write test_env
           "users, Bogus,tickets" ["users"] " Bogus" ["tickets"]).
  - discriminate.
  - reflexivity.
  - apply Forall_singleton. right. vm_compute. apply list_elem_of_here.
  - discriminate.
  - apply (bool_decide_unpack _). vm_compute. exact I.
Defined.


(** ** Restore: what a dry run counts *)

#[local] Set Warnings "-clear-no-such-hyp".

(** The ids a dry run has counted and the real run has not restored. *)
Lemma size_difference_seen (id : Z) (seen_r seen_d : gset Z) :
  id ∈ seen_d → id ∉ seen_r →
  size (seen_d ∖ seen_r) = S (size (seen_d ∖ ({[id]} ∪ seen_r))).
Proof.
  intros Hd Hr.
  assert (Heq : seen_d ∖ seen_r = {[id]} ∪ seen_d ∖ ({[id]} ∪ seen_r)).
  { apply set_eq. intros x. destruct (decide (x = id)); set_solver. }
  rewrite Heq, size_union, size_singleton; [done|set_solver].
Qed.

Lemma size_difference_counted (id : Z) (seen_r seen_d : gset Z) :
  id ∉ seen_d → seen_r ⊆ seen_d →
  size (({[id]} ∪ seen_d) ∖ seen_r) = S (size (seen_d ∖ seen_r)).
Proof.
  intros Hd Hsub.
  assert (Heq : ({[id]} ∪ seen_d) ∖ seen_r = {[id]} ∪ seen_d ∖ seen_r) by set_solver.
  rewrite Heq, size_union, size_singleton; [done|set_solver].
Qed.

Lemma difference_both_seen (id : Z) (seen_r seen_d : gset Z) :
  id ∉ seen_d → ({[id]} ∪ seen_d) ∖ ({[id]} ∪ seen_r) = seen_d ∖ seen_r.
Proof. set_solver. Qed.

Lemma NoDup_fst_agree {A B} (l : list (A * B)) x y1 y2 :
  NoDup l.*1 → (x, y1) ∈ l → (x, y2) ∈ l → y1 = y2.
Proof.
  induction l as [|[a b] l IH]; simpl; [by intros _ ?%elem_of_nil|].
  intros [Ha Hnd]%NoDup_cons [[= -> ->]|H1]%elem_of_cons [[= ->]|H2]%elem_of_cons.
  - done.
  - exfalso. apply Ha. apply list_elem_of_fmap. by exists (a, y2).
  - subst. exfalso. apply Ha. apply list_elem_of_fmap. by exists (a, y1).
  - by apply IH.
Qed.

(** The rows of a resource, in the order of the query, depend on the raw
    snapshots of that resource only. *)
Lemma ordered_rows_agree resource d d' :
  (∀ id, raw_at resource id d = raw_at resource id d') →
  Restore.ordered_rows resource d = Restore.ordered_rows resource d'.
Proof.
  intros Hraw.
  assert (Hperm : Restore.ordered_rows resource d ≡ₚ Restore.ordered_rows resource d').
  { unfold Restore.ordered_rows. rewrite !(merge_sort_Permutation Restore.raw_order).
    apply NoDup_Permutation.
    - eapply NoDup_fmap_1, resource_rows_distinct.
    - eapply NoDup_fmap_1, resource_rows_distinct.
    - intros [id r]. rewrite !resource_rows_lookup. unfold raw_at in Hraw.
      by rewrite Hraw. }
  apply (StronglySorted_unique_strong Restore.raw_order); [|
    apply (StronglySorted_merge_sort Restore.raw_order)..|done].
  intros [id1 r1] [id2 r2] H1 H2 H12 H21.
  assert (Hid : id1 = id2).
  { revert H12 H21. unfold Restore.raw_order. simpl.
    destruct (raw_updated_at r1), (raw_updated_at r2); lia. }
  subst id2. f_equal.
  rewrite Hperm in H1.
  pose proof (ordered_rows_distinct resource d') as Hnd.
  by apply (NoDup_fst_agree _ id1 r1 r2 Hnd).
Qed.

Section RestoreCounts.
Variable E : env.

Lemma restorer_other_resource r i resource fn payload :
  r ≠ resource →
  Restore.restorer E resource = Some fn → preserves (raw_at r i) (fn payload).
Proof.
  intros Hne. unfold Restore.restorer, Restore.RESTORERS. simpl.
  repeat match goal with
         | |- context [String.eqb resource ?s] =>
             destruct (String.eqb_spec resource s) as [->|?];
             [intros [= <-];
              first [ apply (write_entity_other_resource E r i (Backup.User payload))
                    | apply (write_entity_other_resource E r i (Backup.Organization payload))
                    | apply (write_entity_other_resource E r i (Backup.Ticket payload))
                    | apply (write_entity_other_resource E r i (Backup.View payload))
                    | apply (write_entity_other_resource E r i (Backup.Trigger payload))
                    | apply (write_entity_other_resource E r i
                               (Backup.TriggerCategory payload))
                    | apply (write_entity_other_resource E r i (Backup.Macro payload)) ];
              exact Hne|]
         end.
  done.
Qed.

Lemma load_raw_rows_agree resource limit offset d d' :
  (∀ id, raw_at resource id d = raw_at resource id d') →
  (Restore.load_raw_rows resource limit offset d).2
  = (Restore.load_raw_rows resource limit offset d').2.
Proof.
  intros Hraw. unfold Restore.load_raw_rows.
  rewrite (ordered_rows_agree resource d d' Hraw).
  destruct limit as [l|]; [|done]. by destruct (_ || _).
Qed.

(** Over the same rows the real run restores at most what the dry run
    counts: an id the real run has marked was marked by the dry run, and
    the dry run is ahead by the ids it alone has marked. *)
Lemma restore_rows_counts fn rows seen_r seen_d n_r n_d d d0 restored counted :
  seen_r ⊆ seen_d →
  n_r + Z.of_nat (size (seen_d ∖ seen_r)) ≤ n_d →
  (Restore.restore_rows E fn false rows seen_r n_r d).2 = Ok restored →
  (Restore.restore_rows E fn true rows seen_d n_d d0).2 = Ok counted →
  restored ≤ counted.
Proof.
  revert seen_r seen_d n_r n_d d.
  induction rows as [|[id payload] rows IH]; intros seen_r seen_d n_r n_d d Hsub Hn.
  { simpl. intros [= <-] [= <-]. lia. }
  cbn [Restore.restore_rows].
  destruct (decide (id ∈ seen_r)) as [Hr|Hr].
  { destruct (decide (id ∈ seen_d)) as [Hd|Hd]; [by apply IH|]. set_solver. }
  destruct (Restore.decode_payload E payload) as [payload'|].
  2: { destruct (decide (id ∈ seen_d)); by apply IH. }
  unfold bind at 1. unfold try_except, bind, ret.
  destruct (fn payload' d) as [d1 [[]|e]]; cbn [fst snd];
    destruct (decide (id ∈ seen_d)) as [Hd|Hd]; apply IH.
  - set_solver.
  - rewrite (size_difference_seen id) in Hn by done. lia.
  - set_solver.
  - rewrite difference_both_seen by done. lia.
  - done.
  - done.
  - set_solver.
  - rewrite size_difference_counted by done. lia.
Qed.

Lemma restore_resources_counts limit offset scope_list d_r d_d restored counted :
  NoDup scope_list →
  (∀ r id, r ∈ scope_list → raw_at r id d_r = raw_at r id d_d) →
  (Restore.restore_resources E limit offset false scope_list d_r).2 = Ok restored →
  (Restore.restore_resources E limit offset true scope_list d_d).2 = Ok counted →
  Forall2 (λ c r, c.1 = r.1 ∧ r.2 ≤ c.2) counted restored.
Proof.
  intros Hnd. revert d_r restored counted.
  induction Hnd as [|resource rest Hnew _ IH]; intros d_r restored counted Hraw.
  { simpl. intros [= <-] [= <-]. constructor. }
  cbn [Restore.restore_resources]. unfold bind, lift, ret.
  destruct (Restore.restorer E resource) as [fn|] eqn:Hfn; [|done].
  pose proof (load_raw_rows_agree resource limit offset d_r d_d
                (λ id, Hraw resource id (list_elem_of_here _ _))) as Hrows.
  pose proof (load_raw_rows_pure resource limit offset d_r) as Hr1.
  pose proof (load_raw_rows_pure resource limit offset d_d) as Hd1.
  destruct (Restore.load_raw_rows resource limit offset d_r) as [? [rows|e]];
    destruct (Restore.load_raw_rows resource limit offset d_d) as [? [rows'|e']];
    simpl in Hrows, Hr1, Hd1; subst; try done.
  injection Hrows as <-.
  pose proof (restore_rows_counts fn rows ∅ ∅ 0 0 d_r d_d) as Hcount.
  pose proof (restore_rows_dry_run E fn rows ∅ 0 d_d) as Hdry.
  assert (Hframe : ∀ r id, r ∈ rest →
            raw_at r id (Restore.restore_rows E fn false rows ∅ 0 d_r).1 = raw_at r id d_r).
  { intros r id Hin.
    apply (restore_rows_other_table E (raw_at r id) fn false rows ∅ 0).
    intros payload. apply (restorer_other_resource r id resource); [|done].
    intros ->. done. }
  destruct (Restore.restore_rows E fn false rows ∅ 0 d_r) as [d_r1 [n_r|e]]; [|done].
  destruct (Restore.restore_rows E fn true rows ∅ 0 d_d) as [d_d1 [n_d|e]]; [|done].
  simpl in Hdry, Hframe. subst d_d1.
  specialize (IH d_r1).
  destruct (Restore.restore_resources E limit offset false rest d_r1) as [? [cr|e]];
    [|done].
  destruct (Restore.restore_resources E limit offset true rest d_d) as [? [cd|e]];
    [|done].
  simpl. intros [= <-] [= <-]. constructor.
  - simpl. split; [done|]. apply (Hcount n_r n_d); [done| |done|done].
    by rewrite difference_diag_L, size_empty.
  - apply IH; [|done|done].
    intros r id Hin. rewrite Hframe by done. apply Hraw. by apply list_elem_of_further.
Qed.

(** X22. A dry run counts, for every resource of a scope without repetition, at
    least the rows the same restore would write: it counts every row
    whose payload parses and cannot tell the rows a restorer will
    refuse. *)
Theorem dry_run_counts_at_least_what_is_restored :
  ∀ scope scope_list limit offset truncate_first d counted restored,
    Restore.scope_list_of E scope = Ok scope_list →
    NoDup scope_list →
    (Restore.restore E scope limit offset truncate_first true d).2 = Ok counted →
    (Restore.restore E scope limit offset truncate_first false d).2 = Ok restored →
    Forall2 (λ c r, c.1 = r.1 ∧ r.2 ≤ c.2) counted restored.
Proof.
  intros scope scope_list limit offset truncate_first d counted restored Hscope Hnd.
  unfold Restore.restore. rewrite Hscope. unfold bind at 1 3. unfold lift.
  unfold bind.
  destruct (Restore.maybe_truncate scope_list truncate_first d) as [d1 [[]|e]]; [|done].
  intros Hc Hr. by apply (restore_resources_counts limit offset scope_list d1 d1).
Qed.

End RestoreCounts.

(** A store with the snapshot of a user and a snapshot that is no user. *)
Definition damaged_db : db :=
  with_raw (insert ("users", 8) {| raw_updated_at := None; raw_payload := JNum 8 |})
    one_user_db.

Lemma dry_run_counts_witness :
  (Restore.restore test_env "all" None 0 false true damaged_db).2
    = Ok [("users", 2); ("organizations", 0); ("tickets", 0); ("views", 0);
          ("triggers", 0); ("trigger_categories", 0); ("macros", 0)] ∧
  (Restore.restore test_env "all" None 0 false false damaged_db).2
    = Ok [("users", 1); ("organizations", 0); ("tickets", 0); ("views", 0);
          ("triggers", 0); ("trigger_categories", 0); ("macros", 0)] ∧
  Forall2 (λ c r : string * Z, c.1 = r.1 ∧ r.2 ≤ c.2)
    [("users", 2); ("organizations", 0); ("tickets", 0); ("views", 0);
     ("triggers", 0); ("trigger_categories", 0); ("macros", 0)]
    [("users", 1); ("organizations", 0); ("tickets", 0); ("views", 0);
     ("triggers", 0); ("trigger_categories", 0); ("macros", 0)].
Proof.
  assert (Hdry : (Restore.restore test_env "all" None 0 false true damaged_db).2
           = Ok [("users", 2); ("organizations", 0); ("tickets", 0); ("views", 0);
                 ("triggers", 0); ("trigger_categories", 0); ("macros", 0)])
    by (vm_compute; reflexivity).
  assert (Hreal : (Restore.restore test_env "all" None 0 false false damaged_db).2
           = Ok [("users", 1); ("organizations", 0); ("tickets", 0); ("views", 0);
                 ("triggers", 0); ("trigger_categories", 0); ("macros", 0)])
    by (vm_compute; reflexivity).
  split; [exact Hdry|]. split; [exact Hreal|].
  apply (dry_run_counts_at_least_what_is_restored test_env "all" Restore.RESTORE_ORDER
           None 0 false damaged_db _ _ eq_refl); [|exact Hdry|exact Hreal].
  apply (bool_decide_unpack _). vm_compute. exact I.
Defined.

(** ** The Writer: what one upsert writes *)

(** The key of the structured row of an entity, the id of its raw snapshot
    and the time handed to [upsert_raw], as the statements of the Writer
    take them from the payload. *)
Definition entity_key (E : env) (e : Backup.entity) : option pkey :=
  match payload_of e with
  | JObj o =>
      match e with
      | Backup.TriggerCategory _ => Some (inr (py_str E (get o "id")))
      | _ => bigint_key E (Val (get o "id"))
      end
  | _ => None
  end.

Definition entity_raw_id (E : env) (e : Backup.entity) : result Z :=
  match payload_of e with
  | JObj o =>
      match e with
      | Backup.TriggerCategory _ => Backup.category_entity_id E o
      | _ => Backup.int_id E o
      end
  | _ => Raise AttributeError
  end.

Definition entity_updated_at (e : Backup.entity) : json :=
  match payload_of e with
  | JObj o =>
      match e with
      | Backup.Comment _ _ => py_or (get o "updated_at") (get o "created_at")
      | Backup.Attachment _ _ _ _ => get o "created_at"
      | _ => get o "updated_at"
      end
  | _ => JNull
  end.

Section WriterRows.
Variable E : env.

(** What [insert_row] stores, and under which key. *)
Lemma insert_row_stored t key c id columns d d' :
  insert_row E t key ((c, id) :: columns) d = (d', Ok tt) →
  ∃ k, key id = Some k ∧ d' = with_structured (insert (t, k) columns) d.
Proof.
  unfold insert_row. destruct (key id) as [k|]; [|done].
  destruct (pg_accepts E t _); [|done]. intros [= <-]. by exists k.
Qed.

Lemma upsert_stored t key c id columns (n : result Z) resource updated_at payload d d' :
  (insert_row E t key ((c, id) :: columns) ;;;
   i <- lift n ;;
   Backup.upsert_raw E resource i updated_at payload) d = (d', Ok tt) →
  ∃ k i, key id = Some k ∧ n = Ok i ∧
         d' = with_raw (insert (resource, i)
                          {| raw_updated_at := Backup.parse_dt E updated_at;
                             raw_payload := payload |})
                (with_structured (insert (t, k) columns) d).
Proof.
  unfold bind, lift.
  destruct (insert_row E t key _ d) as [d1 [[]|e]] eqn:Hrow; [|done].
  apply insert_row_stored in Hrow as (k & Hk & ->).
  destruct n as [i|e]; [|done].
  intros ->%upsert_raw_written. by exists k, i.
Qed.

Lemma upsert_other_row t key c id columns (n : result Z) resource updated_at payload t' k' :
  (t' = t → key id ≠ Some k') →
  preserves (row_at t' k')
    (insert_row E t key ((c, id) :: columns) ;;;
     i <- lift n ;;
     Backup.upsert_raw E resource i updated_at payload).
Proof.
  intros Hne. apply preserves_bind; [|intros _; apply preserves_bind;
    [apply preserves_lift|intros i d; unfold row_at; by rewrite upsert_raw_structured]].
  intros d. unfold insert_row, row_at.
  destruct (key id) as [k|] eqn:Hk; [|done].
  destruct (pg_accepts E t _); [|done]. simpl.
  apply lookup_insert_ne. intros [= <- <-]. by apply Hne.
Qed.

Lemma upsert_row t key c id columns (n : result Z) resource updated_at payload d k :
  key id = Some k →
  ((insert_row E t key ((c, id) :: columns) ;;;
    i <- lift n ;;
    Backup.upsert_raw E resource i updated_at payload) d).2 = Ok tt →
  row_at t k ((insert_row E t key ((c, id) :: columns) ;;;
               i <- lift n ;;
               Backup.upsert_raw E resource i updated_at payload) d).1 = Some columns.
Proof.
  intros Hk. unfold bind, lift, insert_row. rewrite Hk.
  destruct (pg_accepts E t _); [|done].
  destruct n as [i|e]; [|done]. unfold Backup.upsert_raw.
  destruct (pg_accepts E "raw_snapshots" _); [|done].
  intros _. unfold row_at. simpl. by rewrite lookup_insert_eq.
Qed.

(** An upsert writes no structured row but the one under the key of its
    entity, whether it returns or raises. *)
Lemma write_entity_other_row e t k :
  (t = entity_table e → entity_key E e ≠ Some k) →
  preserves (row_at t k) (Backup.write_entity E e).
Proof.
  destruct e as [j|j|j|? j|? ? j ?|j|j|j|j]; simpl; destruct j as [| | | | |o];
    try (intros _; apply preserves_raise);
    unfold entity_key; cbn [payload_of]; intros Hne;
    apply upsert_other_row; intros Ht; exact (Hne Ht).
Qed.

(** The row an upsert stores depends on the entity alone. *)
Lemma write_entity_row_fixed e k d1 d2 :
  entity_key E e = Some k →
  (Backup.write_entity E e d1).2 = Ok tt →
  (Backup.write_entity E e d2).2 = Ok tt →
  row_at (entity_table e) k (Backup.write_entity E e d1).1
  = row_at (entity_table e) k (Backup.write_entity E e d2).1.
Proof.
  destruct e as [j|j|j|? j|? ? j ?|j|j|j|j]; destruct j as [| | | | |o];
    try done; unfold entity_key; cbn [payload_of entity_table]; intros Hk H1 H2;
    (etransitivity;
     [apply upsert_row; [exact Hk|exact H1]
     |symmetry; apply upsert_row; [exact Hk|exact H2]]).
Qed.

Lemma write_entity_row_written e k d :
  entity_key E e = Some k →
  (Backup.write_entity E e d).2 = Ok tt →
  is_Some (row_at (entity_table e) k (Backup.write_entity E e d).1).
Proof.
  destruct e as [j|j|j|? j|? ? j ?|j|j|j|j]; destruct j as [| | | | |o];
    try done; unfold entity_key; cbn [payload_of entity_table]; intros Hk H1;
    (eexists; apply upsert_row; [exact Hk|exact H1]).
Qed.

(** X1. An upsert that returns has written one structured row, under the key
    of the entity, and one raw snapshot, under the resource and the id of
    the entity: the snapshot holds the payload as it was received, with the
    update time read by [parse_dt].  Every other row, every other snapshot
    and the cursors are as they were. *)
Theorem upsert_writes_one_row_and_the_payload_as_received :
  ∀ e d d',
    Backup.write_entity E e d = (d', Ok tt) →
    ∃ k n,
      entity_key E e = Some k ∧
      entity_raw_id E e = Ok n ∧
      is_Some (row_at (entity_table e) k d') ∧
      raw_at (entity_resource e) n d'
      = Some {| raw_updated_at := Backup.parse_dt E (entity_updated_at e);
                raw_payload := payload_of e |} ∧
      (∀ t k', (t, k') ≠ (entity_table e, k) → row_at t k' d' = row_at t k' d) ∧
      (∀ r i, (r, i) ≠ (entity_resource e, n) → raw_at r i d' = raw_at r i d) ∧
      sync_state d' = sync_state d.
Proof.
  intros e d d' Hw.
  destruct e as [j|j|j|? j|? ? j ?|j|j|j|j]; simpl in Hw; destruct j as [| | | | |o];
    try done;
    apply upsert_stored in Hw as (k & n & Hk & Hn & ->);
    exists k, n; unfold entity_key, entity_raw_id, entity_updated_at, row_at, raw_at;
    cbn [payload_of entity_table entity_resource with_raw with_structured
         structured raw_snapshots sync_state];
    (split; [first [exact Hk | by injection Hk as <-]|]);
    (split; [exact Hn|]);
    (split; [by rewrite lookup_insert_eq|]);
    (split; [by rewrite lookup_insert_eq|]);
    (split; [intros t k' Hne; by rewrite lookup_insert_ne|]);
    (split; [intros r i Hne; by rewrite lookup_insert_ne|]);
    reflexivity.
Qed.

(** The ways an upsert raises: the structured statement is refused, and
    nothing is written; or the row is written and then the id is not read,
    or the snapshot is refused. *)
Lemma upsert_failed t key c id columns (n : result Z) resource updated_at payload d x :
  ((insert_row E t key ((c, id) :: columns) ;;;
    i <- lift n ;;
    Backup.upsert_raw E resource i updated_at payload) d).2 = Raise x →
  (x = DatabaseError t ∧
   (insert_row E t key ((c, id) :: columns) ;;;
    i <- lift n ;;
    Backup.upsert_raw E resource i updated_at payload) d = (d, Raise x)) ∨
  (∃ k, key id = Some k ∧
        (n = Raise x ∨ x = DatabaseError "raw_snapshots") ∧
        (insert_row E t key ((c, id) :: columns) ;;;
         i <- lift n ;;
         Backup.upsert_raw E resource i updated_at payload) d
        = (with_structured (insert (t, k) columns) d, Raise x)).
Proof.
  unfold bind, lift, insert_row.
  destruct (key id) as [k|]; [|intros [= <-]; by left].
  destruct (pg_accepts E t _); [|intros [= <-]; by left].
  destruct n as [i|e].
  - unfold Backup.upsert_raw. destruct (pg_accepts E "raw_snapshots" _); [done|].
    intros [= <-]. right. exists k. split; [done|]. split; [by right|done].
  - intros [= <-]. right. exists k. split; [done|]. split; [by left|done].
Qed.

Lemma int_id_errors o x :
  Backup.int_id E o = Raise x → x ≠ AttributeError ∧ ∀ t, x ≠ DatabaseError t.
Proof.
  unfold Backup.int_id, item, py_int.
  destruct (assoc "id" o) as [[| [] | |s| |]|]; try (by intros [= <-]).
  destruct (int_of_str E s); [done|by intros [= <-]].
Qed.

Lemma category_entity_id_errors o x :
  Backup.category_entity_id E o = Raise x → x ≠ AttributeError ∧ ∀ t, x ≠ DatabaseError t.
Proof.
  unfold Backup.category_entity_id. destruct (Backup.int_id E o); [done|].
  unfold item. destruct (assoc "id" o); [done|]. by intros [= <-].
Qed.

Lemma entity_raw_id_errors e x :
  entity_raw_id E e = Raise x → x = AttributeError ∨ x ≠ AttributeError ∧ ∀ t, x ≠ DatabaseError t.
Proof.
  unfold entity_raw_id. destruct (payload_of e); try (intros [= <-]; by left).
  intros Hx. right. destruct e; first [by apply int_id_errors in Hx
                                      |by apply category_entity_id_errors in Hx].
Qed.

(** X2. An upsert that raises has written no raw snapshot and moved no cursor:
    the snapshot is the last statement of every upsert.  When the entity is
    no dict, or when it is the structured statement that the server
    refuses, nothing at all was written; when the id cannot be read as an
    integer afterwards, or the server refuses the snapshot, the structured
    row stays (the connection commits every statement). *)
Theorem failed_upsert_leaves_no_snapshot :
  ∀ e d x,
    (Backup.write_entity E e d).2 = Raise x →
    raw_snapshots (Backup.write_entity E e d).1 = raw_snapshots d ∧
    sync_state (Backup.write_entity E e d).1 = sync_state d ∧
    (x = AttributeError ∨ x = DatabaseError (entity_table e) →
     (Backup.write_entity E e d).1 = d) ∧
    (x ≠ AttributeError → x ≠ DatabaseError (entity_table e) →
     ∃ k, entity_key E e = Some k ∧
          is_Some (row_at (entity_table e) k (Backup.write_entity E e d).1)).
Proof.
  intros e d x Hx.
  assert (Hshape :
    (Backup.write_entity E e d = (d, Raise x) ∧
     (x = AttributeError ∨ x = DatabaseError (entity_table e))) ∨
    (∃ k columns, entity_key E e = Some k ∧
       (entity_raw_id E e = Raise x ∨ x = DatabaseError "raw_snapshots") ∧
       (∃ o, payload_of e = JObj o) ∧
       Backup.write_entity E e d
       = (with_structured (insert (entity_table e, k) columns) d, Raise x))).
  { destruct e as [j|j|j|? j|? ? j ?|j|j|j|j]; simpl in Hx |- *;
      destruct j as [| | | | |o];
      try (injection Hx as <-; left; split; [done|by left]);
      (apply upsert_failed in Hx as [[-> Hrun]|(k & Hk & Hwhy & Hrun)];
       [left; split; [exact Hrun|by right]
       |right; exists k; eexists; unfold entity_key, entity_raw_id; cbn [payload_of];
        split; [first [exact Hk|by injection Hk as <-]|];
        split; [exact Hwhy|]; split; [by eexists|exact Hrun]]). }
  destruct Hshape as [[Hrun Hwhy]|(k & columns & Hk & Hwhy & [o Ho] & Hrun)].
  - rewrite Hrun. simpl. split; [done|]. split; [done|]. split; [done|].
    intros H1 H2. by destruct Hwhy.
  - rewrite Hrun. simpl. split; [done|]. split; [done|].
    assert (Hnot : x ≠ AttributeError ∧ x ≠ DatabaseError (entity_table e)).
    { destruct Hwhy as [Hid| ->].
      - apply entity_raw_id_errors in Hid as Hcases.
        destruct Hcases as [->|[H1 H2]]; [|by split].
        exfalso. revert Hid. unfold entity_raw_id. rewrite Ho.
        intros Hid. destruct e; first [by apply int_id_errors in Hid as [? _]
                                      |by apply category_entity_id_errors in Hid as [? _]].
      - split; [done|]. by destruct e. }
    destruct Hnot as [H1 H2]. split; [by intros [?|?]|].
    intros _ _. exists k. split; [done|]. unfold row_at. simpl.
    by rewrite lookup_insert_eq.
Qed.

(** X3. The keys of a trigger category.  The structured row is kept under the
    text [str(c.get("id"))]; the raw snapshot under [int(c["id"])] and,
    when that raises, under a number of [0 .. 10**15 - 1] taken from the
    hash of that text.  A category whose payload has no id is therefore
    stored under the text [None], and [KeyError] is raised before any
    snapshot is written. *)
Theorem trigger_category_keys :
  (∀ o d d',
     Backup.upsert_trigger_category E (JObj o) d = (d', Ok tt) →
     ∃ n,
       is_Some (row_at "trigger_categories" (inr (py_str E (get o "id"))) d') ∧
       is_Some (raw_at "trigger_categories" n d') ∧
       (Backup.int_id E o = Ok n ∨
        (∃ x, Backup.int_id E o = Raise x) ∧
        n = Z.abs (py_hash E (py_str E (get o "id"))) `mod` 10 ^ 15 ∧
        0 ≤ n < 10 ^ 15)) ∧
  (∀ o d,
     assoc "id" o = None →
     pg_accepts E "trigger_categories" (Backup.trigger_category_params E o) = true →
     (Backup.upsert_trigger_category E (JObj o) d).2 = Raise (KeyError "id") ∧
     row_at "trigger_categories" (inr "None") (Backup.upsert_trigger_category E (JObj o) d).1
     = Some (tail (Backup.trigger_category_params E o)) ∧
     raw_snapshots (Backup.upsert_trigger_category E (JObj o) d).1 = raw_snapshots d).
Proof.
  split.
  - intros o d d' Hw. unfold Backup.upsert_trigger_category in Hw.
    apply upsert_stored in Hw as (k & n & Hk & Hn & ->).
    injection Hk as <-. exists n. unfold row_at, raw_at. simpl.
    rewrite !lookup_insert_eq. split; [by eexists|]. split; [by eexists|].
    revert Hn. unfold Backup.category_entity_id.
    destruct (Backup.int_id E o) as [i|x]; [intros [= ->]; by left|].
    unfold item. destruct (assoc "id" o) as [v|] eqn:Hv; [|done].
    intros [= <-]. right. split; [by eexists|].
    unfold get. rewrite Hv. simpl. split; [done|].
    apply Z.mod_pos_bound. lia.
  - intros o d Hid Hok. unfold Backup.upsert_trigger_category, bind, lift, insert_row.
    change (Backup.trigger_category_params E o)
      with (("id", Val (JStr (py_str E (get o "id")))) ::
            tail (Backup.trigger_category_params E o)) in Hok |- *.
    cbn [text_key]. rewrite Hok.
    unfold Backup.category_entity_id, Backup.int_id, item. rewrite Hid.
    unfold get. rewrite Hid. simpl. unfold row_at. simpl.
    by rewrite lookup_insert_eq.
Qed.

(** X4. [parse_dt] never raises: a value that is no string and the empty
    string give no time.  Every [Z] of a string is read as the offset
    [+00:00], so a time written with [Z] and the same time written with
    the offset are the same to the Writer. *)
Theorem parse_dt_reads_Z_as_the_utc_offset :
  (∀ j, (∀ s, j ≠ JStr s) → Backup.parse_dt E j = None) ∧
  Backup.parse_dt E (JStr "") = None ∧
  (∀ s, s ≠ "" → Backup.parse_dt E (JStr s) = fromisoformat E (replace_Z s)) ∧
  (∀ s, Backup.parse_dt E (JStr (replace_Z s)) = Backup.parse_dt E (JStr s)).
Proof.
  assert (Hidem : ∀ s, replace_Z (replace_Z s) = replace_Z s).
  { induction s as [|c s IH]; [done|]. simpl.
    destruct (Ascii.eqb c "Z") eqn:Hc; simpl; [cbv [String.append]; by rewrite IH|].
    by rewrite Hc, IH. }
  split; [|split; [done|split]].
  - intros j Hj. unfold Backup.parse_dt. destruct j; try by destruct (truthy _).
    by destruct (Hj s).
  - intros s Hs. unfold Backup.parse_dt. simpl.
    apply String.eqb_neq in Hs. by rewrite Hs.
  - intros [|c s]; [done|]. unfold Backup.parse_dt. rewrite Hidem.
    replace (truthy (JStr (replace_Z (String c s)))) with true; [done|].
    simpl. by destruct (Ascii.eqb c "Z").
Qed.

End WriterRows.

Lemma upsert_writes_one_row_witness :
  ∃ k n,
    entity_key test_env (Backup.User stored_user) = Some k ∧
    entity_raw_id test_env (Backup.User stored_user) = Ok n ∧
    is_Some (row_at "users" k one_user_db) ∧
    raw_at "users" n one_user_db
    = Some {| raw_updated_at :=
                Backup.parse_dt test_env (entity_updated_at (Backup.User stored_user));
              raw_payload := stored_user |} ∧
    (∀ t k', (t, k') ≠ ("users", k) → row_at t k' one_user_db = row_at t k' empty_db) ∧
    (∀ r i, (r, i) ≠ ("users", n) → raw_at r i one_user_db = raw_at r i empty_db) ∧
    sync_state one_user_db = sync_state empty_db.
Proof.
  apply (upsert_writes_one_row_and_the_payload_as_received test_env
           (Backup.User stored_user) empty_db one_user_db).
  reflexivity.
Defined.

(** A user whose id is text that is no number: the server refuses the row. *)
Lemma failed_upsert_witness :
  (Backup.write_entity test_env (Backup.User (JObj [("id", JStr "seven")])) one_user_db).2
    = Raise (DatabaseError "users") ∧
  (Backup.write_entity test_env (Backup.User (JObj [("id", JStr "seven")])) one_user_db).1
    = one_user_db.
Proof.
  split; [reflexivity|].
  apply (failed_upsert_leaves_no_snapshot test_env
           (Backup.User (JObj [("id", JStr "seven")])) one_user_db
           (DatabaseError "users") eq_refl).
  by right.
Defined.

(** ** Restore after backup: the rows are rebuilt from the snapshots *)

(** The restorable resources and the kind of entity each one holds. *)
Definition restorable_kinds : list (string * (json → Backup.entity)) :=
  [("users", Backup.User); ("organizations", Backup.Organization);
   ("tickets", Backup.Ticket); ("views", Backup.View); ("triggers", Backup.Trigger);
   ("trigger_categories", Backup.TriggerCategory); ("macros", Backup.Macro)].

(** Every snapshot of the resource holds a dict whose id is the number the
    snapshot is kept under: what the Writer leaves when the ids of the
    entities are numbers. *)
Definition well_keyed (resource : string) (d : db) : Prop :=
  ∀ i r, raw_at resource i d = Some r →
         ∃ o, raw_payload r = JObj o ∧ get o "id" = JNum i.

Section RestoreRebuilds.
Variable E : env.

Lemma restorer_kind resource fn :
  Restore.restorer E resource = Some fn →
  ∃ kind, (resource, kind) ∈ restorable_kinds ∧
          fn = (λ payload, Backup.write_entity E (kind payload)).
Proof.
  unfold Restore.restorer, Restore.RESTORERS, restorable_kinds. simpl.
  repeat match goal with
         | |- context [String.eqb resource ?s] =>
             destruct (String.eqb_spec resource s) as [->|?];
             [intros [= <-]; eexists; split; [in_written_list|reflexivity]|]
         end.
  done.
Qed.

Lemma restorable_kind_tables resource kind payload :
  (resource, kind) ∈ restorable_kinds →
  entity_table (kind payload) = resource ∧ entity_resource (kind payload) = resource ∧
  payload_of (kind payload) = payload ∧
  Restore.restorer E resource = Some (λ p, Backup.write_entity E (kind p)) ∧
  resource ∈ Restore.RESTORE_ORDER.
Proof.
  unfold restorable_kinds. intros Hin.
  repeat (apply elem_of_cons in Hin as [[= -> ->]|Hin];
          [repeat split; listed|]).
  by apply elem_of_nil in Hin.
Qed.

Lemma restorable_kind_key resource kind o :
  (resource, kind) ∈ restorable_kinds → resource ≠ "trigger_categories" →
  entity_key E (kind (JObj o)) = bigint_key E (Val (get o "id")).
Proof.
  unfold restorable_kinds. intros Hin Hne.
  repeat (apply elem_of_cons in Hin as [[= -> ->]|Hin]; [done|]).
  by apply elem_of_nil in Hin.
Qed.

(** The restorer of another resource leaves the rows of a table. *)
Lemma restorer_other_rows t k resource fn payload :
  t ≠ resource →
  Restore.restorer E resource = Some fn → preserves (row_at t k) (fn payload).
Proof.
  intros Hne Hfn. apply restorer_kind in Hfn as (kind & Hkind & ->).
  apply write_entity_other_table.
  destruct (restorable_kind_tables resource kind payload Hkind) as (-> & _). done.
Qed.

Lemma restore_resources_other_rows t k limit offset dry_run scope_list :
  t ∉ scope_list →
  preserves (row_at t k) (Restore.restore_resources E limit offset dry_run scope_list).
Proof.
  induction scope_list as [|resource rest IH]; intros Ht; simpl.
  - apply preserves_ret.
  - apply not_elem_of_cons in Ht as [Hne Hrest].
    apply preserves_bind_lift. intros fn Hfn.
    destruct (Restore.restorer E resource) as [fn'|] eqn:Hr; [|done].
    injection Hfn as ->.
    apply preserves_bind;
      [intros d; by rewrite load_raw_rows_pure|intros rows].
    apply preserves_bind.
    + apply restore_rows_other_table. intros payload.
      by apply (restorer_other_rows t k resource).
    + intros restored. apply preserves_bind; [by apply IH|].
      intros counts. apply preserves_ret.
Qed.

Section OneResource.
Variables (resource : string) (kind : json → Backup.entity).
Hypothesis Hkind : (resource, kind) ∈ restorable_kinds.
Hypothesis Hbigint : resource ≠ "trigger_categories".

(** A row whose payload is keyed by another number leaves the row under
    [n]. *)
Lemma replay_other_rows n rows restored :
  n ∉ rows.*1 →
  (∀ i p, (i, p) ∈ rows → ∃ o, p = JObj o ∧ get o "id" = JNum i) →
  preserves (row_at resource (inl n))
    (replay E (λ payload, Backup.write_entity E (kind payload)) rows restored).
Proof.
  revert restored. induction rows as [|[i p] rows IH]; intros restored Hn Hrows.
  { apply preserves_ret. }
  apply not_elem_of_cons in Hn as [Hne Hn]. simpl in Hne.
  destruct (Hrows i p (list_elem_of_here _ _)) as (o & -> & Hid).
  assert (Hrest : ∀ i' p', (i', p') ∈ rows → ∃ o', p' = JObj o' ∧ get o' "id" = JNum i').
  { intros i' p' Hin. apply Hrows. by apply list_elem_of_further. }
  intros d. cbn [replay Restore.decode_payload].
  assert (Hrow : row_at resource (inl n) (Backup.write_entity E (kind (JObj o)) d).1
                 = row_at resource (inl n) d).
  { apply write_entity_other_row. intros _.
    rewrite (restorable_kind_key resource kind o Hkind Hbigint), Hid. simpl. congruence. }
  destruct (Backup.write_entity E (kind (JObj o)) d) as [d1 [[]|e]]; simpl in Hrow;
    rewrite <- Hrow; by apply IH.
Qed.

(** The row of the snapshot under [n] is the row the Writer stores for the
    payload of the snapshot. *)
Lemma replay_rebuilds n o rows restored d d0 :
  NoDup rows.*1 →
  (∀ i p, (i, p) ∈ rows → ∃ o', p = JObj o' ∧ get o' "id" = JNum i) →
  (n, JObj o) ∈ rows →
  (∀ d1, (Backup.write_entity E (kind (JObj o)) d1).2 = Ok tt) →
  row_at resource (inl n)
    (replay E (λ payload, Backup.write_entity E (kind payload)) rows restored d).1
  = row_at resource (inl n) (Backup.write_entity E (kind (JObj o)) d0).1.
Proof.
  intros Hnd Hrows Hin Hok. revert restored d Hnd Hrows Hin.
  induction rows as [|[i p] rows IH]; intros restored d Hnd Hrows Hin.
  { by apply elem_of_nil in Hin. }
  apply NoDup_cons in Hnd as [Hi Hnd].
  assert (Hrest : ∀ i' p', (i', p') ∈ rows → ∃ o', p' = JObj o' ∧ get o' "id" = JNum i').
  { intros i' p' Hin'. apply Hrows. by apply list_elem_of_further. }
  destruct (Hrows i p (list_elem_of_here _ _)) as (o' & -> & Hid).
  cbn [replay Restore.decode_payload].
  apply elem_of_cons in Hin as [[= <- <-]|Hin].
  - assert (Hkey : entity_key E (kind (JObj o)) = Some (inl n)).
    { by rewrite (restorable_kind_key resource kind o Hkind Hbigint), Hid. }
    pose proof (write_entity_row_fixed E (kind (JObj o)) (inl n) d d0 Hkey (Hok d) (Hok d0))
      as Hrow.
    destruct (restorable_kind_tables resource kind (JObj o) Hkind) as (Ht & _).
    rewrite Ht in Hrow. rewrite <- Hrow. specialize (Hok d).
    destruct (Backup.write_entity E (kind (JObj o)) d) as [d1 [[]|e]]; [|done].
    by apply replay_other_rows.
  - destruct (Backup.write_entity E (kind (JObj o')) d) as [d1 [[]|e]]; by apply IH.
Qed.

(** Restoring the resource: its rows are its snapshots, one per id. *)
Lemma restore_resource_rebuilds n o offset d d0 :
  well_keyed resource d →
  raw_payload <$> raw_at resource n d = Some (JObj o) →
  (∀ d1, (Backup.write_entity E (kind (JObj o)) d1).2 = Ok tt) →
  ∃ d' restored,
    ((rows <- Restore.load_raw_rows resource None offset ;;
      Restore.restore_rows E (λ payload, Backup.write_entity E (kind payload))
        false rows ∅ 0) d) = (d', Ok restored) ∧
    row_at resource (inl n) d'
    = row_at resource (inl n) (Backup.write_entity E (kind (JObj o)) d0).1.
Proof.
  intros Hkeyed Hsnap Hok. unfold bind, Restore.load_raw_rows.
  set (rows := (λ r : Z * raw_row, (r.1, raw_payload r.2)) <$>
               Restore.ordered_rows resource d).
  assert (Hin : ∀ i p, (i, p) ∈ rows ↔ raw_payload <$> raw_at resource i d = Some p).
  { intros i p. unfold rows. rewrite list_elem_of_fmap. split.
    - intros ([i' r] & [= -> ->] & Hr). simpl.
      unfold Restore.ordered_rows in Hr.
      rewrite (merge_sort_Permutation Restore.raw_order) in Hr.
      apply resource_rows_lookup in Hr. unfold raw_at. by rewrite Hr.
    - unfold raw_at. destruct (raw_snapshots d !! (resource, i)) as [r|] eqn:Hr; [|done].
      intros [= <-]. exists (i, r). split; [done|].
      unfold Restore.ordered_rows.
      rewrite (merge_sort_Permutation Restore.raw_order).
      by apply resource_rows_lookup. }
  assert (Hnd : NoDup rows.*1).
  { unfold rows. rewrite <- list_fmap_compose. apply ordered_rows_distinct. }
  assert (Hrows : ∀ i p, (i, p) ∈ rows → ∃ o', p = JObj o' ∧ get o' "id" = JNum i).
  { intros i p Hp. apply Hin in Hp.
    destruct (raw_at resource i d) as [r|] eqn:Hr; [|done].
    injection Hp as <-. by apply (Hkeyed i r). }
  rewrite restore_rows_distinct; [|done|intros id _; apply not_elem_of_empty].
  destruct (restore_rows_returns E (λ payload, Backup.write_entity E (kind payload))
              false rows ∅ 0 d) as (restored & Hret & _).
  rewrite restore_rows_distinct in Hret; [|done|intros id _; apply not_elem_of_empty].
  pose proof (replay_rebuilds n o rows 0 d d0 Hnd Hrows (proj2 (Hin n (JObj o)) Hsnap) Hok)
    as Hrow.
  destruct (replay E _ rows 0 d) as [d' r]. simpl in Hret. subst r.
  by exists d', restored.
Qed.

Lemma restore_resources_rebuild n o offset scope_list d d0 :
  NoDup scope_list →
  Forall (λ r, r ∈ Restore.RESTORE_ORDER) scope_list →
  resource ∈ scope_list →
  well_keyed resource d →
  raw_payload <$> raw_at resource n d = Some (JObj o) →
  (∀ d1, (Backup.write_entity E (kind (JObj o)) d1).2 = Ok tt) →
  row_at resource (inl n) (Restore.restore_resources E None offset false scope_list d).1
  = row_at resource (inl n) (Backup.write_entity E (kind (JObj o)) d0).1.
Proof.
  intros Hnd Hscope Hin Hkeyed Hsnap Hok. revert d Hnd Hin Hkeyed Hsnap.
  induction Hscope as [|r rest Hr _ IH]; intros d Hnd Hin Hkeyed Hsnap.
  { by apply elem_of_nil in Hin. }
  apply NoDup_cons in Hnd as [Hnew Hnd].
  cbn [Restore.restore_resources].
  destruct (decide (r = resource)) as [->|Hne].
  - destruct (restorable_kind_tables resource kind JNull Hkind) as (_ & _ & _ & Hfn & _).
    rewrite Hfn. unfold bind at 1. unfold lift.
    destruct (restore_resource_rebuilds n o offset d d0 Hkeyed Hsnap Hok)
      as (d' & restored & Hrun & Hrow).
    unfold bind in Hrun |- *.
    destruct (Restore.load_raw_rows resource None offset d) as [d1 [rows|e]]; [|done].
    rewrite Hrun.
    pose proof (restore_resources_other_rows resource (inl n) None offset false rest
                  Hnew d') as Hrest.
    destruct (Restore.restore_resources E None offset false rest d') as [d2 [counts|e]];
      simpl in Hrest |- *; by rewrite Hrest.
  - apply elem_of_cons in Hin as [->|Hin]; [done|].
    destruct (restorer_known E r Hr) as [fn Hfn]. rewrite Hfn.
    unfold bind at 1. unfold lift. unfold bind at 1.
    unfold Restore.load_raw_rows at 1.
    set (rows := (λ x : Z * raw_row, (x.1, raw_payload x.2)) <$> Restore.ordered_rows r d).
    unfold bind at 1.
    assert (Hraw : ∀ i, raw_at resource i (Restore.restore_rows E fn false rows ∅ 0 d).1
                        = raw_at resource i d).
    { intros i. apply (restore_rows_other_table E (raw_at resource i)).
      intros payload. by apply (restorer_other_resource E resource i r). }
    destruct (restore_rows_returns E fn false rows ∅ 0 d) as (restored & Hret & _).
    destruct (Restore.restore_rows E fn false rows ∅ 0 d) as [d1 res].
    simpl in Hret, Hraw. subst res.
    unfold bind, ret.
    assert (Hkeyed1 : well_keyed resource d1).
    { intros i x. rewrite Hraw. apply Hkeyed. }
    specialize (IH d1 Hnd Hin Hkeyed1). rewrite Hraw in IH. specialize (IH Hsnap).
    by destruct (Restore.restore_resources E None offset false rest d1) as [d2 [counts|e]].
Qed.

End OneResource.

(** X23. Restore after backup.  Take a resource other than the trigger
    categories, whose snapshots are keyed by the numeric id of their
    payload, as the Writer leaves them.  Whatever became of the structured
    table, after [restore] (not a dry run, no limit) of a scope without
    repetition that holds the resource, the row under the id of a snapshot
    is the very row the Writer stores for the payload of that snapshot,
    provided the server accepts that entity. *)
Theorem restore_rebuilds_the_rows_of_the_snapshots :
  ∀ scope scope_list resource kind n o offset truncate_first d,
    Restore.scope_list_of E scope = Ok scope_list →
    NoDup scope_list →
    resource ∈ scope_list →
    (resource, kind) ∈ restorable_kinds →
    resource ≠ "trigger_categories" →
    well_keyed resource d →
    raw_payload <$> raw_at resource n d = Some (JObj o) →
    (∀ d1, (Backup.write_entity E (kind (JObj o)) d1).2 = Ok tt) →
    is_Some (row_at resource (inl n)
               (Restore.restore E scope None offset truncate_first false d).1) ∧
    ∀ d0,
      row_at resource (inl n)
        (Restore.restore E scope None offset truncate_first false d).1
      = row_at resource (inl n) (Backup.write_entity E (kind (JObj o)) d0).1.
Proof.
  intros scope scope_list resource kind n o offset truncate_first d
    Hscope Hnd Hin Hkind Hbigint Hkeyed Hsnap Hok.
  assert (Hrows : ∀ d0,
            row_at resource (inl n)
              (Restore.restore E scope None offset truncate_first false d).1
            = row_at resource (inl n) (Backup.write_entity E (kind (JObj o)) d0).1).
  { intros d0. unfold Restore.restore. rewrite Hscope. unfold bind at 1. unfold lift.
    unfold bind.
    assert (Htr : (Restore.maybe_truncate scope_list truncate_first d).2 = Ok tt ∧
                  raw_snapshots (Restore.maybe_truncate scope_list truncate_first d).1
                  = raw_snapshots d).
    { destruct truncate_first; [|done].
      destruct (maybe_truncate_rows scope_list d) as (? & ? & _). done. }
    destruct (Restore.maybe_truncate scope_list truncate_first d) as [d1 r].
    destruct Htr as [Hr Hraw]. simpl in Hr, Hraw. subst r.
    apply (restore_resources_rebuild resource kind Hkind Hbigint n o offset scope_list d1 d0);
      try done.
    - by apply (scope_list_restorable E scope).
    - intros i x. unfold raw_at. rewrite Hraw. apply Hkeyed.
    - unfold raw_at. by rewrite Hraw. }
  split; [|exact Hrows].
  rewrite (Hrows empty_db).
  assert (Hkey : entity_key E (kind (JObj o)) = Some (inl n)).
  { rewrite (restorable_kind_key resource kind o Hkind Hbigint).
    unfold raw_at in Hsnap. destruct (raw_snapshots d !! (resource, n)) as [r|] eqn:Hr;
      [|done].
    injection Hsnap as Hp. destruct (Hkeyed n r Hr) as (o' & Ho' & Hid).
    rewrite Hp in Ho'. injection Ho' as <-. by rewrite Hid. }
  destruct (restorable_kind_tables resource kind (JObj o) Hkind) as (Ht & _).
  rewrite <- Ht. by apply write_entity_row_written.
Qed.

End RestoreRebuilds.

(** The table of users is lost and rebuilt from the snapshots. *)
Lemma restore_rebuilds_witness :
  (well_keyed "users" (truncate_rows "users" one_user_db) ∧
   raw_payload <$> raw_at "users" 7 (truncate_rows "users" one_user_db)
   = Some stored_user ∧
   table "users" (truncate_rows "users" one_user_db) = ∅) ∧
  row_at "users" (inl 7)
    (Restore.restore test_env "all" None 0 false false
       (truncate_rows "users" one_user_db)).1
  = row_at "users" (inl 7) one_user_db.
Proof.
  assert (Hkeyed : well_keyed "users" (truncate_rows "users" one_user_db)).
  { intros i r. unfold raw_at.
    destruct (decide (i = 7)) as [->|Hne].
    - vm_compute. intros [= <-]. by eexists.
    - intros Hr. exfalso. revert Hr.
      change (raw_snapshots (truncate_rows "users" one_user_db))
        with (<[("users", 7) := {| raw_updated_at := Backup.parse_dt test_env
                                      (JStr "2024-01-02T00:00:00Z");
                                    raw_payload := stored_user |}]>
                (∅ : gmap (string * Z) raw_row)).
      rewrite lookup_insert_ne by congruence. by rewrite lookup_empty. }
  split; [split; [exact Hkeyed|split; vm_compute; reflexivity]|].
  apply (restore_rebuilds_the_rows_of_the_snapshots test_env "all" Restore.RESTORE_ORDER
           "users" Backup.User 7
           [("id", JNum 7); ("name", JStr "ann"); ("updated_at", JStr "2024-01-02T00:00:00Z")]
           0 false (truncate_rows "users" one_user_db)).
  - reflexivity.
  - apply (bool_decide_unpack _). vm_compute. exact I.
  - apply list_elem_of_here.
  - apply list_elem_of_here.
  - discriminate.
  - exact Hkeyed.
  - vm_compute. reflexivity.
  - intros d1. reflexivity.
Defined.

(** ** The retrying fetcher: how a fetch ends *)

Lemma substring_length (m : nat) (s : string) :
  (String.length (String.substring 0 m s) ≤ m)%nat.
Proof.
  revert s. induction m as [|m IH]; intros [|c s]; simpl; try lia.
  specialize (IH s). lia.
Qed.

Section RetryOutcomes.
Variable E : env.

(** The answers that are retried are passed over, one request each. *)
Lemma retry_loop_skips n k url params w rs rest :
  Backup.feed w = (Backup.Response <$> rs) ++ rest →
  length rs = k →
  Forall (retryable E) rs →
  Backup.retry_loop E (k + n) url params w
  = Backup.retry_loop E n url params (requested url params k w rest).
Proof.
  revert w rs. induction k as [|k IH]; intros w rs Hfeed Hlen Hall.
  - destruct rs; [|done]. simpl in *. unfold requested. simpl.
    rewrite app_nil_r, <- Hfeed. by destruct w.
  - destruct rs as [|r rs]; [done|]. simpl in Hfeed, Hlen.
    apply Forall_cons in Hall as [Hr Hall].
    simpl. unfold bind at 1. unfold Backup.session_get. rewrite Hfeed.
    rewrite (retryable_not_ok E r Hr).
    destruct Hr as [Hs Hh]. rewrite (bool_decide_eq_true_2 _ Hs).
    unfold bind at 1. rewrite (retryable_sleep E r _ (conj Hs Hh)).
    rewrite (IH _ rs); [|done|lia|done].
    unfold requested. simpl. by rewrite <- (assoc_L (++)).
Qed.

(** X5. The fetcher passes over up to seven answers that it retries, and ends
    at the first answer that is final, having made one request for each
    answer it took.  A status 200 gives the decoded body, and raises when
    the body is not JSON; any other status outside the retried ones raises
    at once the error that carries the status and the detail (the decoded
    body, or the first 300 characters of the text); a network error is not
    retried; a retried status whose [Retry-After] header is not a number
    ends the fetch with [ValueError].  The store is never touched. *)
Theorem retried_fetch_ends_with_the_first_final_answer :
  ∀ url params w rs ev rest,
    Backup.feed w = (Backup.Response <$> rs) ++ ev :: rest →
    (length rs < 8)%nat →
    Forall (retryable E) rs →
    match ev with
    | Backup.NetworkError =>
        Backup.get_with_retry E url params w
        = (requested url params (S (length rs)) w rest, Raise RequestException)
    | Backup.Response r =>
        (Backup.status_code r = 200 →
         Backup.get_with_retry E url params w
         = (requested url params (S (length rs)) w rest,
            match Backup.body r with Some j => Ok j | None => Raise JSONDecodeError end)) ∧
        (Backup.status_code r ≠ 200 →
         Backup.status_code r ∉ Backup.RETRY_STATUS →
         Backup.get_with_retry E url params w
         = (requested url params (S (length rs)) w rest,
            Raise (GetFailed (py_str E url) (Backup.status_code r)
                     (Backup.failure_detail r))) ∧
         (Backup.body r = None →
          ∃ t, Backup.failure_detail r = JObj [("text", JStr t)] ∧
               (String.length t ≤ 300)%nat)) ∧
        (Backup.status_code r ∈ Backup.RETRY_STATUS →
         ∀ h, Backup.retry_after r = Some h → h ≠ "" → float_of_header E h = None →
              Backup.get_with_retry E url params w
              = (requested url params (S (length rs)) w rest, Raise ValueError))
    end.
Proof.
  intros url params w rs ev rest Hfeed Hlen Hall.
  assert (Hskip : Backup.get_with_retry E url params w
                  = Backup.retry_loop E (S (7 - length rs)) url params
                      (requested url params (length rs) w (ev :: rest))).
  { unfold Backup.get_with_retry.
    replace 8%nat with (length rs + S (7 - length rs))%nat by lia.
    by apply (retry_loop_skips _ _ url params w rs). }
  assert (Hdone : requested url params (S (length rs)) w rest
                  = {| Backup.store := Backup.store w; Backup.feed := rest;
                       Backup.sent := (Backup.sent w ++
                                       replicate (length rs)
                                         {| Backup.req_url := url;
                                            Backup.req_params := params |}) ++
                                      [{| Backup.req_url := url;
                                          Backup.req_params := params |}];
                       Backup.journal := Backup.journal w |}).
  { unfold requested. f_equal. rewrite <- (assoc_L (++)). f_equal.
    change (S (length rs)) with (1 + length rs)%nat.
    rewrite Nat.add_comm, replicate_add. done. }
  set (w' := requested url params (S (length rs)) w rest) in *.
  assert (Hrun : Backup.get_with_retry E url params w
                 = match ev with
                   | Backup.NetworkError => (w', Raise RequestException)
                   | Backup.Response r =>
                       (if Backup.status_code r =? 200 then Backup.resp_json r
                        else if bool_decide (Backup.status_code r ∈ Backup.RETRY_STATUS)
                             then Backup.sleep_hint E (Backup.retry_after r) ;;;
                                  Backup.retry_loop E (7 - length rs) url params
                             else raise (GetFailed (py_str E url) (Backup.status_code r)
                                           (Backup.failure_detail r))) w'
                   end).
  { rewrite Hskip, Hdone. cbn [Backup.retry_loop].
    unfold bind at 1. unfold Backup.session_get.
    cbn [requested Backup.feed Backup.store Backup.sent Backup.journal].
    by destruct ev. }
  rewrite Hrun. clear Hrun Hskip Hdone.
  destruct ev as [r|]; [|done].
  split; [|split].
  - intros H200. rewrite H200. simpl. unfold Backup.resp_json.
    by destruct (Backup.body r).
  - intros Hnot Hfinal. apply Z.eqb_neq in Hnot. rewrite Hnot.
    rewrite (bool_decide_eq_false_2 _ Hfinal). split; [done|].
    intros Hbody. unfold Backup.failure_detail. rewrite Hbody.
    eexists. split; [done|]. apply substring_length.
  - intros Hretry h Hh Hne Hfloat.
    assert (Hnot : (Backup.status_code r =? 200) = false).
    { apply Z.eqb_neq. intros H200. rewrite H200 in Hretry. revert Hretry.
      apply (bool_decide_unpack _). vm_compute. exact I. }
    rewrite Hnot, (bool_decide_eq_true_2 _ Hretry).
    unfold bind at 1. unfold Backup.sleep_hint. rewrite Hh.
    apply String.eqb_neq in Hne. by rewrite Hne, Hfloat.
Qed.

End RetryOutcomes.

Lemma retried_fetch_witness :
  Backup.get_with_retry test_env (JStr "u") [("per_page", JNum 100)]
    (fresh_world empty_db users_feed)
  = ({| Backup.store := empty_db;
        Backup.feed := [page_answer users_page_2];
        Backup.sent := replicate 2 {| Backup.req_url := JStr "u";
                                      Backup.req_params := [("per_page", JNum 100)] |};
        Backup.journal := [] |},
     Ok users_page_1).
Proof.
  assert (Hbusy : Forall (retryable test_env)
                    [{| Backup.status_code := 503; Backup.retry_after := None;
                        Backup.body := None; Backup.text := "busy" |}]).
  { apply Forall_singleton. split; [|done].
    apply (bool_decide_unpack _). vm_compute. exact I. }
  destruct (retried_fetch_ends_with_the_first_final_answer test_env (JStr "u")
              [("per_page", JNum 100)] (fresh_world empty_db users_feed)
              [{| Backup.status_code := 503; Backup.retry_after := None;
                  Backup.body := None; Backup.text := "busy" |}]
              (page_answer users_page_1) [page_answer users_page_2]
              eq_refl ltac:(simpl; lia) Hbusy) as (Hok & _).
  apply Hok. reflexivity.
Defined.

(** ** What a sync run may do *)

(** Every step of [m] takes the state to one that [R] relates to it. *)
Definition respects {S A} (R : S → S → Prop) (m : M S A) : Prop := ∀ s, R s (m s).1.

Section Respects.
Context {S : Type} (R : S → S → Prop) `{!PreOrder R}.

Lemma respects_unchanged {A} (m : M S A) : preserves (λ s, s) m → respects R m.
Proof. intros Hm s. by rewrite (Hm s). Qed.

Lemma respects_ret {A} (a : A) : respects R (ret a).
Proof. by intros s. Qed.

Lemma respects_raise {A} e : respects R (raise (A := A) e).
Proof. by intros s. Qed.

Lemma respects_lift {A} (r : result A) : respects R (lift r).
Proof. by intros s. Qed.

Lemma respects_bind {A B} (m : M S A) (f : A → M S B) :
  respects R m → (∀ a, respects R (f a)) → respects R (bind m f).
Proof.
  intros Hm Hf s. unfold bind. specialize (Hm s).
  destruct (m s) as [s1 [a|e]]; simpl in *; [|done].
  etransitivity; [exact Hm|apply Hf].
Qed.

Lemma respects_bind_lift {A B} (r : result A) (f : A → M S B) :
  (∀ a, r = Ok a → respects R (f a)) → respects R (bind (lift r) f).
Proof.
  intros Hf s. unfold bind, lift. destruct r as [a|e]; [|done].
  by apply Hf.
Qed.

Lemma respects_for_each {A} (body : A → M S unit) xs :
  (∀ x, respects R (body x)) → respects R (for_each body xs).
Proof.
  intros Hbody. induction xs as [|x xs IH]; simpl.
  - apply respects_ret.
  - apply respects_bind; auto.
Qed.

End Respects.

(** Running on the store a sequence is running each of its steps on the
    store. *)
Lemma on_store_bind {A B} (m : M db A) (f : A → M db B) w :
  Backup.on_store (bind m f) w = bind (Backup.on_store m) (λ a, Backup.on_store (f a)) w.
Proof.
  unfold Backup.on_store, bind. destruct (m (Backup.store w)) as [d [a|e]]; [|done].
  simpl. by destruct (f a d).
Qed.

Lemma on_store_for_each {A} (body : A → M db unit) xs w :
  Backup.on_store (for_each body xs) w = for_each (λ x, Backup.on_store (body x)) xs w.
Proof.
  revert w. induction xs as [|x xs IH]; intros w; simpl.
  - by destruct w.
  - rewrite on_store_bind. unfold bind.
    destruct (Backup.on_store (body x) w) as [w1 [[]|e]]; [apply IH|done].
Qed.

Section Allowed.
Variables (E : env) (cfg : Backup.config).
Variable R : Backup.world → Backup.world → Prop.
Context `{!PreOrder R}.

(** What the run is allowed: the entities it may write, the cursors it may
    set, and whether it may delete tickets. *)
Variable writes : Backup.entity → Prop.
Variable cursors : string → Prop.
Variable deletes : Prop.

Hypothesis allowed_get : ∀ url params, respects R (Backup.session_get url params).
Hypothesis allowed_page : ∀ resource page, respects R (Backup.record_page resource page).
Hypothesis allowed_write :
  ∀ e, writes e → respects R (Backup.on_store (Backup.write_entity E e)).
Hypothesis allowed_cursor :
  ∀ resource token, cursors resource →
    respects R (Backup.on_store (Backup.set_cursor_val E resource token)).
Hypothesis allowed_delete :
  ∀ n, deletes → respects R (Backup.on_store (Backup.delete_ticket n)).

Lemma read_cursor_respects resource :
  respects R (Backup.on_store (Backup.get_cursor_val resource)).
Proof. apply (respects_unchanged R). intros w. by destruct w. Qed.

Lemma written_page_respects {A} (kind : A → Backup.entity) xs :
  (∀ x, writes (kind x)) →
  respects R (Backup.on_store (for_each (λ x, Backup.write_entity E (kind x)) xs)).
Proof.
  intros Hkind w. rewrite on_store_for_each.
  apply (respects_for_each R). intros x. by apply allowed_write.
Qed.

Lemma retry_loop_respects n url params :
  respects R (Backup.retry_loop E n url params).
Proof.
  induction n as [|n IH]; simpl; [apply (respects_raise R)|].
  apply (respects_bind R); [apply allowed_get|intros resp].
  destruct (_ =? 200); [apply (respects_unchanged R), resp_json_view|].
  destruct (bool_decide _); [|apply (respects_raise R)].
  apply (respects_bind R); [apply (respects_unchanged R), sleep_hint_view|intros _].
  apply IH.
Qed.

Lemma get_with_retry_respects url params :
  respects R (Backup.get_with_retry E url params).
Proof. apply retry_loop_respects. Qed.

Lemma next_link_respects p k : respects R (Backup.next_link p k).
Proof. apply (respects_unchanged R), next_link_view. Qed.

Lemma list_pages_from_respects fuel body page :
  (∀ p, respects R (body p)) → respects R (Backup.list_pages_from E fuel body page).
Proof.
  intros Hbody. revert page.
  induction fuel as [|fuel IH]; intros page; simpl; [apply (respects_raise R)|].
  apply (respects_bind R); [apply Hbody|intros _].
  apply (respects_bind R); [|].
  { destruct page; try apply (respects_raise R). apply next_link_respects. }
  intros next_url. destruct (truthy next_url); [|apply (respects_ret R)].
  apply (respects_bind R); [apply get_with_retry_respects|intros page'; apply IH].
Qed.

Lemma for_list_pages_respects url params body :
  (∀ p, respects R (body p)) → respects R (Backup.for_list_pages E url params body).
Proof.
  intros Hbody. unfold Backup.for_list_pages.
  apply (respects_bind R); [apply get_with_retry_respects|intros page].
  intros w. by apply list_pages_from_respects.
Qed.

(** *** Users *)

Section Users.
Hypothesis may_write : ∀ u, writes (Backup.User u).
Hypothesis may_set : cursors "users".

Lemma users_page_respects page : respects R (Backup.users_page E page).
Proof.
  unfold Backup.users_page. destruct page; try apply (respects_raise R).
  apply (respects_bind R); [apply (respects_lift R)|intros users].
  apply (respects_bind R); [apply (written_page_respects Backup.User), may_write|].
  intros _. apply (respects_bind R); [ |intros _].
  { destruct (truthy _); [by apply allowed_cursor|apply (respects_ret R)]. }
  apply (respects_bind R); [apply allowed_page|intros _; apply (respects_ret R)].
Qed.

Lemma users_pages_respects fuel page : respects R (Backup.users_pages E fuel page).
Proof.
  revert page. induction fuel as [|fuel IH]; intros page; simpl; [apply (respects_raise R)|].
  apply (respects_bind R); [apply users_page_respects|intros continue].
  destruct continue; [|apply (respects_ret R)].
  apply (respects_bind R); [|].
  { destruct page; try apply (respects_raise R). apply next_link_respects. }
  intros after_url. destruct (truthy after_url); [|apply (respects_ret R)].
  apply (respects_bind R); [apply get_with_retry_respects|intros page'; apply IH].
Qed.

Lemma sync_users_respects now : respects R (Backup.sync_users E cfg now).
Proof.
  unfold Backup.sync_users.
  apply (respects_bind R); [apply read_cursor_respects|intros last].
  apply (respects_bind R); [apply get_with_retry_respects|intros first].
  intros w. apply users_pages_respects.
Qed.

End Users.

(** *** Organizations *)

Section Organizations.
Hypothesis may_write : ∀ o, writes (Backup.Organization o).
Hypothesis may_set : cursors "organizations".

Lemma snapshot_pages_respects fuel page : respects R (Backup.snapshot_pages E fuel page).
Proof.
  revert page. induction fuel as [|fuel IH]; intros page; simpl; [apply (respects_raise R)|].
  destruct page; try apply (respects_raise R).
  apply (respects_bind R); [apply (respects_lift R)|intros orgs].
  apply (respects_bind R);
    [apply (written_page_respects Backup.Organization), may_write|intros _].
  apply (respects_bind R); [apply next_link_respects|intros nxt].
  destruct (truthy nxt); [|apply (respects_ret R)].
  apply (respects_bind R); [apply get_with_retry_respects|intros page'; apply IH].
Qed.

Lemma snapshot_once_respects now : respects R (Backup.snapshot_once E cfg now).
Proof.
  unfold Backup.snapshot_once.
  apply (respects_bind R); [apply get_with_retry_respects|intros page].
  apply (respects_bind R); [intros w; apply snapshot_pages_respects|intros _].
  by apply allowed_cursor.
Qed.

Lemma org_entities_respects seen_ids orgs :
  respects R (Backup.org_entities E seen_ids orgs).
Proof.
  revert seen_ids. induction orgs as [|o orgs IH]; intros seen_ids; simpl;
    [apply (respects_ret R)|].
  destruct o; try apply (respects_raise R).
  apply (respects_bind R); [ |intros _; apply IH].
  apply (allowed_write (Backup.Organization (JObj kvs))), may_write.
Qed.

Lemma org_page_respects seen_ids streak resp :
  respects R (Backup.org_page E seen_ids streak resp).
Proof.
  unfold Backup.org_page.
  apply (respects_bind R); [apply (respects_unchanged R), resp_json_view|intros page].
  destruct page; try apply (respects_raise R).
  apply (respects_bind R); [apply (respects_lift R)|intros orgs].
  apply (respects_bind R); [apply org_entities_respects|intros seen_ids'].
  apply (respects_bind R); [ |intros _].
  { destruct (truthy _); [by apply allowed_cursor|apply (respects_ret R)]. }
  apply (respects_bind R); [apply allowed_page|intros _].
  destruct (3 <=? _); [apply (respects_ret R)|].
  destruct (truthy _); apply (respects_ret R).
Qed.

Lemma org_turn_respects url params seen_ids streak :
  respects R (Backup.org_turn E url params seen_ids streak).
Proof.
  intros w. unfold Backup.org_turn.
  pose proof (allowed_get url params w) as Hget.
  destruct (Backup.session_get url params w) as [w1 [resp|e]]; simpl in Hget.
  - destruct (_ =? 200).
    { etransitivity; [exact Hget|apply org_page_respects]. }
    destruct (_ =? 429).
    { etransitivity; [exact Hget|].
      apply (respects_bind R); [apply (respects_unchanged R), capped_hint_view|].
      intros _. apply (respects_ret R). }
    by destruct (bool_decide _).
  - by destruct e.
Qed.

Lemma org_incremental_respects fuel now url params seen_ids streak :
  respects R (Backup.org_incremental E cfg fuel now url params seen_ids streak).
Proof.
  revert url params seen_ids streak.
  induction fuel as [|fuel IH]; intros url params seen_ids streak; simpl;
    [apply (respects_raise R)|].
  apply (respects_bind R); [apply org_turn_respects|intros c].
  destruct c; [apply IH|apply snapshot_once_respects|apply (respects_ret R)].
Qed.

Lemma sync_organizations_respects now : respects R (Backup.sync_organizations E cfg now).
Proof.
  unfold Backup.sync_organizations.
  apply (respects_bind R); [apply read_cursor_respects|intros last_epoch].
  destruct (_ || _); [apply snapshot_once_respects|].
  apply (respects_bind R); [apply (respects_lift R)|intros start_time].
  intros w. apply org_incremental_respects.
Qed.

End Organizations.

(** *** Tickets, comments, attachments *)

Section Attachments.
Hypothesis may_attach :
  ∀ ticket_id comment_id a local_path,
    writes (Backup.Attachment ticket_id comment_id a local_path).

Lemma comment_attachments_respects ticket_id comment_id attachments :
  respects R (Backup.comment_attachments E ticket_id comment_id attachments).
Proof.
  unfold Backup.comment_attachments. apply (respects_for_each R). intros a.
  apply (respects_bind R); [apply (respects_lift R)|intros cid].
  apply (respects_bind R); [ |intros local_path].
  { destruct (download_attachment E ticket_id cid a);
      [apply (respects_ret R)|apply (respects_raise R)]. }
  apply (allowed_write (Backup.Attachment ticket_id (Some cid) a local_path)), may_attach.
Qed.

Hypothesis may_comment : ∀ ticket_id c, writes (Backup.Comment ticket_id c).

Lemma ticket_comment_respects t c : respects R (Backup.ticket_comment E t c).
Proof.
  unfold Backup.ticket_comment.
  apply (respects_bind R); [apply (respects_lift R)|intros ticket_id].
  apply (respects_bind R);
    [apply (allowed_write (Backup.Comment ticket_id c)), may_comment|intros _].
  destruct c; try apply (respects_raise R).
  apply (respects_bind R); [apply (respects_lift R)|intros attachments].
  apply comment_attachments_respects.
Qed.

Lemma child_event_step_respects tid ce : respects R (Backup.child_event_step E tid ce).
Proof.
  unfold Backup.child_event_step. destruct ce; try apply (respects_raise R).
  destruct (Backup.is_comment_event kvs); [|apply (respects_ret R)].
  apply (respects_bind R); [apply (respects_lift R)|intros c].
  apply (respects_bind R);
    [apply (allowed_write (Backup.Comment tid c)), may_comment|intros _].
  apply (respects_bind R); [apply (respects_lift R)|intros attachments].
  apply comment_attachments_respects.
Qed.

Lemma ticket_event_step_respects ev : respects R (Backup.ticket_event_step E cfg ev).
Proof.
  unfold Backup.ticket_event_step. destruct ev; try apply (respects_raise R).
  apply (respects_bind R); [apply (respects_lift R)|intros tid].
  apply (respects_bind R); [ |intros closed].
  { destruct (Backup.CLOSED_TICKETS_ONLY cfg); [|apply (respects_ret R)].
    apply (respects_bind R); [apply get_with_retry_respects|intros reply].
    apply (respects_bind R); [apply (respects_lift R)|intros t].
    destruct t; try apply (respects_raise R).
    apply (respects_bind R); [apply (respects_lift R)|intros status].
    apply (respects_ret R). }
  destruct closed; [|apply (respects_ret R)].
  apply (respects_bind R); [apply (respects_lift R)|intros child_events].
  apply (respects_for_each R). intros ce. apply child_event_step_respects.
Qed.

Section TicketEvents.
Hypothesis may_set : cursors "ticket_events".

Lemma ticket_events_loop_respects fuel url params :
  respects R (Backup.ticket_events_loop E cfg fuel url params).
Proof.
  revert url params. induction fuel as [|fuel IH]; intros url params; simpl;
    [apply (respects_raise R)|].
  apply (respects_bind R); [apply get_with_retry_respects|intros page].
  destruct page; try apply (respects_raise R).
  apply (respects_bind R); [apply (respects_lift R)|intros events].
  apply (respects_bind R); [ |intros _].
  { apply (respects_for_each R). intros ev. apply ticket_event_step_respects. }
  destruct (truthy (get kvs "next_page")); [apply IH|].
  destruct (truthy _); [by apply allowed_cursor|apply (respects_ret R)].
Qed.

Lemma sync_ticket_events_respects now :
  respects R (Backup.sync_ticket_events_for_comments E cfg now).
Proof.
  unfold Backup.sync_ticket_events_for_comments.
  apply (respects_bind R); [apply read_cursor_respects|intros last_epoch].
  apply (respects_bind R); [ |intros start_time].
  { destruct (truthy _); [apply (respects_lift R)|apply (respects_ret R)]. }
  intros w. apply ticket_events_loop_respects.
Qed.

End TicketEvents.
End Attachments.

Section Tickets.
(** A ticket is written when it passes the filter on closed tickets; its
    comments and their attachments are fetched and written unless they
    are left to the ticket events; a ticket that does not pass is deleted
    when pruning is on. *)
Hypothesis may_write :
  ∀ kvs status,
    Backup.ticket_status E kvs = Ok status →
    Backup.CLOSED_TICKETS_ONLY cfg && negb (String.eqb status "closed") = false →
    writes (Backup.Ticket (JObj kvs)).
Hypothesis may_comment :
  Backup.USE_TICKET_EVENTS_FOR_COMMENTS cfg = false →
  ∀ ticket_id c, writes (Backup.Comment ticket_id c).
Hypothesis may_attach :
  Backup.USE_TICKET_EVENTS_FOR_COMMENTS cfg = false →
  ∀ ticket_id comment_id a local_path,
    writes (Backup.Attachment ticket_id comment_id a local_path).
Hypothesis may_delete :
  Backup.CLOSED_TICKETS_ONLY cfg = true → Backup.PRUNE_REOPENED_FROM_DB cfg = true →
  deletes.
Hypothesis may_set : cursors "tickets".

Lemma ticket_step_respects t : respects R (Backup.ticket_step E cfg t).
Proof.
  unfold Backup.ticket_step. destruct t; try apply (respects_raise R).
  apply (respects_bind_lift R). intros status Hstatus.
  destruct (Backup.CLOSED_TICKETS_ONLY cfg && negb (String.eqb status "closed"))
    eqn:Hfilter.
  - apply andb_true_iff in Hfilter as [Hclosed _].
    destruct (Backup.PRUNE_REOPENED_FROM_DB cfg) eqn:Hprune; [|apply (respects_ret R)].
    apply (respects_bind R); [apply (respects_lift R)|intros ticket_id].
    by apply allowed_delete, may_delete.
  - apply (respects_bind R);
      [apply (allowed_write (Backup.Ticket (JObj kvs))); by eapply may_write|].
    intros _.
    destruct (Backup.USE_TICKET_EVENTS_FOR_COMMENTS cfg) eqn:Hevents;
      [apply (respects_ret R)|].
    apply (respects_bind R); [apply (respects_lift R)|intros id].
    apply for_list_pages_respects. intros cpage.
    destruct cpage; try apply (respects_raise R).
    apply (respects_bind R); [apply (respects_lift R)|intros comments].
    apply (respects_for_each R). intros c.
    apply ticket_comment_respects; [by apply may_attach|by apply may_comment].
Qed.

Lemma tickets_page_respects url resp : respects R (Backup.tickets_page E cfg url resp).
Proof.
  unfold Backup.tickets_page.
  apply (respects_bind R); [apply (respects_unchanged R), resp_json_view|intros page].
  destruct page; try apply (respects_raise R).
  apply (respects_bind R); [apply (respects_lift R)|intros tickets].
  apply (respects_bind R); [ |intros _].
  { apply (respects_for_each R). intros t. apply ticket_step_respects. }
  apply (respects_bind R); [ |intros _].
  { destruct (truthy _); [by apply allowed_cursor|apply (respects_ret R)]. }
  apply (respects_bind R); [apply allowed_page|intros _].
  destruct (truthy _); [apply (respects_ret R)|].
  apply (respects_bind R); [apply next_link_respects|intros after].
  apply (respects_ret R).
Qed.

Lemma tickets_turn_respects url params : respects R (Backup.tickets_turn E cfg url params).
Proof.
  intros w. unfold Backup.tickets_turn.
  pose proof (allowed_get url params w) as Hget.
  destruct (Backup.session_get url params w) as [w1 [resp|e]]; simpl in Hget.
  - destruct (_ =? 200).
    { etransitivity; [exact Hget|apply tickets_page_respects]. }
    destruct (_ =? 429).
    { etransitivity; [exact Hget|].
      apply (respects_bind R); [apply (respects_unchanged R), capped_hint_view|].
      intros _. apply (respects_ret R). }
    by destruct (bool_decide _).
  - by destruct e.
Qed.

Lemma tickets_loop_respects fuel url params :
  respects R (Backup.tickets_loop E cfg fuel url params).
Proof.
  revert url params. induction fuel as [|fuel IH]; intros url params; simpl;
    [apply (respects_raise R)|].
  apply (respects_bind R); [apply tickets_turn_respects|intros c].
  destruct c; [apply IH|apply (respects_ret R)].
Qed.

Lemma sync_tickets_respects now :
  respects R (Backup.sync_tickets_comments_attachments E cfg now).
Proof.
  unfold Backup.sync_tickets_comments_attachments.
  apply (respects_bind R); [apply read_cursor_respects|intros last].
  intros w. apply tickets_loop_respects.
Qed.

End Tickets.

(** *** The listings *)

Lemma listing_pages_respects fuel key (kind : json → Backup.entity) page :
  (∀ x, writes (kind x)) →
  respects R (Backup.listing_pages E fuel key (λ x, Backup.write_entity E (kind x)) page).
Proof.
  intros Hkind. revert page.
  induction fuel as [|fuel IH]; intros page; simpl; [apply (respects_raise R)|].
  destruct page; try apply (respects_raise R).
  apply (respects_bind R); [apply (respects_lift R)|intros entities].
  apply (respects_bind R); [by apply (written_page_respects kind)|intros _].
  apply (respects_bind R); [apply next_link_respects|intros next_page].
  destruct (truthy next_page); [|apply (respects_ret R)].
  apply (respects_bind R); [apply get_with_retry_respects|intros page'; apply IH].
Qed.

Lemma sync_views_respects :
  (∀ v, writes (Backup.View v)) → respects R (Backup.sync_views E cfg).
Proof.
  intros Hkind. unfold Backup.sync_views.
  apply (respects_bind R); [apply get_with_retry_respects|intros page].
  intros w. by apply (listing_pages_respects _ _ Backup.View).
Qed.

Lemma sync_triggers_respects :
  (∀ t, writes (Backup.Trigger t)) → respects R (Backup.sync_triggers E cfg).
Proof.
  intros Hkind. unfold Backup.sync_triggers.
  apply (respects_bind R); [apply get_with_retry_respects|intros page].
  intros w. by apply (listing_pages_respects _ _ Backup.Trigger).
Qed.

Lemma sync_trigger_categories_respects :
  (∀ c, writes (Backup.TriggerCategory c)) →
  respects R (Backup.sync_trigger_categories E cfg).
Proof.
  intros Hkind. unfold Backup.sync_trigger_categories.
  apply (respects_bind R); [apply get_with_retry_respects|intros page].
  intros w. by apply (listing_pages_respects _ _ Backup.TriggerCategory).
Qed.

Lemma sync_macros_respects :
  (∀ m, writes (Backup.Macro m)) → respects R (Backup.sync_macros E cfg).
Proof.
  intros Hkind. unfold Backup.sync_macros.
  apply (respects_bind R); [apply get_with_retry_respects|intros page].
  intros w. by apply (listing_pages_respects _ _ Backup.Macro).
Qed.

Lemma smoke_assert_agent_respects : respects R (Backup.smoke_assert_agent cfg).
Proof.
  unfold Backup.smoke_assert_agent.
  apply (respects_bind R); [apply allowed_get|intros r].
  apply (respects_bind R); [ |intros data].
  { destruct (Backup.body r); [apply (respects_ret R)|apply (respects_raise R)]. }
  apply (respects_bind R); [apply (respects_lift R)|intros found].
  apply (respects_bind R); [apply (respects_lift R)|intros email].
  apply (respects_bind R); [apply (respects_lift R)|intros role].
  apply (respects_bind R); [apply (respects_lift R)|intros id].
  destruct (_ || _); [apply (respects_raise R)|].
  destruct role; try apply (respects_raise R).
  destruct (_ || _); [apply (respects_ret R)|apply (respects_raise R)].
Qed.

End Allowed.

(** ** Every sync keeps to its own resource *)

(** The store shows the same through [view] after as before. *)
Definition same {X} (view : db → X) (w w' : Backup.world) : Prop :=
  view (Backup.store w') = view (Backup.store w).

#[local] Instance same_preorder {X} (view : db → X) : PreOrder (same view).
Proof.
  split.
  - by intros w.
  - intros w1 w2 w3 H12 H23. unfold same in *. by rewrite H23.
Qed.

Lemma same_get {X} (view : db → X) url params :
  respects (same view) (Backup.session_get url params).
Proof. intros w. unfold same, Backup.session_get. by destruct (Backup.feed w) as [|[]]. Qed.

Lemma same_page {X} (view : db → X) resource page :
  respects (same view) (Backup.record_page resource page).
Proof. by intros w. Qed.

Lemma same_on_store {X A} (view : db → X) (m : M db A) :
  preserves view m → respects (same view) (Backup.on_store m).
Proof.
  intros Hm w. unfold same, Backup.on_store. specialize (Hm (Backup.store w)).
  by destruct (m (Backup.store w)).
Qed.

(** The tables, the raw resources and the cursors outside of which [m]
    leaves the store as it was, however it ends. *)
Definition confined {A} (tables resources cursors : list string)
    (m : M Backup.world A) : Prop :=
  ∀ w,
    (∀ t k, t ∉ tables →
            row_at t k (Backup.store (m w).1) = row_at t k (Backup.store w)) ∧
    (∀ r i, r ∉ resources →
            raw_at r i (Backup.store (m w).1) = raw_at r i (Backup.store w)) ∧
    (∀ c, c ∉ cursors →
          sync_state (Backup.store (m w).1) !! c = sync_state (Backup.store w) !! c).

(** A name outside a list that is written out is none of its names. *)
Ltac outside H := intros ->; apply H; listed.

Section Confined.
Variables (E : env) (cfg : Backup.config).

(** The primitives of a run, for a view of the store. *)
Lemma cursor_rows t k resource token :
  preserves (row_at t k) (Backup.set_cursor_val E resource token).
Proof. intros d. unfold row_at. by rewrite set_cursor_val_structured. Qed.

Lemma cursor_raw r i resource token :
  preserves (raw_at r i) (Backup.set_cursor_val E resource token).
Proof. intros d. unfold raw_at. by rewrite set_cursor_val_raw. Qed.

Lemma cursor_other c resource token :
  c ≠ resource →
  preserves (λ d, sync_state d !! c) (Backup.set_cursor_val E resource token).
Proof.
  intros Hne d. unfold Backup.set_cursor_val. destruct (pg_accepts E _ _); [|done].
  simpl. by apply lookup_insert_ne.
Qed.

Lemma write_entity_cursor c e :
  preserves (λ d, sync_state d !! c) (Backup.write_entity E e).
Proof. intros d. by rewrite write_entity_sync_state. Qed.

Lemma delete_ticket_other_table t k n :
  t ∉ ["tickets"; "ticket_comments"; "attachments"] →
  preserves (row_at t k) (Backup.delete_ticket n).
Proof.
  intros Ht d. rewrite delete_ticket_rows. destruct (row_at t k d) as [r|]; [|done].
  rewrite bool_decide_eq_false_2; [done|].
  intros [[-> _]|[[->| ->] _]]; apply Ht; listed.
Qed.

(** A run, for a view that its writes preserve. *)
Section View.
Context {X : Type} (view : db → X).

Let writes (e : Backup.entity) : Prop := preserves view (Backup.write_entity E e).
Let cursors (resource : string) : Prop :=
  ∀ token, preserves view (Backup.set_cursor_val E resource token).
Let deletes : Prop := ∀ n, preserves view (Backup.delete_ticket n).

Lemma same_write e : writes e → respects (same view) (Backup.on_store (Backup.write_entity E e)).
Proof. apply same_on_store. Qed.

Lemma same_cursor resource token :
  cursors resource →
  respects (same view) (Backup.on_store (Backup.set_cursor_val E resource token)).
Proof. intros Hc. apply same_on_store, Hc. Qed.

Lemma same_delete n :
  deletes → respects (same view) (Backup.on_store (Backup.delete_ticket n)).
Proof. intros Hd. apply same_on_store, Hd. Qed.

Lemma sync_users_same now :
  (∀ u, writes (Backup.User u)) → cursors "users" →
  respects (same view) (Backup.sync_users E cfg now).
Proof.
  intros Hw Hc.
  apply (sync_users_respects E cfg (same view) writes cursors
           (same_get view) (same_page view) same_write same_cursor Hw Hc).
Qed.

Lemma sync_organizations_same now :
  (∀ o, writes (Backup.Organization o)) → cursors "organizations" →
  respects (same view) (Backup.sync_organizations E cfg now).
Proof.
  intros Hw Hc.
  apply (sync_organizations_respects E cfg (same view) writes cursors
           (same_get view) (same_page view) same_write same_cursor Hw Hc).
Qed.

Lemma sync_tickets_same now :
  (∀ t, writes (Backup.Ticket t)) →
  (Backup.USE_TICKET_EVENTS_FOR_COMMENTS cfg = false →
   ∀ ticket_id c, writes (Backup.Comment ticket_id c)) →
  (Backup.USE_TICKET_EVENTS_FOR_COMMENTS cfg = false →
   ∀ ticket_id comment_id a local_path,
     writes (Backup.Attachment ticket_id comment_id a local_path)) →
  (Backup.CLOSED_TICKETS_ONLY cfg = true → Backup.PRUNE_REOPENED_FROM_DB cfg = true →
   deletes) →
  cursors "tickets" →
  respects (same view) (Backup.sync_tickets_comments_attachments E cfg now).
Proof.
  intros Hw Hcomment Hattach Hd Hc.
  apply (sync_tickets_respects E cfg (same view) writes cursors deletes
           (same_get view) (same_page view) same_write same_cursor same_delete
           (λ kvs _ _ _, Hw (JObj kvs)) Hcomment Hattach Hd Hc).
Qed.

Lemma sync_ticket_events_same now :
  (∀ ticket_id c, writes (Backup.Comment ticket_id c)) →
  (∀ ticket_id comment_id a local_path,
     writes (Backup.Attachment ticket_id comment_id a local_path)) →
  cursors "ticket_events" →
  respects (same view) (Backup.sync_ticket_events_for_comments E cfg now).
Proof.
  intros Hcomment Hattach Hc.
  apply (sync_ticket_events_respects E cfg (same view) writes cursors
           (same_get view) same_write same_cursor Hattach Hcomment Hc).
Qed.

Lemma sync_views_same :
  (∀ v, writes (Backup.View v)) → respects (same view) (Backup.sync_views E cfg).
Proof.
  apply (sync_views_respects E cfg (same view) writes (same_get view) same_write).
Qed.

Lemma sync_triggers_same :
  (∀ t, writes (Backup.Trigger t)) → respects (same view) (Backup.sync_triggers E cfg).
Proof.
  apply (sync_triggers_respects E cfg (same view) writes (same_get view) same_write).
Qed.

Lemma sync_trigger_categories_same :
  (∀ c, writes (Backup.TriggerCategory c)) →
  respects (same view) (Backup.sync_trigger_categories E cfg).
Proof.
  apply (sync_trigger_categories_respects E cfg (same view) writes (same_get view)
           same_write).
Qed.

Lemma sync_macros_same :
  (∀ m, writes (Backup.Macro m)) → respects (same view) (Backup.sync_macros E cfg).
Proof.
  apply (sync_macros_respects E cfg (same view) writes (same_get view) same_write).
Qed.

End View.

(** X6. The four syncs that keep a cursor.  Whatever the answers of the API and
    however the run ends, [sync_users] changes no table but [users], no
    raw snapshot but those of users and no cursor but its own; likewise
    [sync_organizations]; [sync_tickets_comments_attachments] keeps to the
    tickets, their comments and their attachments, and to the tickets
    alone when the comments are left to the ticket events and nothing is
    pruned; [sync_ticket_events_for_comments] writes comments and
    attachments and no ticket. *)
Theorem cursor_syncs_keep_to_their_resources :
  ∀ now,
    confined ["users"] ["users"] ["users"] (Backup.sync_users E cfg now) ∧
    confined ["organizations"] ["organizations"] ["organizations"]
      (Backup.sync_organizations E cfg now) ∧
    confined ["tickets"; "ticket_comments"; "attachments"]
      ["tickets"; "comments"; "attachments"] ["tickets"]
      (Backup.sync_tickets_comments_attachments E cfg now) ∧
    (Backup.USE_TICKET_EVENTS_FOR_COMMENTS cfg = true →
     Backup.CLOSED_TICKETS_ONLY cfg && Backup.PRUNE_REOPENED_FROM_DB cfg = false →
     confined ["tickets"] ["tickets"] ["tickets"]
       (Backup.sync_tickets_comments_attachments E cfg now)) ∧
    confined ["ticket_comments"; "attachments"] ["comments"; "attachments"]
      ["ticket_events"] (Backup.sync_ticket_events_for_comments E cfg now).
Proof.
  intros now. split; [|split; [|split; [|split]]].
  - intros w. split; [|split].
    + intros t k Ht. apply (sync_users_same (row_at t k)).
      * intros u. apply write_entity_other_table. simpl. outside Ht.
      * intros token. apply cursor_rows.
    + intros r i Hr. apply (sync_users_same (raw_at r i)).
      * intros u. apply write_entity_other_resource. simpl. outside Hr.
      * intros token. apply cursor_raw.
    + intros c Hc. apply (sync_users_same (λ d, sync_state d !! c)).
      * intros u. apply write_entity_cursor.
      * intros token. apply cursor_other. outside Hc.
  - intros w. split; [|split].
    + intros t k Ht. apply (sync_organizations_same (row_at t k)).
      * intros o. apply write_entity_other_table. simpl. outside Ht.
      * intros token. apply cursor_rows.
    + intros r i Hr. apply (sync_organizations_same (raw_at r i)).
      * intros o. apply write_entity_other_resource. simpl. outside Hr.
      * intros token. apply cursor_raw.
    + intros c Hc. apply (sync_organizations_same (λ d, sync_state d !! c)).
      * intros o. apply write_entity_cursor.
      * intros token. apply cursor_other. outside Hc.
  - intros w. split; [|split].
    + intros t k Ht. apply (sync_tickets_same (row_at t k)).
      * intros x. apply write_entity_other_table. simpl. outside Ht.
      * intros _ tid c. apply write_entity_other_table. simpl. outside Ht.
      * intros _ tid cid a p. apply write_entity_other_table. simpl. outside Ht.
      * intros _ _ n. by apply delete_ticket_other_table.
      * intros token. apply cursor_rows.
    + intros r i Hr. apply (sync_tickets_same (raw_at r i)).
      * intros x. apply write_entity_other_resource. simpl. outside Hr.
      * intros _ tid c. apply write_entity_other_resource. simpl. outside Hr.
      * intros _ tid cid a p. apply write_entity_other_resource. simpl. outside Hr.
      * by intros _ _ n d.
      * intros token. apply cursor_raw.
    + intros c Hc. apply (sync_tickets_same (λ d, sync_state d !! c)).
      * intros x. apply write_entity_cursor.
      * intros _ tid x. apply write_entity_cursor.
      * intros _ tid cid a p. apply write_entity_cursor.
      * by intros _ _ n d.
      * intros token. apply cursor_other. outside Hc.
  - intros Hevents Hprune w. split; [|split].
    + intros t k Ht. apply (sync_tickets_same (row_at t k)).
      * intros x. apply write_entity_other_table. simpl. outside Ht.
      * intros Hno. congruence.
      * intros Hno. congruence.
      * intros Hclosed Hp. rewrite Hclosed, Hp in Hprune. done.
      * intros token. apply cursor_rows.
    + intros r i Hr. apply (sync_tickets_same (raw_at r i)).
      * intros x. apply write_entity_other_resource. simpl. outside Hr.
      * intros Hno. congruence.
      * intros Hno. congruence.
      * by intros _ _ n d.
      * intros token. apply cursor_raw.
    + intros c Hc. apply (sync_tickets_same (λ d, sync_state d !! c)).
      * intros x. apply write_entity_cursor.
      * intros _ tid x. apply write_entity_cursor.
      * intros _ tid cid a p. apply write_entity_cursor.
      * by intros _ _ n d.
      * intros token. apply cursor_other. outside Hc.
  - intros w. split; [|split].
    + intros t k Ht. apply (sync_ticket_events_same (row_at t k)).
      * intros tid c. apply write_entity_other_table. simpl. outside Ht.
      * intros tid cid a p. apply write_entity_other_table. simpl. outside Ht.
      * intros token. apply cursor_rows.
    + intros r i Hr. apply (sync_ticket_events_same (raw_at r i)).
      * intros tid c. apply write_entity_other_resource. simpl. outside Hr.
      * intros tid cid a p. apply write_entity_other_resource. simpl. outside Hr.
      * intros token. apply cursor_raw.
    + intros c Hc. apply (sync_ticket_events_same (λ d, sync_state d !! c)).
      * intros tid x. apply write_entity_cursor.
      * intros tid cid a p. apply write_entity_cursor.
      * intros token. apply cursor_other. outside Hc.
Qed.

(** X7. The four listings keep no cursor: [sync_views], [sync_triggers],
    [sync_trigger_categories] and [sync_macros] each change the table and
    the raw snapshots of their own resource and nothing else, whatever the
    answers of the API and however the run ends. *)
Theorem listings_keep_to_their_table_and_set_no_cursor :
  confined ["views"] ["views"] [] (Backup.sync_views E cfg) ∧
  confined ["triggers"] ["triggers"] [] (Backup.sync_triggers E cfg) ∧
  confined ["trigger_categories"] ["trigger_categories"] []
    (Backup.sync_trigger_categories E cfg) ∧
  confined ["macros"] ["macros"] [] (Backup.sync_macros E cfg).
Proof.
  split; [|split; [|split]]; intros w; (split; [|split]).
  - intros t k Ht. apply (sync_views_same (row_at t k)).
    intros x. apply write_entity_other_table. simpl. outside Ht.
  - intros r i Hr. apply (sync_views_same (raw_at r i)).
    intros x. apply write_entity_other_resource. simpl. outside Hr.
  - intros c _. apply (sync_views_same (λ d, sync_state d !! c)).
    intros x. apply write_entity_cursor.
  - intros t k Ht. apply (sync_triggers_same (row_at t k)).
    intros x. apply write_entity_other_table. simpl. outside Ht.
  - intros r i Hr. apply (sync_triggers_same (raw_at r i)).
    intros x. apply write_entity_other_resource. simpl. outside Hr.
  - intros c _. apply (sync_triggers_same (λ d, sync_state d !! c)).
    intros x. apply write_entity_cursor.
  - intros t k Ht. apply (sync_trigger_categories_same (row_at t k)).
    intros x. apply write_entity_other_table. simpl. outside Ht.
  - intros r i Hr. apply (sync_trigger_categories_same (raw_at r i)).
    intros x. apply write_entity_other_resource. simpl. outside Hr.
  - intros c _. apply (sync_trigger_categories_same (λ d, sync_state d !! c)).
    intros x. apply write_entity_cursor.
  - intros t k Ht. apply (sync_macros_same (row_at t k)).
    intros x. apply write_entity_other_table. simpl. outside Ht.
  - intros r i Hr. apply (sync_macros_same (raw_at r i)).
    intros x. apply write_entity_other_resource. simpl. outside Hr.
  - intros c _. apply (sync_macros_same (λ d, sync_state d !! c)).
    intros x. apply write_entity_cursor.
Qed.

End Confined.

(** ** The first request of a sync *)

(** The requests made so far stay, in their order. *)
Definition sent_grows (w w' : Backup.world) : Prop :=
  Backup.sent w `prefix_of` Backup.sent w'.

#[local] Instance sent_grows_preorder : PreOrder sent_grows.
Proof.
  split.
  - intros w. by unfold sent_grows.
  - intros w1 w2 w3 H12 H23. unfold sent_grows in *. by etransitivity.
Qed.

(** The request a run makes first, if it makes one. *)
Definition first_request {A} (m : M Backup.world A) (w : Backup.world)
    : option Backup.request :=
  Backup.sent (m w).1 !! length (Backup.sent w).

Lemma grows_get url params : respects sent_grows (Backup.session_get url params).
Proof.
  intros w. unfold sent_grows, Backup.session_get.
  destruct (Backup.feed w) as [|ev rest]; simpl; [done|]. by apply prefix_app_r.
Qed.

Lemma grows_page resource page : respects sent_grows (Backup.record_page resource page).
Proof. intros w. by unfold sent_grows. Qed.

Lemma grows_on_store {A} (m : M db A) : respects sent_grows (Backup.on_store m).
Proof. intros w. unfold sent_grows, Backup.on_store. by destruct (m (Backup.store w)). Qed.

Lemma session_get_first url params w :
  Backup.feed w ≠ [] →
  (Backup.sent w ++ [{| Backup.req_url := url; Backup.req_params := params |}])
    `prefix_of` Backup.sent (Backup.session_get url params w).1.
Proof. unfold Backup.session_get. by destruct (Backup.feed w). Qed.

Lemma prefix_bind {A B} (m : M Backup.world A) (K : A → M Backup.world B) l w :
  l `prefix_of` Backup.sent (m w).1 →
  (∀ a, respects sent_grows (K a)) →
  l `prefix_of` Backup.sent (bind m K w).1.
Proof.
  intros Hm HK. unfold bind. destruct (m w) as [w1 [a|e]]; simpl in *; [|done].
  etransitivity; [exact Hm|apply HK].
Qed.

Lemma prefix_first {A} (m : M Backup.world A) w req :
  (Backup.sent w ++ [req]) `prefix_of` Backup.sent (m w).1 → first_request m w = Some req.
Proof.
  intros [later Hsent]. unfold first_request. rewrite Hsent, <- (assoc_L (++)).
  by apply list_lookup_middle.
Qed.

Section FirstRequest.
Variables (E : env) (cfg : Backup.config).

Let writes (e : Backup.entity) : Prop := True.
Let cursors (resource : string) : Prop := True.

Lemma grows_write e :
  writes e → respects sent_grows (Backup.on_store (Backup.write_entity E e)).
Proof. intros _. apply grows_on_store. Qed.

Lemma grows_cursor resource token :
  cursors resource →
  respects sent_grows (Backup.on_store (Backup.set_cursor_val E resource token)).
Proof. intros _. apply grows_on_store. Qed.

Lemma grows_delete n :
  True → respects sent_grows (Backup.on_store (Backup.delete_ticket n)).
Proof. intros _. apply grows_on_store. Qed.

Lemma retry_loop_grows n url params :
  respects sent_grows (Backup.retry_loop E n url params).
Proof. apply (retry_loop_respects E sent_grows grows_get). Qed.

Lemma users_pages_grows fuel page : respects sent_grows (Backup.users_pages E fuel page).
Proof.
  apply (users_pages_respects E sent_grows writes cursors grows_get grows_page
           grows_write grows_cursor (λ _, I) I).
Qed.

Lemma snapshot_once_grows now : respects sent_grows (Backup.snapshot_once E cfg now).
Proof.
  apply (snapshot_once_respects E cfg sent_grows writes cursors grows_get
           grows_write grows_cursor (λ _, I) I).
Qed.

Lemma snapshot_pages_grows fuel page :
  respects sent_grows (Backup.snapshot_pages E fuel page).
Proof.
  apply (snapshot_pages_respects E sent_grows writes grows_get grows_write (λ _, I)).
Qed.

Lemma org_page_grows seen_ids streak resp :
  respects sent_grows (Backup.org_page E seen_ids streak resp).
Proof.
  apply (org_page_respects E sent_grows writes cursors grows_page
           grows_write grows_cursor (λ _, I) I).
Qed.

Lemma org_incremental_grows fuel now url params seen_ids streak :
  respects sent_grows (Backup.org_incremental E cfg fuel now url params seen_ids streak).
Proof.
  apply (org_incremental_respects E cfg sent_grows writes cursors grows_get grows_page
           grows_write grows_cursor (λ _, I) I).
Qed.

Lemma tickets_page_grows url resp :
  respects sent_grows (Backup.tickets_page E cfg url resp).
Proof.
  apply (tickets_page_respects E cfg sent_grows writes cursors True grows_get grows_page
           grows_write grows_cursor grows_delete
           (λ _ _ _ _, I) (λ _ _ _, I) (λ _ _ _ _ _, I) (λ _ _, I) I).
Qed.

Lemma tickets_loop_grows fuel url params :
  respects sent_grows (Backup.tickets_loop E cfg fuel url params).
Proof.
  apply (tickets_loop_respects E cfg sent_grows writes cursors True grows_get grows_page
           grows_write grows_cursor grows_delete
           (λ _ _ _ _, I) (λ _ _ _, I) (λ _ _ _ _ _, I) (λ _ _, I) I).
Qed.

Lemma ticket_events_loop_grows fuel url params :
  respects sent_grows (Backup.ticket_events_loop E cfg fuel url params).
Proof.
  apply (ticket_events_loop_respects E cfg sent_grows writes cursors grows_get
           grows_write grows_cursor (λ _ _ _ _, I) (λ _ _, I) I).
Qed.

Lemma listing_pages_grows fuel key kind page :
  respects sent_grows
    (Backup.listing_pages E fuel key (λ x, Backup.write_entity E (kind x)) page).
Proof.
  apply (listing_pages_respects E sent_grows writes grows_get grows_write).
  by intros x.
Qed.

(** A fetch on a feed that is not empty starts with its request. *)
Lemma fetch_first {A} url params (K : json → M Backup.world A) w :
  Backup.feed w ≠ [] →
  (∀ page, respects sent_grows (K page)) →
  first_request (page <- Backup.get_with_retry E url params ;; K page) w
  = Some {| Backup.req_url := url; Backup.req_params := params |}.
Proof.
  intros Hfeed HK. apply prefix_first, prefix_bind; [|exact HK].
  unfold Backup.get_with_retry.
  change (Backup.retry_loop E 8 url params)
    with (resp <- Backup.session_get url params ;;
          if Backup.status_code resp =? 200 then Backup.resp_json resp
          else if bool_decide (Backup.status_code resp ∈ Backup.RETRY_STATUS) then
            Backup.sleep_hint E (Backup.retry_after resp) ;;;
            Backup.retry_loop E 7 url params
          else raise (GetFailed (py_str E url) (Backup.status_code resp)
                        (Backup.failure_detail resp))).
  apply prefix_bind; [by apply session_get_first|intros resp].
  destruct (_ =? 200); [apply (respects_unchanged sent_grows), resp_json_view|].
  destruct (bool_decide _); [|apply (respects_raise sent_grows)].
  apply (respects_bind sent_grows);
    [apply (respects_unchanged sent_grows), sleep_hint_view|intros _].
  apply retry_loop_grows.
Qed.

(** The first turn of the loop of tickets, and of the incremental loop of
    organizations. *)
Lemma tickets_loop_first url params w :
  Backup.feed w ≠ [] →
  first_request (λ w, Backup.tickets_loop E cfg (Backup.fuel_of w) url params w) w
  = Some {| Backup.req_url := url; Backup.req_params := params |}.
Proof.
  intros Hfeed. apply prefix_first. unfold Backup.fuel_of. cbn [Backup.tickets_loop].
  apply prefix_bind.
  2: { intros c. destruct c; [apply tickets_loop_grows|apply (respects_ret sent_grows)]. }
  unfold Backup.tickets_turn.
  pose proof (session_get_first url params w Hfeed) as Hget.
  destruct (Backup.session_get url params w) as [w1 [resp|e]]; simpl in Hget.
  - destruct (_ =? 200).
    { etransitivity; [exact Hget|apply tickets_page_grows]. }
    destruct (_ =? 429).
    { etransitivity; [exact Hget|].
      apply (respects_bind sent_grows);
        [apply (respects_unchanged sent_grows), capped_hint_view|].
      intros _. apply (respects_ret sent_grows). }
    by destruct (bool_decide _).
  - by destruct e.
Qed.

Lemma org_incremental_first now url params seen_ids streak w :
  Backup.feed w ≠ [] →
  first_request (λ w, Backup.org_incremental E cfg (Backup.fuel_of w) now url params
                        seen_ids streak w) w
  = Some {| Backup.req_url := url; Backup.req_params := params |}.
Proof.
  intros Hfeed. apply prefix_first. unfold Backup.fuel_of. cbn [Backup.org_incremental].
  apply prefix_bind.
  2: { intros c. destruct c;
         [apply org_incremental_grows|apply snapshot_once_grows
         |apply (respects_ret sent_grows)]. }
  unfold Backup.org_turn.
  pose proof (session_get_first url params w Hfeed) as Hget.
  destruct (Backup.session_get url params w) as [w1 [resp|e]]; simpl in Hget.
  - destruct (_ =? 200).
    { etransitivity; [exact Hget|apply org_page_grows]. }
    destruct (_ =? 429).
    { etransitivity; [exact Hget|].
      apply (respects_bind sent_grows);
        [apply (respects_unchanged sent_grows), capped_hint_view|].
      intros _. apply (respects_ret sent_grows). }
    by destruct (bool_decide _).
  - by destruct e.
Qed.

(** Reading the cursor makes no request. *)
Lemma first_request_after_read {A} resource (K : option json → M Backup.world A) w :
  first_request (last <- Backup.on_store (Backup.get_cursor_val resource) ;; K last) w
  = first_request (K (cursor_of resource w)) w.
Proof.
  unfold first_request, bind, Backup.on_store, Backup.get_cursor_val, cursor_of.
  simpl. by destruct w.
Qed.

(** X8. What each sync asks first, when the API answers at all.  The syncs of
    users and of tickets resume from the stored cursor, and start from the
    bootstrap time (at least 120 seconds back) when there is none; the
    loop of tickets asks for 100 rows per page unless [ZENDESK_PER_PAGE]
    is set, where the other syncs ask for 500.  The sync of the ticket
    events starts from the stored epoch, read as an integer.  The sync of
    organizations lists them all when there is no cursor or when the
    snapshot is forced, with a page size kept between 25 and 100, and
    otherwise starts from the stored epoch. *)
Theorem syncs_resume_from_the_stored_cursor :
  ∀ now w,
    Backup.feed w ≠ [] →
    first_request (Backup.sync_users E cfg now) w
    = Some {| Backup.req_url := Backup.url_of cfg "/api/v2/incremental/users/cursor.json";
              Backup.req_params :=
                [("per_page", JNum (default 500 (Backup.ZENDESK_PER_PAGE cfg)));
                 if truthy (default JNull (cursor_of "users" w))
                 then ("cursor", default JNull (cursor_of "users" w))
                 else ("start_time",
                       JNum (now - Z.max (Backup.BOOTSTRAP_HOURS cfg * 3600) 120))] |} ∧
    first_request (Backup.sync_tickets_comments_attachments E cfg now) w
    = Some {| Backup.req_url := Backup.url_of cfg "/api/v2/incremental/tickets/cursor.json";
              Backup.req_params :=
                [("per_page", JNum (default 100 (Backup.ZENDESK_PER_PAGE cfg)))] ++
                (if String.eqb (Backup.INCLUDE cfg) "" then []
                 else [("include", JStr (Backup.INCLUDE cfg))]) ++
                (if Backup.EXCLUDE_DELETED cfg then [("exclude_deleted", JStr "true")]
                 else []) ++
                [if truthy (default JNull (cursor_of "tickets" w))
                 then ("cursor", default JNull (cursor_of "tickets" w))
                 else ("start_time",
                       JNum (now - Z.max (Backup.BOOTSTRAP_HOURS cfg * 3600) 120))] |} ∧
    (∀ start_time,
       (if truthy (default JNull (cursor_of "ticket_events" w))
        then py_int E (default JNull (cursor_of "ticket_events" w))
        else Ok (now - Z.max (Backup.BOOTSTRAP_HOURS cfg * 3600) 120)) = Ok start_time →
       first_request (Backup.sync_ticket_events_for_comments E cfg now) w
       = Some {| Backup.req_url := Backup.url_of cfg "/api/v2/incremental/ticket_events.json";
                 Backup.req_params :=
                   [("start_time", JNum start_time);
                    ("per_page", JNum (default 500 (Backup.ZENDESK_PER_PAGE cfg)));
                    ("include", JStr "comment_events")] |}) ∧
    (Backup.FORCE_ORG_SNAPSHOT cfg = true ∨
     truthy (default JNull (cursor_of "organizations" w)) = false →
     first_request (Backup.sync_organizations E cfg now) w
     = Some {| Backup.req_url := Backup.url_of cfg "/api/v2/organizations.json";
               Backup.req_params := [("per_page", JNum (Backup.org_per_page cfg))] |}) ∧
    (∀ start_time,
       Backup.FORCE_ORG_SNAPSHOT cfg = false →
       truthy (default JNull (cursor_of "organizations" w)) = true →
       py_int E (default JNull (cursor_of "organizations" w)) = Ok start_time →
       first_request (Backup.sync_organizations E cfg now) w
       = Some {| Backup.req_url :=
                   Backup.url_of cfg "/api/v2/incremental/organizations.json";
                 Backup.req_params := [("per_page", JNum (Backup.org_per_page cfg));
                                       ("start_time", JNum start_time)] |}) ∧
    25 ≤ Backup.org_per_page cfg ≤ 100.
Proof.
  intros now w Hfeed. split; [|split; [|split; [|split; [|split]]]].
  - unfold Backup.sync_users. rewrite first_request_after_read.
    rewrite fetch_first; [|done|intros first w'; apply users_pages_grows].
    unfold Backup.PER_PAGE, Backup.initial_start_time_epoch.
    by destruct (truthy _).
  - unfold Backup.sync_tickets_comments_attachments. rewrite first_request_after_read.
    rewrite tickets_loop_first; [|done].
    unfold Backup.ticket_initial_params, Backup.PER_PAGE, Backup.initial_start_time_epoch.
    simpl. by destruct (truthy _).
  - intros start_time Hstart. unfold Backup.sync_ticket_events_for_comments.
    rewrite first_request_after_read. unfold Backup.initial_start_time_epoch.
    destruct (truthy (default JNull (cursor_of "ticket_events" w))).
    + unfold first_request, bind at 1, lift at 1. rewrite Hstart.
      unfold Backup.fuel_of. cbn [Backup.ticket_events_loop].
      apply (fetch_first _ _ (λ page, match page with
                                      | JObj p => _
                                      | _ => _
                                      end) w Hfeed).
      intros page. destruct page; try apply (respects_raise sent_grows).
      apply (respects_bind sent_grows); [apply (respects_lift sent_grows)|intros events].
      apply (respects_bind sent_grows).
      { apply (respects_for_each sent_grows). intros ev.
        apply (ticket_event_step_respects E cfg sent_grows writes grows_get grows_write
                 (λ _ _ _ _, I) (λ _ _, I)). }
      intros _. destruct (truthy (get kvs "next_page")); [apply ticket_events_loop_grows|].
      destruct (truthy _); [apply grows_on_store|apply (respects_ret sent_grows)].
    + injection Hstart as <-. unfold first_request, bind at 1, ret at 1.
      unfold Backup.fuel_of. cbn [Backup.ticket_events_loop].
      apply (fetch_first _ _ (λ page, match page with
                                      | JObj p => _
                                      | _ => _
                                      end) w Hfeed).
      intros page. destruct page; try apply (respects_raise sent_grows).
      apply (respects_bind sent_grows); [apply (respects_lift sent_grows)|intros events].
      apply (respects_bind sent_grows).
      { apply (respects_for_each sent_grows). intros ev.
        apply (ticket_event_step_respects E cfg sent_grows writes grows_get grows_write
                 (λ _ _ _ _, I) (λ _ _, I)). }
      intros _. destruct (truthy (get kvs "next_page")); [apply ticket_events_loop_grows|].
      destruct (truthy _); [apply grows_on_store|apply (respects_ret sent_grows)].
  - intros Hsnapshot. unfold Backup.sync_organizations. rewrite first_request_after_read.
    assert (Hgo : Backup.FORCE_ORG_SNAPSHOT cfg
                  || negb (truthy (default JNull (cursor_of "organizations" w))) = true).
    { destruct Hsnapshot as [-> | ->]; [done|]. by rewrite orb_true_r. }
    rewrite Hgo. unfold Backup.snapshot_once.
    apply fetch_first; [done|]. intros page.
    apply (respects_bind sent_grows); [intros w'; apply snapshot_pages_grows|intros _].
    apply grows_on_store.
  - intros start_time Hforce Hcursor Hint. unfold Backup.sync_organizations.
    rewrite first_request_after_read, Hforce, Hcursor. simpl.
    unfold first_request, bind at 1, lift at 1. rewrite Hint.
    by apply org_incremental_first.
  - unfold Backup.org_per_page. lia.
Qed.

(** X9. The listings ask for their first page with at most 100 rows per page,
    and pass [ZENDESK_INCLUDE] for the views and the macros only. *)
Theorem listings_ask_for_at_most_100_rows_per_page :
  ∀ w,
    Backup.feed w ≠ [] →
    first_request (Backup.sync_views E cfg) w
    = Some {| Backup.req_url := Backup.url_of cfg "/api/v2/views.json";
              Backup.req_params := Backup.listing_params cfg true |} ∧
    first_request (Backup.sync_triggers E cfg) w
    = Some {| Backup.req_url := Backup.url_of cfg "/api/v2/triggers.json";
              Backup.req_params := Backup.listing_params cfg false |} ∧
    first_request (Backup.sync_trigger_categories E cfg) w
    = Some {| Backup.req_url := Backup.url_of cfg "/api/v2/trigger_categories.json";
              Backup.req_params := Backup.listing_params cfg false |} ∧
    first_request (Backup.sync_macros E cfg) w
    = Some {| Backup.req_url := Backup.url_of cfg "/api/v2/macros.json";
              Backup.req_params := Backup.listing_params cfg true |} ∧
    (∀ with_include,
       ∃ n, get (Backup.listing_params cfg with_include) "per_page" = JNum n ∧
            n ≤ 100 ∧ n ≤ default 500 (Backup.ZENDESK_PER_PAGE cfg)) ∧
    assoc "include" (Backup.listing_params cfg false) = None ∧
    assoc "include" (Backup.listing_params cfg true)
    = if String.eqb (Backup.INCLUDE cfg) "" then None else Some (JStr (Backup.INCLUDE cfg)).
Proof.
  intros w Hfeed.
  split; [|split; [|split; [|split; [|split; [|split]]]]].
  - apply fetch_first; [done|]. intros page w'.
    apply (listing_pages_grows _ _ Backup.View).
  - apply fetch_first; [done|]. intros page w'.
    apply (listing_pages_grows _ _ Backup.Trigger).
  - apply fetch_first; [done|]. intros page w'.
    apply (listing_pages_grows _ _ Backup.TriggerCategory).
  - apply fetch_first; [done|]. intros page w'.
    apply (listing_pages_grows _ _ Backup.Macro).
  - intros with_include. eexists. split; [reflexivity|].
    unfold Backup.PER_PAGE. lia.
  - done.
  - unfold Backup.listing_params. simpl. by destruct (String.eqb (Backup.INCLUDE cfg) "").
Qed.

End FirstRequest.

(** A store that holds the cursor of users after a first run. *)
Definition resumed_users_db : db :=
  with_sync_state (insert "users" (JStr "c2")) empty_db.

Lemma syncs_resume_witness :
  first_request (Backup.sync_users test_env test_cfg 1700000000)
    (fresh_world resumed_users_db users_feed)
  = Some {| Backup.req_url :=
              JStr "https://example.zendesk.com/api/v2/incremental/users/cursor.json";
            Backup.req_params := [("per_page", JNum 500); ("cursor", JStr "c2")] |} ∧
  first_request (Backup.sync_users test_env test_cfg 1700000000)
    (fresh_world empty_db users_feed)
  = Some {| Backup.req_url :=
              JStr "https://example.zendesk.com/api/v2/incremental/users/cursor.json";
            Backup.req_params := [("per_page", JNum 500);
                                  ("start_time", JNum 1699913600)] |}.
Proof.
  split.
  - apply (syncs_resume_from_the_stored_cursor test_env test_cfg 1700000000
             (fresh_world resumed_users_db users_feed)). discriminate.
  - apply (syncs_resume_from_the_stored_cursor test_env test_cfg 1700000000
             (fresh_world empty_db users_feed)). discriminate.
Defined.

Lemma listings_first_request_witness :
  first_request (Backup.sync_views test_env test_cfg) (fresh_world empty_db users_feed)
  = Some {| Backup.req_url := JStr "https://example.zendesk.com/api/v2/views.json";
            Backup.req_params := [("per_page", JNum 100)] |}.
Proof.
  apply (listings_ask_for_at_most_100_rows_per_page test_env test_cfg
           (fresh_world empty_db users_feed)). discriminate.
Defined.

(** ** Closed-only filtering *)

(** A status that the loop of tickets reads as closed: [(status or
    "").lower() == "closed"]. *)
Definition reads_closed (E : env) (status : json) : Prop :=
  match py_or status (JStr "") with
  | JStr s => str_lower E s = "closed"
  | _ => False
  end.

Definition closed_row (E : env) (r : row) : Prop :=
  ∃ status, col "status" r = Some (Val status) ∧ reads_closed E status.

Definition closed_payload (E : env) (payload : json) : Prop :=
  ∃ o, payload = JObj o ∧ reads_closed E (get o "status").

(** The rows and the raw snapshots of tickets of [w'] are those of [w] or
    are closed. *)
Definition closed_only (E : env) (w w' : Backup.world) : Prop :=
  (∀ k r, row_at "tickets" k (Backup.store w') = Some r →
          row_at "tickets" k (Backup.store w) = Some r ∨ closed_row E r) ∧
  (∀ i s, raw_at "tickets" i (Backup.store w') = Some s →
          raw_at "tickets" i (Backup.store w) = Some s ∨
          closed_payload E (raw_payload s)).

#[local] Instance closed_only_preorder E : PreOrder (closed_only E).
Proof.
  split.
  - intros w. split; intros; by left.
  - intros w1 w2 w3 [Hr12 Hs12] [Hr23 Hs23]. split.
    + intros k r Hr. destruct (Hr23 k r Hr) as [Hr2|Hc]; [by apply Hr12|by right].
    + intros i s Hs. destruct (Hs23 i s Hs) as [Hs2|Hc]; [by apply Hs12|by right].
Qed.

Lemma closed_only_same_store E w w' :
  Backup.store w' = Backup.store w → closed_only E w w'.
Proof. intros Hs. split; intros ? ? H; left; by rewrite <- Hs. Qed.

Section ClosedOnly.
Variables (E : env) (cfg : Backup.config).

(** The rows an upsert leaves are the rows it found and the one it
    writes. *)
Lemma upsert_rows_either t key c id columns (n : result Z) resource updated_at payload
    d t' k r :
  row_at t' k ((insert_row E t key ((c, id) :: columns) ;;;
                i <- lift n ;;
                Backup.upsert_raw E resource i updated_at payload) d).1 = Some r →
  row_at t' k d = Some r ∨ t' = t ∧ r = columns.
Proof.
  unfold bind, lift, insert_row, Backup.upsert_raw, row_at.
  destruct (key id) as [k0|]; [|by left].
  destruct (pg_accepts E t _); [|by left].
  assert (Hin : structured (with_structured (insert (t, k0) columns) d) !! (t', k) = Some r →
                structured d !! (t', k) = Some r ∨ t' = t ∧ r = columns).
  { simpl. destruct (decide ((t, k0) = (t', k))) as [Heq|Hne].
    - injection Heq as <- <-. rewrite lookup_insert_eq. intros [= <-]. by right.
    - rewrite lookup_insert_ne by done. by left. }
  destruct n as [i|e]; [|exact Hin].
  destruct (pg_accepts E "raw_snapshots" _); exact Hin.
Qed.

Lemma upsert_raw_either t key c id columns (n : result Z) resource updated_at payload
    d resource' i s :
  raw_at resource' i ((insert_row E t key ((c, id) :: columns) ;;;
                       i <- lift n ;;
                       Backup.upsert_raw E resource i updated_at payload) d).1 = Some s →
  raw_at resource' i d = Some s ∨ resource' = resource ∧ raw_payload s = payload.
Proof.
  unfold bind, lift, insert_row, Backup.upsert_raw, raw_at.
  destruct (key id) as [k0|]; [|by left].
  destruct (pg_accepts E t _); [|by left].
  destruct n as [j|e]; [|by left].
  destruct (pg_accepts E "raw_snapshots" _); [|by left].
  simpl. destruct (decide ((resource, j) = (resource', i))) as [Heq|Hne].
  - injection Heq as <- <-. rewrite lookup_insert_eq. intros [= <-]. by right.
  - rewrite lookup_insert_ne by done. by left.
Qed.

(** What the run may write when only closed tickets are kept. *)
Definition closed_writes (e : Backup.entity) : Prop :=
  match e with
  | Backup.Ticket (JObj o) => reads_closed E (get o "status")
  | _ => True
  end.

Lemma closed_only_on_store {A} (m : M db A) :
  (∀ d k r, row_at "tickets" k (m d).1 = Some r →
            row_at "tickets" k d = Some r ∨ closed_row E r) →
  (∀ d i s, raw_at "tickets" i (m d).1 = Some s →
            raw_at "tickets" i d = Some s ∨ closed_payload E (raw_payload s)) →
  respects (closed_only E) (Backup.on_store m).
Proof.
  intros Hrows Hraw w. rewrite on_store_run. split; simpl; [apply Hrows|apply Hraw].
Qed.

Lemma closed_only_other {A} (m : M db A) :
  (∀ k, preserves (row_at "tickets" k) m) →
  (∀ i, preserves (raw_at "tickets" i) m) →
  respects (closed_only E) (Backup.on_store m).
Proof.
  intros Hrows Hraw. apply closed_only_on_store.
  - intros d k r. rewrite (Hrows k d). by left.
  - intros d i s. rewrite (Hraw i d). by left.
Qed.

Lemma closed_get url params :
  respects (closed_only E) (Backup.session_get url params).
Proof.
  intros w. apply closed_only_same_store. unfold Backup.session_get.
  by destruct (Backup.feed w).
Qed.

Lemma closed_page resource page :
  respects (closed_only E) (Backup.record_page resource page).
Proof. intros w. by apply closed_only_same_store. Qed.

Lemma closed_write e :
  closed_writes e → respects (closed_only E) (Backup.on_store (Backup.write_entity E e)).
Proof.
  intros He.
  destruct e as [j|j|j|tid j|tid cid j path|j|j|j|j];
    try (apply closed_only_other;
         [intros k; by apply write_entity_other_table
         |intros i; by apply write_entity_other_resource]).
  destruct j as [| | | | |o];
    try (apply closed_only_other; intros ?; apply preserves_raise).
  simpl in He. apply closed_only_on_store.
  - intros d k r Hr. apply upsert_rows_either in Hr as [Hr|[_ ->]]; [by left|right].
    by exists (get o "status").
  - intros d i s Hs. apply upsert_raw_either in Hs as [Hs|[_ Hs]]; [by left|right].
    exists o. by rewrite Hs.
Qed.

Lemma closed_cursor resource token :
  True →
  respects (closed_only E) (Backup.on_store (Backup.set_cursor_val E resource token)).
Proof.
  intros _. apply closed_only_other.
  - intros k d. unfold row_at. by rewrite set_cursor_val_structured.
  - intros i d. unfold raw_at. by rewrite set_cursor_val_raw.
Qed.

Lemma closed_delete n :
  True → respects (closed_only E) (Backup.on_store (Backup.delete_ticket n)).
Proof.
  intros _. apply closed_only_on_store.
  - intros d k r. rewrite delete_ticket_rows.
    destruct (row_at "tickets" k d) as [r0|]; [|done].
    destruct (bool_decide _); [done|]. by left.
  - intros d i s Hs. by left.
Qed.

(** X11. With closed-only filtering, the sync of tickets stores closed tickets
    only: every row of the table of tickets and every raw snapshot of a
    ticket found after a run, whatever the API answered and however the
    run ended, was there before the run or has a status that reads, in
    lower case, as closed.  A ticket that is not closed is passed over
    without a request for its comments, and without any change when
    pruning is off. *)
Theorem closed_only_sync_stores_closed_tickets_only :
  Backup.CLOSED_TICKETS_ONLY cfg = true →
  (∀ now w k r,
     row_at "tickets" k
       (Backup.store (Backup.sync_tickets_comments_attachments E cfg now w).1) = Some r →
     row_at "tickets" k (Backup.store w) = Some r ∨ closed_row E r) ∧
  (∀ now w i s,
     raw_at "tickets" i
       (Backup.store (Backup.sync_tickets_comments_attachments E cfg now w).1) = Some s →
     raw_at "tickets" i (Backup.store w) = Some s ∨ closed_payload E (raw_payload s)) ∧
  (∀ t status w,
     Backup.ticket_status E t = Ok status → status ≠ "closed" →
     Backup.feed (Backup.ticket_step E cfg (JObj t) w).1 = Backup.feed w ∧
     Backup.sent (Backup.ticket_step E cfg (JObj t) w).1 = Backup.sent w ∧
     (Backup.PRUNE_REOPENED_FROM_DB cfg = false →
      Backup.ticket_step E cfg (JObj t) w = (w, Ok tt))).
Proof.
  intros Hclosed.
  assert (Hrun : ∀ now, respects (closed_only E)
                          (Backup.sync_tickets_comments_attachments E cfg now)).
  { apply (sync_tickets_respects E cfg (closed_only E) closed_writes (λ _, True) True
             closed_get closed_page closed_write closed_cursor closed_delete);
      try done.
    intros kvs status Hstatus Hkeep. rewrite Hclosed in Hkeep. simpl in Hkeep.
    apply negb_false_iff, String.eqb_eq in Hkeep. subst status.
    unfold Backup.ticket_status in Hstatus. simpl. unfold reads_closed.
    destruct (py_or (get kvs "status") (JStr "")); try done. by injection Hstatus. }
  split; [|split].
  - intros now w. apply (Hrun now w).
  - intros now w. apply (Hrun now w).
  - intros t status w Hstatus Hopen.
    assert (Hstep : Backup.ticket_step E cfg (JObj t) w
                    = (if Backup.PRUNE_REOPENED_FROM_DB cfg
                       then ticket_id <- lift (Backup.int_id E t) ;;
                            Backup.on_store (Backup.delete_ticket ticket_id)
                       else ret tt) w).
    { unfold Backup.ticket_step. unfold bind at 1, lift at 1.
      apply String.eqb_neq in Hopen. by rewrite Hstatus, Hclosed, Hopen. }
    rewrite Hstep. destruct (Backup.PRUNE_REOPENED_FROM_DB cfg); [|done].
    unfold bind, lift. destruct (Backup.int_id E t); [|done].
    by rewrite on_store_run.
Qed.

End ClosedOnly.

(** A page of the incremental export with a closed and an open ticket. *)
Definition mixed_tickets_page : json :=
  JObj [("tickets", JArr [JObj [("id", JNum 5); ("status", JStr "Closed")];
                          JObj [("id", JNum 6); ("status", JStr "open")]]);
        ("end_of_stream", JBool true)].

Definition closed_only_cfg : Backup.config :=
  {| Backup.Z_BASE := "https://example.zendesk.com";
     Backup.ZENDESK_PER_PAGE := None;
     Backup.INCLUDE := "";
     Backup.EXCLUDE_DELETED := false;
     Backup.BOOTSTRAP_HOURS := 24;
     Backup.CLOSED_TICKETS_ONLY := true;
     Backup.USE_TICKET_EVENTS_FOR_COMMENTS := true;
     Backup.PRUNE_REOPENED_FROM_DB := false;
     Backup.ORG_PER_PAGE := 100;
     Backup.FORCE_ORG_SNAPSHOT := false |}.

Lemma closed_only_witness :
  Backup.CLOSED_TICKETS_ONLY closed_only_cfg = true ∧
  map_to_list
    (structured
       (Backup.store
          (Backup.sync_tickets_comments_attachments test_env closed_only_cfg 1700000000
             (fresh_world empty_db [page_answer mixed_tickets_page])).1))
  = [(("tickets", inl 5),
      tail (Backup.ticket_params test_env [("id", JNum 5); ("status", JStr "Closed")]))] ∧
  closed_row test_env
    (tail (Backup.ticket_params test_env [("id", JNum 5); ("status", JStr "Closed")])).
Proof.
  split; [reflexivity|]. split; [by vm_compute|].
  destruct (closed_only_sync_stores_closed_tickets_only test_env closed_only_cfg eq_refl)
    as (Hrows & _ & _).
  destruct (Hrows 1700000000 (fresh_world empty_db [page_answer mixed_tickets_page])
              (inl 5)
              (tail (Backup.ticket_params test_env [("id", JNum 5); ("status", JStr "Closed")])))
    as [Hbefore|Hrow]; [by vm_compute|done|exact Hrow].
Defined.

(** ** The cursor of the ticket events *)

(** The cursors after a run of the loop of ticket events: those before
    it, with at most the epoch of the last page stored for the events, and
    this only when the run returned. *)
Definition events_cursor_moved (E : env) {A} (w : Backup.world)
    (run : Backup.world * result A) : Prop :=
  match run.2 with
  | Ok _ =>
      sync_state (Backup.store run.1) = sync_state (Backup.store w) ∨
      ∃ end_time,
        truthy end_time = true ∧
        sync_state (Backup.store run.1)
        = <["ticket_events" := JStr (py_str E end_time)]> (sync_state (Backup.store w))
  | Raise _ => sync_state (Backup.store run.1) = sync_state (Backup.store w)
  end.

Section TicketEventsCursor.
Variables (E : env) (cfg : Backup.config).

Lemma fetch_keeps_cursors url params :
  respects (same sync_state) (Backup.get_with_retry E url params).
Proof. apply (get_with_retry_respects E (same sync_state) (same_get sync_state)). Qed.

Lemma ticket_event_step_keeps_cursors ev :
  respects (same sync_state) (Backup.ticket_event_step E cfg ev).
Proof.
  apply (ticket_event_step_respects E cfg (same sync_state)
           (λ e, preserves sync_state (Backup.write_entity E e))
           (same_get sync_state) (same_write E sync_state)).
  - intros. apply write_entity_sync_state.
  - intros. apply write_entity_sync_state.
Qed.

Lemma ticket_events_loop_cursor fuel url params w :
  events_cursor_moved E w (Backup.ticket_events_loop E cfg fuel url params w).
Proof.
  revert url params w. induction fuel as [|fuel IH]; intros url params w; [done|].
  cbn [Backup.ticket_events_loop]. unfold bind at 1.
  pose proof (fetch_keeps_cursors url params w) as Hfetch. unfold same in Hfetch.
  destruct (Backup.get_with_retry E url params w) as [w1 [page|e]]; simpl in Hfetch;
    [|exact Hfetch].
  destruct page as [| | | | |p]; try exact Hfetch.
  unfold bind at 1, lift at 1.
  destruct (py_iter (get_or p "ticket_events" (JArr []))) as [events|e];
    [|exact Hfetch].
  unfold bind at 1.
  pose proof (respects_for_each (same sync_state) (Backup.ticket_event_step E cfg) events
                ticket_event_step_keeps_cursors w1) as Hsteps.
  unfold same in Hsteps.
  destruct (for_each (Backup.ticket_event_step E cfg) events w1) as [w2 [[]|e]];
    simpl in Hsteps; [|unfold events_cursor_moved; simpl; congruence].
  assert (Hsame : sync_state (Backup.store w2) = sync_state (Backup.store w))
    by congruence.
  destruct (truthy (get p "next_page")).
  { specialize (IH (get p "next_page") [] w2). unfold events_cursor_moved in *.
    destruct (Backup.ticket_events_loop E cfg fuel (get p "next_page") [] w2) as [w3 [[]|e]];
      simpl in *; by rewrite <- Hsame. }
  destruct (truthy (get p "end_time")) eqn:Hend; [|by left].
  rewrite on_store_run. unfold events_cursor_moved, Backup.set_cursor_val.
  destruct (pg_accepts E _ _); simpl; [|done].
  right. exists (get p "end_time"). by rewrite Hsame.
Qed.

(** X12. The sync of the ticket events stores its cursor once, after the last
    page: a run that raises, at whatever point, leaves every cursor as it
    was, so the next run starts from the same time again; a run that
    returns has stored at most the epoch of its last page, as a string. *)
Theorem ticket_events_cursor_moves_only_at_the_end :
  ∀ now w,
    events_cursor_moved E w (Backup.sync_ticket_events_for_comments E cfg now w).
Proof.
  intros now w. unfold Backup.sync_ticket_events_for_comments.
  unfold bind at 1. rewrite on_store_run. cbn [fst snd Backup.get_cursor_val].
  set (w0 := {| Backup.store := Backup.store w; Backup.feed := Backup.feed w;
                Backup.sent := Backup.sent w; Backup.journal := Backup.journal w |}).
  assert (Hw : w0 = w) by (by destruct w). rewrite Hw. clear w0 Hw.
  unfold bind at 1.
  destruct (truthy _).
  - unfold lift. destruct (py_int E _); [|done]. apply ticket_events_loop_cursor.
  - apply ticket_events_loop_cursor.
Qed.

End TicketEventsCursor.

(** ** Transient failures in the loops of tickets and organizations *)

(** An answer the two loops pass over: a network error, or a status of
    [RETRY_STATUS]; on a 429 the [Retry-After] header, when there is one,
    has to be a number. *)
Definition transient (E : env) (ev : Backup.event) : Prop :=
  match ev with
  | Backup.NetworkError => True
  | Backup.Response r =>
      Backup.status_code r ∈ Backup.RETRY_STATUS ∧
      (Backup.status_code r = 429 →
       match Backup.retry_after r with
       | Some s => s = "" ∨ is_Some (float_of_header E s)
       | None => True
       end)
  end.

Lemma requested_none url params w :
  requested url params 0 w (Backup.feed w) = w.
Proof. unfold requested. simpl. rewrite app_nil_r. by destruct w. Qed.

Lemma requested_more url params n w feed rest :
  requested url params n (requested url params 1 w feed) rest
  = requested url params (S n) w rest.
Proof. unfold requested. simpl. by rewrite <- (assoc_L (++)). Qed.

Section Transient.
Variables (E : env) (cfg : Backup.config).

Lemma transient_not_ok r :
  Backup.status_code r ∈ Backup.RETRY_STATUS → (Backup.status_code r =? 200) = false.
Proof.
  intros Hs. apply Z.eqb_neq. intros H200. rewrite H200 in Hs.
  revert Hs. apply (bool_decide_unpack _). vm_compute. exact I.
Qed.

Lemma transient_hint {S} r (s : S) :
  transient E (Backup.Response r) → Backup.status_code r = 429 →
  Backup.capped_hint E (Backup.retry_after r) s = (s, Ok tt).
Proof.
  intros [_ Hh] H429. specialize (Hh H429). unfold Backup.capped_hint.
  destruct (Backup.retry_after r) as [h|]; [|done].
  destruct (String.eqb_spec h "") as [->|Hne]; [done|].
  destruct Hh as [->|[b Hf]]; [done|]. by rewrite Hf.
Qed.

Lemma tickets_turn_transient url params w ev rest :
  Backup.feed w = ev :: rest → transient E ev →
  Backup.tickets_turn E cfg url params w
  = (requested url params 1 w rest, Ok (Backup.TicketsContinue url params)).
Proof.
  intros Hfeed Hev. unfold Backup.tickets_turn, Backup.session_get. rewrite Hfeed.
  destruct ev as [r|]; [|done].
  rewrite (transient_not_ok r (proj1 Hev)).
  destruct (Backup.status_code r =? 429) eqn:H429.
  - apply Z.eqb_eq in H429. unfold bind. by rewrite (transient_hint r _ Hev H429).
  - by rewrite (bool_decide_eq_true_2 _ (proj1 Hev)).
Qed.

Lemma org_turn_transient url params seen_ids streak w ev rest :
  Backup.feed w = ev :: rest → transient E ev →
  Backup.org_turn E url params seen_ids streak w
  = (requested url params 1 w rest, Ok (Backup.OrgContinue url params seen_ids streak)).
Proof.
  intros Hfeed Hev. unfold Backup.org_turn, Backup.session_get. rewrite Hfeed.
  destruct ev as [r|]; [|done].
  rewrite (transient_not_ok r (proj1 Hev)).
  destruct (Backup.status_code r =? 429) eqn:H429.
  - apply Z.eqb_eq in H429. unfold bind. by rewrite (transient_hint r _ Hev H429).
  - by rewrite (bool_decide_eq_true_2 _ (proj1 Hev)).
Qed.

Lemma tickets_loop_transient fuel url params w ts rest :
  Backup.feed w = ts ++ rest → Forall (transient E) ts →
  Backup.tickets_loop E cfg (length ts + fuel) url params w
  = Backup.tickets_loop E cfg fuel url params (requested url params (length ts) w rest).
Proof.
  revert w. induction ts as [|ev ts IH]; intros w Hfeed Hall.
  - simpl in *. by rewrite <- Hfeed, requested_none.
  - apply Forall_cons in Hall as [Hev Hall]. simpl in Hfeed.
    cbn [length Nat.add Backup.tickets_loop]. unfold bind at 1.
    rewrite (tickets_turn_transient url params w ev (ts ++ rest) Hfeed Hev).
    rewrite (IH (requested url params 1 w (ts ++ rest))); [|done|done].
    by rewrite requested_more.
Qed.

Lemma org_incremental_transient fuel now url params seen_ids streak w ts rest :
  Backup.feed w = ts ++ rest → Forall (transient E) ts →
  Backup.org_incremental E cfg (length ts + fuel) now url params seen_ids streak w
  = Backup.org_incremental E cfg fuel now url params seen_ids streak
      (requested url params (length ts) w rest).
Proof.
  revert w. induction ts as [|ev ts IH]; intros w Hfeed Hall.
  - simpl in *. by rewrite <- Hfeed, requested_none.
  - apply Forall_cons in Hall as [Hev Hall]. simpl in Hfeed.
    cbn [length Nat.add Backup.org_incremental]. unfold bind at 1.
    rewrite (org_turn_transient url params seen_ids streak w ev (ts ++ rest) Hfeed Hev).
    rewrite (IH (requested url params 1 w (ts ++ rest))); [|done|done].
    by rewrite requested_more.
Qed.

(** X13. The loops of tickets and of organizations retry a transient failure
    for as long as it lasts, where the fetcher gives up after eight
    attempts: whatever the number of network errors, 429 and 5xx answers
    in a row, each is answered by the same request again, nothing is
    written, the ids seen and the streak of duplicate pages are kept, and
    the run goes on from the first other answer as if it had started
    there. *)
Theorem transient_failures_are_retried_without_bound :
  ∀ url params w ts rest,
    Backup.feed w = ts ++ rest →
    Forall (transient E) ts →
    Backup.tickets_loop E cfg (Backup.fuel_of w) url params w
    = Backup.tickets_loop E cfg
        (Backup.fuel_of (requested url params (length ts) w rest)) url params
        (requested url params (length ts) w rest) ∧
    ∀ now seen_ids streak,
      Backup.org_incremental E cfg (Backup.fuel_of w) now url params seen_ids streak w
      = Backup.org_incremental E cfg
          (Backup.fuel_of (requested url params (length ts) w rest)) now url params
          seen_ids streak (requested url params (length ts) w rest).
Proof.
  intros url params w ts rest Hfeed Hall.
  assert (Hfuel : Backup.fuel_of w
                  = (length ts
                     + Backup.fuel_of (requested url params (length ts) w rest))%nat).
  { unfold Backup.fuel_of. rewrite Hfeed, length_app. simpl. lia. }
  rewrite Hfuel. split.
  - by apply tickets_loop_transient.
  - intros now seen_ids streak. by apply org_incremental_transient.
Qed.

End Transient.

(** Ten failures in a row, more than the fetcher would retry. *)
Definition busy_answers : list Backup.event :=
  replicate 9 (answer 503 "busy") ++ [Backup.NetworkError].

Definition busy_world : Backup.world :=
  fresh_world empty_db (busy_answers ++ [page_answer mixed_tickets_page]).

Lemma transient_failures_witness :
  Backup.tickets_loop test_env closed_only_cfg (Backup.fuel_of busy_world) (JStr "u") []
    busy_world
  = Backup.tickets_loop test_env closed_only_cfg
      (Backup.fuel_of (requested (JStr "u") [] (length busy_answers) busy_world
                         [page_answer mixed_tickets_page]))
      (JStr "u") []
      (requested (JStr "u") [] (length busy_answers) busy_world
         [page_answer mixed_tickets_page]).
Proof.
  assert (Hall : Forall (transient test_env) busy_answers).
  { apply Forall_app. split; [|by apply Forall_singleton].
    apply Forall_replicate. split; [|done].
    apply (bool_decide_unpack _). vm_compute. exact I. }
  exact (proj1 (transient_failures_are_retried_without_bound test_env closed_only_cfg
                  (JStr "u") [] busy_world busy_answers
                  [page_answer mixed_tickets_page] eq_refl Hall)).
Defined.


(** ** The fuel of the paging loops is enough *)

(** [m] never reports spent fuel. *)
Definition quiet {S A} (m : M S A) : Prop := ∀ s, (m s).2 ≠ Raise OutOfFuel.

(** An outcome that is not spent fuel, in a world whose feed is no longer
    than that of [w]. *)
Definition fine {A} (w : Backup.world) (res : Backup.world * result A) : Prop :=
  res.2 ≠ Raise OutOfFuel ∧ (length (Backup.feed res.1) ≤ length (Backup.feed w))%nat.

(** [m] never reports spent fuel and puts no answer back in the feed. *)
Definition steady {A} (m : M Backup.world A) : Prop := ∀ w, fine w (m w).

(** Moreover [m] has taken an answer from the feed when it returns. *)
Definition took {A} (w : Backup.world) (res : Backup.world * result A) : Prop :=
  res.2 ≠ Raise OutOfFuel ∧
  (length (Backup.feed res.1) ≤ length (Backup.feed w))%nat ∧
  ∀ a, res.2 = Ok a → (length (Backup.feed res.1) < length (Backup.feed w))%nat.

Definition consuming {A} (m : M Backup.world A) : Prop := ∀ w, took w (m w).

Lemma quiet_ret {S A} (a : A) : quiet (ret (S := S) a).
Proof. by intros s. Qed.

Lemma quiet_raise {S A} e : e ≠ OutOfFuel → quiet (raise (S := S) (A := A) e).
Proof. intros He s. simpl. congruence. Qed.

Lemma quiet_lift {S A} (r : result A) : r ≠ Raise OutOfFuel → quiet (lift (S := S) r).
Proof. by intros Hr s. Qed.

Lemma quiet_bind {S A B} (m : M S A) (f : A → M S B) :
  quiet m → (∀ a, quiet (f a)) → quiet (bind m f).
Proof.
  intros Hm Hf s. unfold bind. specialize (Hm s).
  destruct (m s) as [s1 [a|e]]; simpl in *; [apply Hf|congruence].
Qed.

Lemma quiet_for_each {S A} (body : A → M S unit) xs :
  (∀ x, quiet (body x)) → quiet (for_each body xs).
Proof.
  intros Hbody. induction xs as [|x xs IH]; simpl; [apply quiet_ret|].
  apply quiet_bind; auto.
Qed.

Lemma steady_quiet {A} (m : M Backup.world A) :
  quiet m → preserves Backup.feed m → steady m.
Proof. intros Hq Hf w. split; [apply Hq|]. by rewrite Hf. Qed.

Lemma steady_ret {A} (a : A) : steady (ret a).
Proof. by intros w. Qed.

Lemma steady_raise {A} e : e ≠ OutOfFuel → steady (raise (A := A) e).
Proof. intros He w. split; simpl; [congruence|done]. Qed.

Lemma steady_lift {A} (r : result A) : r ≠ Raise OutOfFuel → steady (lift r).
Proof. by intros Hr w. Qed.

Lemma steady_bind {A B} (m : M Backup.world A) (f : A → M Backup.world B) :
  steady m → (∀ a, steady (f a)) → steady (bind m f).
Proof.
  intros Hm Hf w. unfold bind. destruct (Hm w) as [Hq Hl].
  destruct (m w) as [w1 [a|e]]; simpl in *; [|split; simpl; [congruence|done]].
  destruct (Hf a w1) as [Hq' Hl']. split; [done|lia].
Qed.

Lemma steady_for_each {A} (body : A → M Backup.world unit) xs :
  (∀ x, steady (body x)) → steady (for_each body xs).
Proof.
  intros Hbody. induction xs as [|x xs IH]; simpl; [apply steady_ret|].
  apply steady_bind; auto.
Qed.

Lemma steady_on_store {A} (m : M db A) : quiet m → steady (Backup.on_store m).
Proof.
  intros Hm w. unfold Backup.on_store. specialize (Hm (Backup.store w)).
  by destruct (m (Backup.store w)).
Qed.

Lemma consuming_steady {A} (m : M Backup.world A) : consuming m → steady m.
Proof. intros Hm w. destruct (Hm w) as (? & ? & _). done. Qed.

Lemma consuming_bind {A B} (m : M Backup.world A) (f : A → M Backup.world B) :
  consuming m → (∀ a, steady (f a)) → consuming (bind m f).
Proof.
  intros Hm Hf w. unfold bind. destruct (Hm w) as (Hq & Hl & Hc).
  destruct (m w) as [w1 [a|e]]; simpl in *; [|split; simpl; [congruence|done]].
  destruct (Hf a w1) as [Hq' Hl']. specialize (Hc a eq_refl).
  split; [done|]. split; [lia|]. intros; lia.
Qed.

(** The closing steps: another exception than spent fuel, a feed no
    longer than before. *)
Ltac spent :=
  first [ done | congruence | lia
        | split; simpl in *; [first [done|congruence]|first [done|lia]] ].

(** The exceptions of the operations on decoded values are Python's. *)
Ltac python_error :=
  intros; repeat (simpl; unfold item, attr_get, attr_get_or; case_match);
  simplify_eq; done.

Section Fuel.
Variables (E : env) (cfg : Backup.config).

Lemma py_int_quiet j : py_int E j ≠ Raise OutOfFuel.
Proof. unfold py_int. python_error. Qed.

Lemma py_iter_quiet j : py_iter j ≠ Raise OutOfFuel.
Proof. unfold py_iter. python_error. Qed.

Lemma item_quiet o k : item o k ≠ Raise OutOfFuel.
Proof. unfold item. python_error. Qed.

Lemma attr_get_quiet v k : attr_get v k ≠ Raise OutOfFuel.
Proof. unfold attr_get. python_error. Qed.

Lemma attr_get_or_quiet v k dflt : attr_get_or v k dflt ≠ Raise OutOfFuel.
Proof. unfold attr_get_or. python_error. Qed.

Lemma int_id_quiet o : Backup.int_id E o ≠ Raise OutOfFuel.
Proof.
  unfold Backup.int_id. pose proof (item_quiet o "id").
  destruct (item o "id"); [apply py_int_quiet|congruence].
Qed.

Lemma category_entity_id_quiet o : Backup.category_entity_id E o ≠ Raise OutOfFuel.
Proof.
  unfold Backup.category_entity_id. destruct (Backup.int_id E o); [done|].
  pose proof (item_quiet o "id"). destruct (item o "id"); congruence.
Qed.

Lemma ticket_status_quiet t : Backup.ticket_status E t ≠ Raise OutOfFuel.
Proof. unfold Backup.ticket_status. python_error. Qed.

Lemma insert_row_quiet t key params : quiet (insert_row E t key params).
Proof. intros d. unfold insert_row. python_error. Qed.

Lemma upsert_raw_quiet resource id updated_at payload :
  quiet (Backup.upsert_raw E resource id updated_at payload).
Proof. intros d. unfold Backup.upsert_raw. python_error. Qed.

Lemma set_cursor_val_quiet resource token : quiet (Backup.set_cursor_val E resource token).
Proof. intros d. unfold Backup.set_cursor_val. python_error. Qed.

Lemma write_entity_quiet e : quiet (Backup.write_entity E e).
Proof.
  destruct e as [j|j|j|? j|? ? j ?|j|j|j|j]; simpl; destruct j;
    try (by apply quiet_raise);
    (apply quiet_bind; [apply insert_row_quiet|intros _]);
    (apply quiet_bind;
     [apply quiet_lift; first [apply int_id_quiet|apply category_entity_id_quiet]
     |intros ?]);
    apply upsert_raw_quiet.
Qed.

Lemma write_entity_steady e : steady (Backup.on_store (Backup.write_entity E e)).
Proof. apply steady_on_store, write_entity_quiet. Qed.

Lemma resp_json_steady r : steady (Backup.resp_json r).
Proof.
  unfold Backup.resp_json. destruct (Backup.body r);
    [apply steady_ret|by apply steady_raise].
Qed.

Lemma sleep_hint_steady ra : steady (Backup.sleep_hint E ra).
Proof.
  unfold Backup.sleep_hint. destruct ra as [s|]; [|apply steady_ret].
  destruct (String.eqb s ""); [apply steady_ret|].
  destruct (float_of_header E s) as [[]|];
    [apply steady_ret|by apply steady_raise|by apply steady_raise].
Qed.

Lemma capped_hint_steady ra : steady (Backup.capped_hint E ra).
Proof.
  unfold Backup.capped_hint. destruct ra as [s|]; [|apply steady_ret].
  destruct (String.eqb s ""); [apply steady_ret|].
  destruct (float_of_header E s); [apply steady_ret|by apply steady_raise].
Qed.

Lemma next_link_steady p k : steady (Backup.next_link p k).
Proof.
  unfold Backup.next_link. destruct (truthy _); [apply steady_ret|].
  apply steady_lift, attr_get_quiet.
Qed.

(** A request that is answered takes its answer from the feed. *)
Lemma session_get_consuming url params : consuming (Backup.session_get url params).
Proof.
  intros w. unfold took, Backup.session_get.
  destruct (Backup.feed w) as [|[r|] rest] eqn:Hfeed; simpl; rewrite ?Hfeed; simpl;
    (split; [done|]); (split; [lia|]); intros a Ha;
    first [discriminate Ha|lia].
Qed.

Lemma retry_loop_consuming n url params : consuming (Backup.retry_loop E n url params).
Proof.
  induction n as [|n IH]; simpl.
  - intros w. simpl. split; [done|]. split; [done|]. done.
  - apply consuming_bind; [apply session_get_consuming|intros resp].
    destruct (_ =? 200); [apply resp_json_steady|].
    destruct (bool_decide _); [|by apply steady_raise].
    apply steady_bind; [apply sleep_hint_steady|intros _].
    apply consuming_steady, IH.
Qed.

Lemma get_with_retry_consuming url params : consuming (Backup.get_with_retry E url params).
Proof. apply retry_loop_consuming. Qed.

(** A paging loop given more fuel than there are answers left does not
    run out of it. *)
Definition fuelled {A} (loop : nat → M Backup.world A) : Prop :=
  ∀ fuel w, (length (Backup.feed w) < fuel)%nat → fine w (loop fuel w).

Lemma fuelled_steady {A} (loop : nat → M Backup.world A) :
  fuelled loop → steady (λ w, loop (Backup.fuel_of w) w).
Proof. intros Hloop w. apply Hloop. unfold Backup.fuel_of. lia. Qed.

Lemma list_pages_from_fuelled body page :
  (∀ p, steady (body p)) → fuelled (λ fuel, Backup.list_pages_from E fuel body page).
Proof.
  intros Hbody fuel. revert page.
  induction fuel as [|fuel IH]; intros page w Hfuel; [lia|].
  cbn [Backup.list_pages_from].
  set (link := match page with
               | JObj p => Backup.next_link p "next_page"
               | _ => raise AttributeError
               end).
  assert (Hlink : steady link).
  { unfold link. destruct page; try (by apply steady_raise). apply next_link_steady. }
  unfold bind at 1.
  destruct (Hbody page w) as [Hq Hl].
  destruct (body page w) as [w1 [[]|e]]; simpl in *; [|spent].
  unfold bind at 1.
  destruct (Hlink w1) as [Hq1 Hl1].
  destruct (link w1) as [w2 [next_url|e]]; simpl in *; [|spent].
  destruct (truthy next_url); [|simpl; spent].
  unfold bind.
  destruct (get_with_retry_consuming next_url [] w2) as (Hq2 & Hl2 & Hc2).
  destruct (Backup.get_with_retry E next_url [] w2) as [w3 [page'|e]]; simpl in *;
    [|spent].
  specialize (Hc2 page' eq_refl).
  destruct (IH page' w3) as [Hq3 Hl3]; [lia|]. spent.
Qed.

Lemma for_list_pages_steady url params body :
  (∀ p, steady (body p)) → steady (Backup.for_list_pages E url params body).
Proof.
  intros Hbody. unfold Backup.for_list_pages.
  apply steady_bind; [apply consuming_steady, get_with_retry_consuming|intros page].
  apply (fuelled_steady (λ fuel, Backup.list_pages_from E fuel body page)).
  by apply list_pages_from_fuelled.
Qed.

Lemma record_page_steady resource page : steady (Backup.record_page resource page).
Proof. by intros w. Qed.

Lemma checkpoint_steady resource (token : json) :
  steady (if truthy token
          then Backup.on_store (Backup.set_cursor_val E resource token)
          else ret tt).
Proof.
  destruct (truthy token); [|apply steady_ret].
  apply steady_on_store, set_cursor_val_quiet.
Qed.

Lemma users_page_steady page : steady (Backup.users_page E page).
Proof.
  unfold Backup.users_page. destruct page; try (by apply steady_raise).
  apply steady_bind; [apply steady_lift, py_iter_quiet|intros users].
  apply steady_bind.
  { apply steady_on_store, quiet_for_each. intros u.
    apply (write_entity_quiet (Backup.User u)). }
  intros _. apply steady_bind; [apply checkpoint_steady|intros _].
  apply steady_bind; [apply record_page_steady|intros _; apply steady_ret].
Qed.

Lemma users_pages_fuelled page : fuelled (λ fuel, Backup.users_pages E fuel page).
Proof.
  intros fuel. revert page.
  induction fuel as [|fuel IH]; intros page w Hfuel; [lia|].
  cbn [Backup.users_pages]. unfold bind at 1.
  destruct (users_page_steady page w) as [Hq Hl].
  destruct (Backup.users_page E page w) as [w1 [continue|e]]; simpl in *; [|spent].
  destruct continue; [|simpl; spent].
  set (link := match page with
               | JObj p => Backup.next_link p "after_url"
               | _ => raise AttributeError
               end).
  assert (Hlink : steady link).
  { unfold link. destruct page; try (by apply steady_raise). apply next_link_steady. }
  unfold bind at 1.
  destruct (Hlink w1) as [Hq1 Hl1].
  destruct (link w1) as [w2 [after_url|e]]; simpl in *; [|spent].
  destruct (truthy after_url); [|simpl; spent].
  unfold bind.
  destruct (get_with_retry_consuming after_url [] w2) as (Hq2 & Hl2 & Hc2).
  destruct (Backup.get_with_retry E after_url [] w2) as [w3 [page'|e]]; simpl in *;
    [|spent].
  specialize (Hc2 page' eq_refl).
  destruct (IH page' w3) as [Hq3 Hl3]; [lia|]. spent.
Qed.

Lemma sync_users_steady now : steady (Backup.sync_users E cfg now).
Proof.
  unfold Backup.sync_users.
  apply steady_bind; [apply steady_on_store; by intros d|intros last].
  apply steady_bind; [apply consuming_steady, get_with_retry_consuming|intros first].
  apply (fuelled_steady (λ fuel, Backup.users_pages E fuel first)).
  apply users_pages_fuelled.
Qed.

Lemma snapshot_pages_fuelled page : fuelled (λ fuel, Backup.snapshot_pages E fuel page).
Proof.
  intros fuel. revert page.
  induction fuel as [|fuel IH]; intros page w Hfuel; [lia|].
  cbn [Backup.snapshot_pages]. destruct page as [| | | | |p]; try (simpl; spent).
  unfold bind at 1. unfold lift at 1.
  pose proof (py_iter_quiet (get_or p "organizations" (JArr []))) as Hit.
  destruct (py_iter _) as [orgs|e]; [|simpl; spent].
  unfold bind at 1.
  destruct (steady_on_store (for_each (Backup.upsert_org E) orgs)
              (quiet_for_each _ orgs (λ o, write_entity_quiet (Backup.Organization o))) w)
    as [Hq Hl].
  destruct (Backup.on_store _ w) as [w1 [[]|e]]; simpl in *; [|spent].
  unfold bind at 1.
  destruct (next_link_steady p "next_page" w1) as [Hq1 Hl1].
  destruct (Backup.next_link p "next_page" w1) as [w2 [nxt|e]]; simpl in *;
    [|spent].
  destruct (truthy nxt); [|simpl; spent].
  unfold bind.
  destruct (get_with_retry_consuming nxt [] w2) as (Hq2 & Hl2 & Hc2).
  destruct (Backup.get_with_retry E nxt [] w2) as [w3 [page'|e]]; simpl in *;
    [|spent].
  specialize (Hc2 page' eq_refl).
  destruct (IH page' w3) as [Hq3 Hl3]; [lia|]. spent.
Qed.

Lemma snapshot_once_steady now : steady (Backup.snapshot_once E cfg now).
Proof.
  unfold Backup.snapshot_once.
  apply steady_bind; [apply consuming_steady, get_with_retry_consuming|intros page].
  apply steady_bind.
  - apply (fuelled_steady (λ fuel, Backup.snapshot_pages E fuel page)).
    apply snapshot_pages_fuelled.
  - intros _. apply steady_on_store, set_cursor_val_quiet.
Qed.

Lemma org_entities_steady seen_ids orgs : steady (Backup.org_entities E seen_ids orgs).
Proof.
  revert seen_ids. induction orgs as [|o orgs IH]; intros seen_ids; simpl;
    [apply steady_ret|].
  destruct o; try (by apply steady_raise).
  apply steady_bind; [|intros _; apply IH].
  apply (write_entity_steady (Backup.Organization (JObj kvs))).
Qed.

Lemma org_page_steady seen_ids streak resp :
  steady (Backup.org_page E seen_ids streak resp).
Proof.
  unfold Backup.org_page.
  apply steady_bind; [apply resp_json_steady|intros page].
  destruct page; try (by apply steady_raise).
  apply steady_bind; [apply steady_lift, py_iter_quiet|intros orgs].
  apply steady_bind; [apply org_entities_steady|intros seen_ids'].
  apply steady_bind.
  { destruct (truthy _); [|apply steady_ret].
    apply steady_on_store, set_cursor_val_quiet. }
  intros _. apply steady_bind; [apply record_page_steady|intros _].
  destruct (3 <=? _); [apply steady_ret|].
  destruct (truthy _); apply steady_ret.
Qed.

(** After an answer was taken, a steady step leaves a shorter feed. *)
Lemma took_after {A} w w1 (m : M Backup.world A) :
  (length (Backup.feed w1) < length (Backup.feed w))%nat → steady m → took w (m w1).
Proof.
  intros Hlt Hm. destruct (Hm w1) as [Hq Hl].
  split; [done|]. split; [lia|]. intros; lia.
Qed.

(** A turn of the incremental loop always asks for one answer. *)
Lemma org_turn_consuming url params seen_ids streak :
  consuming (Backup.org_turn E url params seen_ids streak).
Proof.
  intros w. unfold Backup.org_turn, Backup.session_get.
  destruct (Backup.feed w) as [|[resp|] rest] eqn:Hfeed; [by repeat split| |].
  - set (w1 := {| Backup.store := Backup.store w; Backup.feed := rest;
                  Backup.sent := _; Backup.journal := Backup.journal w |}).
    assert (Hlt : (length (Backup.feed w1) < length (Backup.feed w))%nat)
      by (rewrite Hfeed; simpl; lia).
    destruct (_ =? 200); [apply took_after; [done|apply org_page_steady]|].
    destruct (_ =? 429).
    { apply took_after; [done|].
      apply steady_bind; [apply capped_hint_steady|intros _; apply steady_ret]. }
    destruct (bool_decide _).
    + apply (took_after w w1 (ret _)); [done|apply steady_ret].
    + apply (took_after w w1 (raise _)); [done|by apply steady_raise].
  - split; [done|]. simpl. rewrite Hfeed. simpl. split; [lia|]. intros; lia.
Qed.

Lemma org_incremental_fuelled now url params seen_ids streak :
  fuelled (λ fuel, Backup.org_incremental E cfg fuel now url params seen_ids streak).
Proof.
  intros fuel. revert url params seen_ids streak.
  induction fuel as [|fuel IH]; intros url params seen_ids streak w Hfuel; [lia|].
  cbn [Backup.org_incremental]. unfold bind.
  destruct (org_turn_consuming url params seen_ids streak w) as (Hq & Hl & Hc).
  destruct (Backup.org_turn E url params seen_ids streak w) as [w1 [c|e]]; simpl in *;
    [|spent].
  specialize (Hc c eq_refl). destruct c as [url' params' seen_ids' streak'| |].
  - destruct (IH url' params' seen_ids' streak' w1) as [Hq1 Hl1]; [lia|]. spent.
  - destruct (snapshot_once_steady now w1) as [Hq1 Hl1]. spent.
  - spent.
Qed.

Lemma sync_organizations_steady now : steady (Backup.sync_organizations E cfg now).
Proof.
  unfold Backup.sync_organizations.
  apply steady_bind; [apply steady_on_store; by intros d|intros last_epoch].
  destruct (_ || _); [apply snapshot_once_steady|].
  apply steady_bind; [apply steady_lift, py_int_quiet|intros start_time].
  apply (fuelled_steady (λ fuel, Backup.org_incremental E cfg fuel now _ _ ∅ 0)).
  apply org_incremental_fuelled.
Qed.

(** *** Tickets *)

Lemma comment_attachments_steady ticket_id comment_id attachments :
  comment_id ≠ Raise OutOfFuel →
  steady (Backup.comment_attachments E ticket_id comment_id attachments).
Proof.
  intros Hid. unfold Backup.comment_attachments. apply steady_for_each. intros a.
  apply steady_bind; [by apply steady_lift|intros cid].
  apply steady_bind.
  { destruct (download_attachment E ticket_id cid a);
      [apply steady_ret|by apply steady_raise]. }
  intros path.
  apply (write_entity_steady (Backup.Attachment ticket_id (Some cid) a path)).
Qed.

Lemma ticket_comment_steady t c : steady (Backup.ticket_comment E t c).
Proof.
  unfold Backup.ticket_comment.
  apply steady_bind; [apply steady_lift, int_id_quiet|intros ticket_id].
  apply steady_bind; [apply (write_entity_steady (Backup.Comment ticket_id c))|intros _].
  destruct c; try (by apply steady_raise).
  apply steady_bind; [apply steady_lift, py_iter_quiet|intros attachments].
  apply comment_attachments_steady, py_int_quiet.
Qed.

Lemma ticket_step_steady t : steady (Backup.ticket_step E cfg t).
Proof.
  unfold Backup.ticket_step. destruct t; try (by apply steady_raise).
  apply steady_bind; [apply steady_lift, ticket_status_quiet|intros status].
  destruct (_ && _).
  { destruct (Backup.PRUNE_REOPENED_FROM_DB cfg); [|apply steady_ret].
    apply steady_bind; [apply steady_lift, int_id_quiet|intros ticket_id].
    apply steady_on_store. by intros d. }
  apply steady_bind; [apply (write_entity_steady (Backup.Ticket (JObj kvs)))|intros _].
  destruct (Backup.USE_TICKET_EVENTS_FOR_COMMENTS cfg); [apply steady_ret|].
  apply steady_bind; [apply steady_lift, item_quiet|intros id].
  apply for_list_pages_steady. intros cpage.
  destruct cpage; try (by apply steady_raise).
  apply steady_bind; [apply steady_lift, py_iter_quiet|intros comments].
  apply steady_for_each. intros c. apply ticket_comment_steady.
Qed.

Lemma tickets_page_steady url resp : steady (Backup.tickets_page E cfg url resp).
Proof.
  unfold Backup.tickets_page.
  apply steady_bind; [apply resp_json_steady|intros page].
  destruct page; try (by apply steady_raise).
  apply steady_bind; [apply steady_lift, py_iter_quiet|intros tickets].
  apply steady_bind; [apply steady_for_each; intros t; apply ticket_step_steady|intros _].
  apply steady_bind; [apply checkpoint_steady|intros _].
  apply steady_bind; [apply record_page_steady|intros _].
  destruct (truthy _); [apply steady_ret|].
  apply steady_bind; [apply next_link_steady|intros after; apply steady_ret].
Qed.

Lemma tickets_turn_consuming url params : consuming (Backup.tickets_turn E cfg url params).
Proof.
  intros w. unfold Backup.tickets_turn, Backup.session_get.
  destruct (Backup.feed w) as [|[resp|] rest] eqn:Hfeed; [by repeat split| |].
  - set (w1 := {| Backup.store := Backup.store w; Backup.feed := rest;
                  Backup.sent := _; Backup.journal := Backup.journal w |}).
    assert (Hlt : (length (Backup.feed w1) < length (Backup.feed w))%nat)
      by (rewrite Hfeed; simpl; lia).
    destruct (_ =? 200); [apply took_after; [done|apply tickets_page_steady]|].
    destruct (_ =? 429).
    { apply took_after; [done|].
      apply steady_bind; [apply capped_hint_steady|intros _; apply steady_ret]. }
    destruct (bool_decide _).
    + apply (took_after w w1 (ret _)); [done|apply steady_ret].
    + apply (took_after w w1 (raise _)); [done|by apply steady_raise].
  - split; [done|]. simpl. rewrite Hfeed. simpl. split; [lia|]. intros; lia.
Qed.

Lemma tickets_loop_fuelled url params :
  fuelled (λ fuel, Backup.tickets_loop E cfg fuel url params).
Proof.
  intros fuel. revert url params.
  induction fuel as [|fuel IH]; intros url params w Hfuel; [lia|].
  cbn [Backup.tickets_loop]. unfold bind.
  destruct (tickets_turn_consuming url params w) as (Hq & Hl & Hc).
  destruct (Backup.tickets_turn E cfg url params w) as [w1 [c|e]]; simpl in *; [|spent].
  specialize (Hc c eq_refl). destruct c as [url' params'|].
  - destruct (IH url' params' w1) as [Hq1 Hl1]; [lia|]. spent.
  - spent.
Qed.

Lemma sync_tickets_steady now :
  steady (Backup.sync_tickets_comments_attachments E cfg now).
Proof.
  unfold Backup.sync_tickets_comments_attachments.
  apply steady_bind; [apply steady_on_store; by intros d|intros last].
  apply (fuelled_steady (λ fuel, Backup.tickets_loop E cfg fuel _ _)).
  apply tickets_loop_fuelled.
Qed.

(** *** Ticket events *)

Lemma child_event_step_steady tid ce : steady (Backup.child_event_step E tid ce).
Proof.
  unfold Backup.child_event_step. destruct ce; try (by apply steady_raise).
  destruct (Backup.is_comment_event kvs); [|apply steady_ret].
  apply steady_bind.
  { apply steady_lift. unfold Backup.comment_of_child_event.
    pose proof (item_quiet kvs "id"). by destruct (item kvs "id"). }
  intros c.
  apply steady_bind; [apply (write_entity_steady (Backup.Comment tid c))|intros _].
  apply steady_bind; [apply steady_lift, py_iter_quiet|intros attachments].
  apply comment_attachments_steady, int_id_quiet.
Qed.

Lemma ticket_event_step_steady ev : steady (Backup.ticket_event_step E cfg ev).
Proof.
  unfold Backup.ticket_event_step. destruct ev; try (by apply steady_raise).
  apply steady_bind; [apply steady_lift, py_int_quiet|intros tid].
  apply steady_bind.
  { destruct (Backup.CLOSED_TICKETS_ONLY cfg); [|apply steady_ret].
    apply steady_bind; [apply consuming_steady, get_with_retry_consuming|intros reply].
    apply steady_bind; [apply steady_lift, attr_get_or_quiet|intros t].
    destruct t; try (by apply steady_raise).
    apply steady_bind; [apply steady_lift, ticket_status_quiet|intros status].
    apply steady_ret. }
  intros closed. destruct closed; [|apply steady_ret].
  apply steady_bind; [apply steady_lift, py_iter_quiet|intros child_events].
  apply steady_for_each. intros ce. apply child_event_step_steady.
Qed.

Lemma ticket_events_loop_fuelled url params :
  fuelled (λ fuel, Backup.ticket_events_loop E cfg fuel url params).
Proof.
  intros fuel. revert url params.
  induction fuel as [|fuel IH]; intros url params w Hfuel; [lia|].
  cbn [Backup.ticket_events_loop]. unfold bind at 1.
  destruct (get_with_retry_consuming url params w) as (Hq & Hl & Hc).
  destruct (Backup.get_with_retry E url params w) as [w1 [page|e]]; simpl in *; [|spent].
  specialize (Hc page eq_refl). destruct page as [| | | | |p]; try (simpl; spent).
  unfold bind at 1, lift at 1.
  pose proof (py_iter_quiet (get_or p "ticket_events" (JArr []))) as Hit.
  destruct (py_iter _) as [events|e]; [|simpl; spent].
  unfold bind at 1.
  destruct (steady_for_each (Backup.ticket_event_step E cfg) events
              ticket_event_step_steady w1) as [Hq1 Hl1].
  destruct (for_each _ events w1) as [w2 [[]|e]]; simpl in *; [|spent].
  destruct (truthy (get p "next_page")).
  - destruct (IH (get p "next_page") [] w2) as [Hq2 Hl2]; [lia|]. spent.
  - assert (Hend : steady (if truthy (get p "end_time")
                           then Backup.on_store
                                  (Backup.set_cursor_val E "ticket_events"
                                     (JStr (py_str E (get p "end_time"))))
                           else ret tt)).
    { destruct (truthy _); [apply steady_on_store, set_cursor_val_quiet|apply steady_ret]. }
    destruct (Hend w2) as [Hq2 Hl2]. split; [done|lia].
Qed.

Lemma sync_ticket_events_steady now :
  steady (Backup.sync_ticket_events_for_comments E cfg now).
Proof.
  unfold Backup.sync_ticket_events_for_comments.
  apply steady_bind; [apply steady_on_store; by intros d|intros last_epoch].
  apply steady_bind.
  { destruct (truthy _); [apply steady_lift, py_int_quiet|apply steady_ret]. }
  intros start_time.
  apply (fuelled_steady (λ fuel, Backup.ticket_events_loop E cfg fuel _ _)).
  apply ticket_events_loop_fuelled.
Qed.

(** *** The listings *)

Lemma listing_pages_fuelled key kind page :
  fuelled (λ fuel, Backup.listing_pages E fuel key
                     (λ x, Backup.write_entity E (kind x)) page).
Proof.
  intros fuel. revert page.
  induction fuel as [|fuel IH]; intros page w Hfuel; [lia|].
  cbn [Backup.listing_pages]. destruct page as [| | | | |p]; try (simpl; spent).
  unfold bind at 1. unfold lift at 1.
  pose proof (py_iter_quiet (get_or p key (JArr []))) as Hit.
  destruct (py_iter _) as [entities|e]; [|simpl; spent].
  unfold bind at 1.
  destruct (steady_on_store (for_each (λ x, Backup.write_entity E (kind x)) entities)
              (quiet_for_each _ entities (λ x, write_entity_quiet (kind x))) w)
    as [Hq Hl].
  destruct (Backup.on_store _ w) as [w1 [[]|e]]; simpl in *; [|spent].
  unfold bind at 1.
  destruct (next_link_steady p "next_page" w1) as [Hq1 Hl1].
  destruct (Backup.next_link p "next_page" w1) as [w2 [nxt|e]]; simpl in *;
    [|spent].
  destruct (truthy nxt); [|simpl; spent].
  unfold bind.
  destruct (get_with_retry_consuming nxt [] w2) as (Hq2 & Hl2 & Hc2).
  destruct (Backup.get_with_retry E nxt [] w2) as [w3 [page'|e]]; simpl in *;
    [|spent].
  specialize (Hc2 page' eq_refl).
  destruct (IH page' w3) as [Hq3 Hl3]; [lia|]. spent.
Qed.

Lemma listing_steady url params key kind :
  steady (page <- Backup.get_with_retry E url params ;;
          λ w, Backup.listing_pages E (Backup.fuel_of w) key
                 (λ x, Backup.write_entity E (kind x)) page w).
Proof.
  apply steady_bind; [apply consuming_steady, get_with_retry_consuming|intros page].
  apply (fuelled_steady (λ fuel, Backup.listing_pages E fuel key _ page)).
  apply listing_pages_fuelled.
Qed.

Lemma smoke_assert_agent_steady : steady (Backup.smoke_assert_agent cfg).
Proof.
  unfold Backup.smoke_assert_agent.
  apply steady_bind; [apply consuming_steady, session_get_consuming|intros r].
  apply steady_bind.
  { destruct (Backup.body r); [apply steady_ret|by apply steady_raise]. }
  intros data.
  apply steady_bind; [apply steady_lift, attr_get_quiet|intros found].
  apply steady_bind; [apply steady_lift, attr_get_quiet|intros email].
  apply steady_bind; [apply steady_lift, attr_get_quiet|intros role].
  apply steady_bind; [apply steady_lift, attr_get_quiet|intros id].
  destruct (_ || _); [by apply steady_raise|].
  destruct role; try (by apply steady_raise).
  destruct (_ || _); [apply steady_ret|by apply steady_raise].
Qed.

(** X14. Every turn of every paging loop takes an answer of the API before the
    loop goes round again, so a run makes no more turns than it was given
    answers: the fuel the loops start with is never spent, and no run gives
    an answer back.  A run of a sync, and of the whole of [main], ends with
    what the code returns or raises, or is cut where the API stops
    answering. *)
Theorem syncs_take_an_answer_each_turn :
  ∀ w,
    (∀ now, fine w (Backup.sync_users E cfg now w)) ∧
    (∀ now, fine w (Backup.sync_organizations E cfg now w)) ∧
    (∀ now, fine w (Backup.sync_tickets_comments_attachments E cfg now w)) ∧
    (∀ now, fine w (Backup.sync_ticket_events_for_comments E cfg now w)) ∧
    fine w (Backup.sync_views E cfg w) ∧
    fine w (Backup.sync_triggers E cfg w) ∧
    fine w (Backup.sync_trigger_categories E cfg w) ∧
    fine w (Backup.sync_macros E cfg w) ∧
    (∀ now, fine w (Backup.main E cfg now (Ok tt) w)).
Proof.
  intros w.
  assert (Hviews : steady (Backup.sync_views E cfg))
    by apply (listing_steady _ _ "views" Backup.View).
  assert (Htriggers : steady (Backup.sync_triggers E cfg))
    by apply (listing_steady _ _ "triggers" Backup.Trigger).
  assert (Hcategories : steady (Backup.sync_trigger_categories E cfg))
    by apply (listing_steady _ _ "trigger_categories" Backup.TriggerCategory).
  assert (Hmacros : steady (Backup.sync_macros E cfg))
    by apply (listing_steady _ _ "macros" Backup.Macro).
  split; [intros now; apply sync_users_steady|].
  split; [intros now; apply sync_organizations_steady|].
  split; [intros now; apply sync_tickets_steady|].
  split; [intros now; apply sync_ticket_events_steady|].
  split; [apply Hviews|]. split; [apply Htriggers|].
  split; [apply Hcategories|]. split; [apply Hmacros|].
  intros now. revert w. change (steady (Backup.main E cfg now (Ok tt))).
  unfold Backup.main.
  apply steady_bind; [apply smoke_assert_agent_steady|intros _].
  apply steady_bind; [by apply steady_lift|intros _].
  apply steady_bind; [apply sync_users_steady|intros _].
  apply steady_bind; [apply sync_organizations_steady|intros _].
  apply steady_bind; [apply sync_tickets_steady|intros _].
  apply steady_bind.
  { destruct (Backup.USE_TICKET_EVENTS_FOR_COMMENTS cfg);
      [apply sync_ticket_events_steady|apply steady_ret]. }
  intros _.
  apply steady_bind; [apply Hviews|intros _].
  apply steady_bind; [apply Htriggers|intros _].
  apply steady_bind; [apply Hcategories|intros _].
  apply Hmacros.
Qed.

End Fuel.

(** ** File names of attachments *)

(** The characters of a string. *)
Abbreviation chars := String.list_ascii_of_string.






(** ** The smoke test and the start of a backup *)

(** The answer of [users/me.json] that lets a backup start: status 200
    and a body with a user that has an id and the role of an admin or of
    an agent. *)
Definition agent_answer (r : Backup.response) : Prop :=
  Backup.status_code r = 200 ∧
  ∃ o user,
    Backup.body r = Some (JObj o) ∧
    get o "user" = JObj user ∧
    truthy (get user "id") = true ∧
    (get user "role" = JStr "admin" ∨ get user "role" = JStr "agent").

Section Smoke.
Variables (E : env) (cfg : Backup.config).

Lemma smoke_run w :
  Backup.smoke_assert_agent cfg w
  = match Backup.feed w with
    | [] => (w, Raise Stalled)
    | Backup.NetworkError :: rest =>
        (requested (Backup.url_of cfg "/api/v2/users/me.json") [] 1 w rest,
         Raise RequestException)
    | Backup.Response r :: rest =>
        (requested (Backup.url_of cfg "/api/v2/users/me.json") [] 1 w rest,
         (Backup.smoke_assert_agent cfg
            {| Backup.store := Backup.store w; Backup.feed := [Backup.Response r];
               Backup.sent := []; Backup.journal := [] |}).2)
    end.
Proof.
  unfold Backup.smoke_assert_agent, bind, Backup.session_get, lift, raise, ret, requested.
  destruct (Backup.feed w) as [|[r|] rest]; simpl; [done| |done].
  repeat (case_match; simplify_eq; try done).
Qed.

Lemma smoke_passes r s :
  (Backup.smoke_assert_agent cfg
     {| Backup.store := s; Backup.feed := [Backup.Response r];
        Backup.sent := []; Backup.journal := [] |}).2 = Ok tt ↔ agent_answer r.
Proof.
  unfold Backup.smoke_assert_agent, bind, Backup.session_get, lift, raise, ret, agent_answer.
  simpl. split.
  - destruct (Backup.body r) as [data|] eqn:Hbody; simpl; [|done].
    unfold py_or. destruct data as [| | | | |o]; simpl;
      try (unfold attr_get in *; repeat (case_match; simplify_eq; try done); fail).
    destruct o as [|kv o]; simpl; [by destruct (_ =? 200)|].
    set (o' := kv :: o) in *.
    destruct (get o' "user") as [| | | | |user] eqn:Huser; simpl;
      try (unfold attr_get in *; repeat (case_match; simplify_eq; try done); fail).
    destruct user as [|kv' user]; simpl; [by destruct (_ =? 200)|].
    set (user' := kv' :: user) in *.
    destruct (Backup.status_code r =? 200) eqn:H200; simpl; [|done].
    destruct (truthy (get user' "id")) eqn:Hid; simpl; [|done].
    destruct (get user' "role") as [| | |role| |] eqn:Hrole; try done.
    destruct (String.eqb_spec role "admin") as [->|Hadmin]; simpl.
    { intros _. apply Z.eqb_eq in H200. split; [done|]. exists o', user'. eauto. }
    destruct (String.eqb_spec role "agent") as [->|Hagent]; simpl; [|done].
    intros _. apply Z.eqb_eq in H200. split; [done|]. exists o', user'. eauto.
  - intros (H200 & o & user & Hbody & Huser & Hid & Hrole).
    rewrite Hbody. simpl.
    assert (Ho : truthy (JObj o) = true).
    { destruct o; [done|done]. }
    unfold py_or. rewrite Ho. simpl. rewrite Huser.
    assert (Hu : truthy (JObj user) = true).
    { destruct user; [done|done]. }
    rewrite Hu. simpl. rewrite H200, Hid. simpl.
    by destruct Hrole as [-> | ->].
Qed.

(** X16. A backup starts only for an agent or an admin.  The smoke test makes
    one request and passes exactly on an answer with status 200 whose body
    names a user with an id and one of the two roles; when it does not
    pass, [main] ends with the error of the smoke test and has made no
    other request and no write.  When the setup of the schema fails after
    it, no sync is run either. *)
Theorem backup_starts_only_for_an_agent :
  ∀ now setup w,
    (∀ r rest, Backup.feed w = Backup.Response r :: rest →
       ((Backup.smoke_assert_agent cfg w).2 = Ok tt ↔ agent_answer r) ∧
       (Backup.smoke_assert_agent cfg w).1
       = requested (Backup.url_of cfg "/api/v2/users/me.json") [] 1 w rest) ∧
    (∀ x, (Backup.smoke_assert_agent cfg w).2 = Raise x →
          Backup.main E cfg now setup w = ((Backup.smoke_assert_agent cfg w).1, Raise x) ∧
          Backup.store (Backup.main E cfg now setup w).1 = Backup.store w ∧
          Backup.journal (Backup.main E cfg now setup w).1 = Backup.journal w ∧
          (length (Backup.sent (Backup.main E cfg now setup w).1)
           ≤ S (length (Backup.sent w)))%nat) ∧
    (∀ x, (Backup.smoke_assert_agent cfg w).2 = Ok tt → setup = Raise x →
          Backup.main E cfg now setup w = ((Backup.smoke_assert_agent cfg w).1, Raise x)).
Proof.
  intros now setup w. split; [|split].
  - intros r rest Hfeed. rewrite smoke_run, Hfeed. simpl. split; [|done].
    apply smoke_passes.
  - intros x Hx.
    assert (Hmain : Backup.main E cfg now setup w
                    = ((Backup.smoke_assert_agent cfg w).1, Raise x)).
    { unfold Backup.main. unfold bind at 1.
      destruct (Backup.smoke_assert_agent cfg w) as [w1 [[]|e]]; simpl in *; [done|].
      by injection Hx as ->. }
    rewrite Hmain. split; [done|]. simpl. rewrite smoke_run.
    destruct (Backup.feed w) as [|[r|] rest]; simpl; rewrite ?length_app; simpl;
      repeat split; lia.
  - intros x Hok ->. unfold Backup.main. unfold bind at 1.
    destruct (Backup.smoke_assert_agent cfg w) as [w1 [[]|e]]; simpl in *; [done|done].
Qed.

End Smoke.

(** The answer to an agent, and a run of [main] that stops at a customer. *)
Definition me_answer (role : string) : Backup.event :=
  page_answer (JObj [("user", JObj [("id", JNum 7); ("role", JStr role)])]).

Lemma backup_starts_witness :
  Backup.main test_env test_cfg (λ _, 1700000000) (Ok tt)
    (fresh_world one_user_db [me_answer "end-user"; page_answer users_page_1])
  = ((Backup.smoke_assert_agent test_cfg
        (fresh_world one_user_db [me_answer "end-user"; page_answer users_page_1])).1,
     Raise (SystemExit
              "Authenticated but not an agent/admin. Use an AGENT/ADMIN email + API token.")).
Proof.
  destruct (backup_starts_only_for_an_agent test_env test_cfg (λ _, 1700000000) (Ok tt)
              (fresh_world one_user_db [me_answer "end-user"; page_answer users_page_1]))
    as (_ & Hstop & _).
  apply Hstop. reflexivity.
Defined.

(** ** The listings: what a run writes *)

(** [page.get("next_page") or page.get("links", {}).get("next")]. *)
Definition next_of (p : list (string * json)) : result json :=
  if truthy (get p "next_page") then Ok (get p "next_page")
  else attr_get (get_or p "links" (JObj [])) "next".

(** Whether the page names a next page; [None] when reading it raises. *)
Definition goes_on (p : list (string * json)) : option bool :=
  match next_of p with
  | Ok nxt => Some (truthy nxt)
  | Raise _ => None
  end.

Definition next_request (p : list (string * json)) : Backup.request :=
  {| Backup.req_url := match next_of p with Ok nxt => nxt | Raise _ => JNull end;
     Backup.req_params := [] |}.

(** Pages that lead one to the next: every page but the last names a
    next page, the last names none. *)
Fixpoint chained (pages : list (list (string * json))) : Prop :=
  match pages with
  | [] => True
  | p :: rest =>
      match rest with
      | [] => goes_on p = Some false
      | _ :: _ => goes_on p = Some true ∧ chained rest
      end
  end.

(** The requests for the pages after the first. *)
Fixpoint follow_ups (pages : list (list (string * json))) : list Backup.request :=
  match pages with
  | [] => []
  | p :: rest =>
      match rest with
      | [] => []
      | _ :: _ => next_request p :: follow_ups rest
      end
  end.

(** The four listings: the sync, its URL, its parameters, the key of the
    entities in a page and their kind. *)
Definition listings (E : env) (cfg : Backup.config)
    : list (M Backup.world unit * (json * list (string * json) * string *
                                   (json → Backup.entity))) :=
  [(Backup.sync_views E cfg,
    (Backup.url_of cfg "/api/v2/views.json", Backup.listing_params cfg true,
     "views", Backup.View));
   (Backup.sync_triggers E cfg,
    (Backup.url_of cfg "/api/v2/triggers.json", Backup.listing_params cfg false,
     "triggers", Backup.Trigger));
   (Backup.sync_trigger_categories E cfg,
    (Backup.url_of cfg "/api/v2/trigger_categories.json", Backup.listing_params cfg false,
     "trigger_categories", Backup.TriggerCategory));
   (Backup.sync_macros E cfg,
    (Backup.url_of cfg "/api/v2/macros.json", Backup.listing_params cfg true,
     "macros", Backup.Macro))].

Lemma for_each_app {S A} (f : A → M S unit) xs ys s :
  for_each f (xs ++ ys) s = (for_each f xs ;;; for_each f ys) s.
Proof.
  revert s. induction xs as [|x xs IH]; intros s; simpl; [done|].
  unfold bind in *. destruct (f x s) as [s1 [[]|e]]; [|done].
  apply IH.
Qed.

Section ListingPages.
Variables (E : env) (cfg : Backup.config).

(** A page that is answered at once. *)
Lemma fetch_page url params w page rest :
  Backup.feed w = page_answer page :: rest →
  Backup.get_with_retry E url params w = (requested url params 1 w rest, Ok page).
Proof.
  intros Hfeed. unfold Backup.get_with_retry. cbn [Backup.retry_loop].
  unfold bind at 1. unfold Backup.session_get. by rewrite Hfeed.
Qed.

Lemma next_link_run {S} p (w : S) :
  Backup.next_link p "next_page" w = (w, next_of p).
Proof. unfold Backup.next_link, next_of. by destruct (truthy _). Qed.

Lemma listing_pages_run key upsert :
  ∀ pages fuel p xs xss w rest d',
    (length pages < fuel)%nat →
    Backup.feed w = (page_answer ∘ JObj <$> pages) ++ rest →
    chained (p :: pages) →
    Forall2 (λ p xs, py_iter (get_or p key (JArr [])) = Ok xs) (p :: pages) (xs :: xss) →
    for_each upsert (concat (xs :: xss)) (Backup.store w) = (d', Ok tt) →
    Backup.listing_pages E fuel key upsert (JObj p) w
    = ({| Backup.store := d'; Backup.feed := rest;
          Backup.sent := Backup.sent w ++ follow_ups (p :: pages);
          Backup.journal := Backup.journal w |}, Ok tt).
Proof.
  induction pages as [|p2 pages IH];
    intros fuel p xs xss w rest d' Hfuel Hfeed Hlinks Hpages Hwritten;
    (destruct fuel as [|fuel]; [simpl in Hfuel; lia|]);
    apply Forall2_cons in Hpages as [Hxs Hpages];
    cbn [Backup.listing_pages]; unfold bind at 1, lift at 1; rewrite Hxs;
    cbn [concat] in Hwritten; rewrite for_each_app in Hwritten; unfold bind in Hwritten;
    destruct (for_each upsert xs (Backup.store w)) as [d1 [[]|e]] eqn:Hd1; try done;
    unfold bind at 1; rewrite on_store_run, Hd1; cbn [fst snd];
    unfold bind at 1; rewrite next_link_run.
  - apply Forall2_nil_inv_l in Hpages as ->. simpl in Hwritten. injection Hwritten as <-.
    simpl in Hlinks. unfold goes_on in Hlinks.
    destruct (next_of p) as [nxt|e]; [|done]. injection Hlinks as ->.
    simpl in Hfeed. unfold ret. by rewrite app_nil_r, Hfeed.
  - destruct xss as [|xs2 xss]; [by apply Forall2_nil_inv_r in Hpages|].
    destruct Hlinks as [Hgoes Hlinks]. unfold goes_on in Hgoes.
    change (follow_ups (p :: p2 :: pages)) with (next_request p :: follow_ups (p2 :: pages)).
    unfold next_request at 1.
    destruct (next_of p) as [nxt|e]; [|done]. injection Hgoes as ->.
    unfold bind at 1.
    rewrite (fetch_page nxt [] _ (JObj p2) ((page_answer ∘ JObj <$> pages) ++ rest))
      by exact Hfeed.
    rewrite (IH fuel p2 xs2 xss _ rest d'); try done.
    + unfold requested. simpl. by rewrite <- (assoc_L (++)).
    + simpl in Hfuel. lia.
Qed.

(** X10. A listing that is answered page after page stores the entities of
    every page, in the order of the pages, through the Writer, and asks for
    nothing more than the pages: the first request with the parameters of
    the listing, then one request to the link each page names, until the
    page that names none. *)
Theorem listing_stores_every_page :
  ∀ sync url params key kind,
    (sync, (url, params, key, kind)) ∈ listings E cfg →
    ∀ w p pages xs xss rest d',
      Backup.feed w = (page_answer ∘ JObj <$> p :: pages) ++ rest →
      chained (p :: pages) →
      Forall2 (λ p xs, py_iter (get_or p key (JArr [])) = Ok xs) (p :: pages) (xs :: xss) →
      for_each (λ x, Backup.write_entity E (kind x)) (concat (xs :: xss)) (Backup.store w)
      = (d', Ok tt) →
      sync w
      = ({| Backup.store := d'; Backup.feed := rest;
            Backup.sent := Backup.sent w ++
                           {| Backup.req_url := url; Backup.req_params := params |}
                           :: follow_ups (p :: pages);
            Backup.journal := Backup.journal w |}, Ok tt).
Proof.
  intros sync url params key kind Hin w p pages xs xss rest d' Hfeed Hlinks Hpages Hwritten.
  assert (Hrun : sync = (page <- Backup.get_with_retry E url params ;;
                         λ w, Backup.listing_pages E (Backup.fuel_of w) key
                                (λ x, Backup.write_entity E (kind x)) page w)).
  { unfold listings in Hin.
    repeat (apply elem_of_cons in Hin as [Hin|Hin]; [by simplify_eq|]).
    by apply elem_of_nil in Hin. }
  rewrite Hrun. unfold bind at 1.
  rewrite (fetch_page url params w (JObj p) ((page_answer ∘ JObj <$> pages) ++ rest))
    by exact Hfeed.
  rewrite (listing_pages_run key _ pages _ p xs xss _ rest d'); try done.
  - unfold requested. simpl. by rewrite <- (assoc_L (++)).
  - unfold Backup.fuel_of, requested. simpl. rewrite length_app, length_fmap. lia.
Qed.

End ListingPages.

(** Two pages of views. *)
Definition views_page_1 : list (string * json) :=
  [("views", JArr [JObj [("id", JNum 1); ("title", JStr "Open")]]);
   ("next_page", JStr "https://example.zendesk.com/api/v2/views.json?page=2")].

Definition views_page_2 : list (string * json) :=
  [("views", JArr [JObj [("id", JNum 2); ("title", JStr "Solved")]]);
   ("next_page", JNull)].

Lemma listing_stores_witness :
  Backup.sync_views test_env test_cfg
    (fresh_world empty_db (page_answer ∘ JObj <$> [views_page_1; views_page_2]))
  = ({| Backup.store :=
          (for_each (Backup.upsert_view test_env)
             [JObj [("id", JNum 1); ("title", JStr "Open")];
              JObj [("id", JNum 2); ("title", JStr "Solved")]] empty_db).1;
        Backup.feed := [];
        Backup.sent :=
          [{| Backup.req_url := JStr "https://example.zendesk.com/api/v2/views.json";
              Backup.req_params := [("per_page", JNum 100)] |};
           {| Backup.req_url :=
                JStr "https://example.zendesk.com/api/v2/views.json?page=2";
              Backup.req_params := [] |}];
        Backup.journal := [] |}, Ok tt).
Proof.
  apply (listing_stores_every_page test_env test_cfg
           (Backup.sync_views test_env test_cfg)
           (Backup.url_of test_cfg "/api/v2/views.json")
           (Backup.listing_params test_cfg true) "views" Backup.View
           ltac:(apply list_elem_of_here)
           (fresh_world empty_db (page_answer ∘ JObj <$> [views_page_1; views_page_2]))
           views_page_1 [views_page_2]
           [JObj [("id", JNum 1); ("title", JStr "Open")]]
           [[JObj [("id", JNum 2); ("title", JStr "Solved")]]] []).
  - reflexivity.
  - split; reflexivity.
  - repeat constructor.
  - reflexivity.
Defined.

(** ** Restoring in batches *)



